(** * A shallow embedding of the bitcoin-blockchain core node

    The development follows the layout of the Python sources:
    [src/utils/encoding.py], [src/crypto/hash.py], [src/crypto/merkle.py],
    [src/core/transaction.py],
    [src/core/block.py], [src/mining/miner.py], [src/consensus/difficulty.py],
    [src/consensus/rules.py], [src/consensus/validation.py], [src/core/utxo.py],
    [src/core/mempool.py] and [src/core/blockchain.py].

    Conventions.
    - Python [int] is [Z]; [bytes] is [list byte]; [str] is [string].
    - A Python exception is a value [Raise e] of the type [result]; only the
      class of the exception is kept, since the handlers of the sources
      dispatch on the class alone.
    - A Python [dict] is an insertion-ordered association list without
      duplicate keys (module [Dict]); the sources iterate over dictionaries.
    - [hashlib.sha256] is implemented (module [SHA256]) so that block hashes
      and transaction ids of concrete chains can be evaluated.
    - The wall clock [time.time()] is an explicit argument [now]. *)

From Stdlib Require Import ZArith List Bool Lia QArith.
From Stdlib Require Uint63.
From Stdlib.Strings Require Import String Ascii Byte.
From Stdlib Require DecimalString DecimalZ DecimalPos Sorted Permutation.
Import ListNotations.

Local Open Scope Z_scope.

(* ================================================================== *)
(** ** Exceptions *)

Inductive exn : Type :=
| ValidationError   (* src/consensus/validation.py *)
| ValueError
| TypeError
| KeyError
| OverflowError
| IndexError
| Diverges.         (* the source loop would not terminate *)

Inductive result (A : Type) : Type :=
| Ok (a : A)
| Raise (e : exn).

Arguments Ok {A} a.
Arguments Raise {A} e.

Definition bind {A B : Type} (r : result A) (k : A -> result B) : result B :=
  match r with
  | Ok a => k a
  | Raise e => Raise e
  end.

Notation "x <- r ;; k" := (bind r (fun x => k))
  (at level 61, r at next level, right associativity).
Notation "' p <- r ;; k" := (bind r (fun x => let p := x in k))
  (at level 61, p pattern, r at next level, right associativity).

Definition is_ok {A : Type} (r : result A) : bool :=
  match r with Ok _ => true | Raise _ => false end.

Fixpoint mapM {A B : Type} (f : A -> result B) (l : list A) : result (list B) :=
  match l with
  | [] => Ok []
  | x :: t => y <- f x ;; ys <- mapM f t ;; Ok (y :: ys)
  end.

(* ================================================================== *)
(** ** Encoding primitives ([src/utils/encoding.py]) *)

Definition byte_to_Z (b : byte) : Z := Z.of_N (Byte.to_N b).

Definition byte_of_Z (z : Z) : byte :=
  match Byte.of_N (Z.to_N (z mod 256)) with
  | Some b => b
  | None => x00
  end.

(** [value.to_bytes(length, byteorder='little')] once the range check passed. *)
Fixpoint le_bytes (length : nat) (value : Z) : list byte :=
  match length with
  | O => []
  | S n => byte_of_Z value :: le_bytes n (value / 256)
  end.

(** [int_to_little_endian]: [to_bytes] raises [OverflowError] on a negative
    value and on a value that does not fit. *)
Definition int_to_little_endian (value : Z) (length : nat) : result (list byte) :=
  if (value <? 0) || (256 ^ Z.of_nat length <=? value)
  then Raise OverflowError
  else Ok (le_bytes length value).

(** [little_endian_to_int]: [int.from_bytes(data, byteorder='little')]. *)
Fixpoint little_endian_to_int (data : list byte) : Z :=
  match data with
  | [] => 0
  | b :: t => byte_to_Z b + 256 * little_endian_to_int t
  end.

(** [int_to_big_endian] and [big_endian_to_int]. *)
Definition int_to_big_endian (value : Z) (length : nat) : result (list byte) :=
  r <- int_to_little_endian value length ;; Ok (rev r).

Definition big_endian_to_int (data : list byte) : Z :=
  little_endian_to_int (rev data).

(** Python slice [data[a:b]] for [0 <= a <= b]. *)
Definition slice {A : Type} (data : list A) (a b : nat) : list A :=
  firstn (b - a) (skipn a data).

(** Hexadecimal digits. *)
Definition hex_digit (n : Z) : ascii :=
  if n <? 10 then ascii_of_N (Z.to_N (48 + n)) else ascii_of_N (Z.to_N (87 + n)).

Definition hex_value (c : ascii) : option Z :=
  let n := Z.of_N (N_of_ascii c) in
  if (48 <=? n) && (n <=? 57) then Some (n - 48)
  else if (97 <=? n) && (n <=? 102) then Some (n - 87)
  else if (65 <=? n) && (n <=? 70) then Some (n - 55)
  else None.

(** [bytes.hex()]: two lowercase digits per byte. *)
Fixpoint bytes_to_hex (data : list byte) : string :=
  match data with
  | [] => EmptyString
  | b :: t =>
      String (hex_digit (byte_to_Z b / 16))
        (String (hex_digit (byte_to_Z b mod 16)) (bytes_to_hex t))
  end.

(** ASCII white space, skipped by [bytes.fromhex] between two bytes. *)
Definition is_ascii_space (c : ascii) : bool :=
  let n := N_of_ascii c in
  (N.eqb n 32) || ((N.leb 9 n) && (N.leb n 13)).

(** [bytes.fromhex]: two digits per byte, white space between bytes is
    skipped, anything else raises [ValueError]. *)
Fixpoint bytes_fromhex (s : string) : result (list byte) :=
  match s with
  | EmptyString => Ok []
  | String c rest =>
      if is_ascii_space c then bytes_fromhex rest
      else
        match rest with
        | EmptyString => Raise ValueError
        | String d rest' =>
            match hex_value c, hex_value d with
            | Some h, Some l =>
                t <- bytes_fromhex rest' ;; Ok (byte_of_Z (16 * h + l) :: t)
            | _, _ => Raise ValueError
            end
        end
  end.

(** [hex_to_bytes]: an optional [0x] prefix is dropped first. *)
Definition hex_to_bytes (hex_string : string) : result (list byte) :=
  match hex_string with
  | String "0"%char (String "x"%char rest) => bytes_fromhex rest
  | String "0"%char (String "X"%char rest) => bytes_fromhex rest
  | _ => bytes_fromhex hex_string
  end.

(** [int(s, 16)] on a string of hexadecimal digits. *)
Fixpoint int_hex_acc (acc : Z) (s : string) : result Z :=
  match s with
  | EmptyString => Ok acc
  | String c rest =>
      match hex_value c with
      | Some d => int_hex_acc (16 * acc + d) rest
      | None => Raise ValueError
      end
  end.

Definition int_hex (s : string) : result Z :=
  match s with
  | EmptyString => Raise ValueError
  | _ => int_hex_acc 0 s
  end.

(** [encode_varint]. *)
Definition encode_varint (value : Z) : result (list byte) :=
  if value <? 0 then Raise ValueError
  else if value <? 0xfd then Ok [byte_of_Z value]
  else if value <=? 0xffff then
    r <- int_to_little_endian value 2 ;; Ok (xfd :: r)
  else if value <=? 0xffffffff then
    r <- int_to_little_endian value 4 ;; Ok (xfe :: r)
  else
    r <- int_to_little_endian value 8 ;; Ok (xff :: r).

(** [decode_varint(data, offset)]: the value and the number of bytes read. *)
Definition decode_varint (data : list byte) (offset : nat) : result (Z * nat) :=
  match nth_error data offset with
  | None => Raise ValueError
  | Some first_byte =>
      let fb := byte_to_Z first_byte in
      if fb <? 0xfd then Ok (fb, 1%nat)
      else if fb =? 0xfd then
        if (List.length data <? offset + 3)%nat then Raise ValueError
        else Ok (little_endian_to_int (slice data (offset + 1) (offset + 3)), 3%nat)
      else if fb =? 0xfe then
        if (List.length data <? offset + 5)%nat then Raise ValueError
        else Ok (little_endian_to_int (slice data (offset + 1) (offset + 5)), 5%nat)
      else
        if (List.length data <? offset + 9)%nat then Raise ValueError
        else Ok (little_endian_to_int (slice data (offset + 1) (offset + 9)), 9%nat)
  end.

(* ================================================================== *)
(** ** SHA-256 ([hashlib.sha256], FIPS 180-4) *)

Module SHA256.

Import Uint63.

(** Words are kept in the 63-bit machine integers of the kernel; every
  operation below masks its result to 32 bits. *)
Definition w32 (x : int) : int := Uint63.land x 0xffffffff%uint63.

Definition rotr (n x : int) : int :=
Uint63.lor (Uint63.lsr x n) (w32 (Uint63.lsl x (Uint63.sub 32%uint63 n))).

Definition Ch (x y z : int) : int :=
Uint63.lxor (Uint63.land x y)
            (Uint63.land (Uint63.lxor x 0xffffffff%uint63) z).

Definition Maj (x y z : int) : int :=
Uint63.lxor (Uint63.lxor (Uint63.land x y) (Uint63.land x z)) (Uint63.land y z).

Definition Sigma0 (x : int) : int :=
Uint63.lxor (Uint63.lxor (rotr 2%uint63 x) (rotr 13%uint63 x)) (rotr 22%uint63 x).
Definition Sigma1 (x : int) : int :=
Uint63.lxor (Uint63.lxor (rotr 6%uint63 x) (rotr 11%uint63 x)) (rotr 25%uint63 x).
Definition sigma0 (x : int) : int :=
Uint63.lxor (Uint63.lxor (rotr 7%uint63 x) (rotr 18%uint63 x)) (Uint63.lsr x 3%uint63).
Definition sigma1 (x : int) : int :=
Uint63.lxor (Uint63.lxor (rotr 17%uint63 x) (rotr 19%uint63 x)) (Uint63.lsr x 10%uint63).

Definition byte_to_int (b : byte) : int := Uint63.of_Z (byte_to_Z b).

(** Big-endian 32-bit words of a byte string whose length is a multiple of 4. *)
Fixpoint words (data : list byte) : list int :=
match data with
| a :: b :: c :: d :: t =>
    Uint63.lor
      (Uint63.lor (Uint63.lsl (byte_to_int a) 24%uint63)
                  (Uint63.lsl (byte_to_int b) 16%uint63))
      (Uint63.lor (Uint63.lsl (byte_to_int c) 8%uint63) (byte_to_int d))
      :: words t
| _ => []
end.

(** The constant tables are written as hexadecimal text, eight digits per
  word, and read with the same parser as every other hex string. *)
Definition words_of_hex (rows : list string) : list int :=
match bytes_fromhex (String.concat " " rows) with
| Ok bs => words bs
| Raise _ => []
end.

Definition K : list int :=
Eval vm_compute in words_of_hex
  [ "428a2f98 71374491 b5c0fbcf e9b5dba5 3956c25b 59f111f1 923f82a4 ab1c5ed5";
    "d807aa98 12835b01 243185be 550c7dc3 72be5d74 80deb1fe 9bdc06a7 c19bf174";
    "e49b69c1 efbe4786 0fc19dc6 240ca1cc 2de92c6f 4a7484aa 5cb0a9dc 76f988da";
    "983e5152 a831c66d b00327c8 bf597fc7 c6e00bf3 d5a79147 06ca6351 14292967";
    "27b70a85 2e1b2138 4d2c6dfc 53380d13 650a7354 766a0abb 81c2c92e 92722c85";
    "a2bfe8a1 a81a664b c24b8b70 c76c51a3 d192e819 d6990624 f40e3585 106aa070";
    "19a4c116 1e376c08 2748774c 34b0bcb5 391c0cb3 4ed8aa4a 5b9cca4f 682e6ff3";
    "748f82ee 78a5636f 84c87814 8cc70208 90befffa a4506ceb bef9a3f7 c67178f2" ]%string.

Definition H0 : list int :=
Eval vm_compute in words_of_hex
  [ "6a09e667 bb67ae85 3c6ef372 a54ff53a 510e527f 9b05688c 1f83d9ab 5be0cd19" ]%string.

Definition word_bytes (w : int) : list byte :=
let z := Uint63.to_Z w in
[ byte_of_Z (z / 16777216); byte_of_Z (z / 65536); byte_of_Z (z / 256); byte_of_Z z ].

(** Padding: a bit 1, zeros up to 56 mod 64, the bit length on 8 bytes. *)
Definition pad (data : list byte) : list byte :=
let len := Z.of_nat (List.length data) in
let zeros := Z.to_nat ((55 - len) mod 64) in
data ++ x80 :: repeat x00 zeros ++ rev (le_bytes 8 (8 * len)).

(** The message schedule, most recent word first. *)
Fixpoint schedule (n : nat) (rev_w : list int) : list int :=
match n with
| O => rev rev_w
| S m =>
    let w := w32 (Uint63.add
                    (Uint63.add (sigma1 (nth 1 rev_w 0%uint63)) (nth 6 rev_w 0%uint63))
                    (Uint63.add (sigma0 (nth 14 rev_w 0%uint63)) (nth 15 rev_w 0%uint63))) in
    schedule m (w :: rev_w)
end.

Record regs := { ra : int; rb : int; rc : int; rd : int;
               re : int; rf : int; rg : int; rh : int }.

Definition round (s : regs) (kw : int * int) : regs :=
let t1 := Uint63.add
            (Uint63.add (Uint63.add (rh s) (Sigma1 (re s))) (Ch (re s) (rf s) (rg s)))
            (Uint63.add (fst kw) (snd kw)) in
let t2 := Uint63.add (Sigma0 (ra s)) (Maj (ra s) (rb s) (rc s)) in
{| ra := w32 (Uint63.add t1 t2); rb := ra s; rc := rb s; rd := rc s;
   re := w32 (Uint63.add (rd s) t1); rf := re s; rg := rf s; rh := rg s |}.

Definition regs_of (h : list int) : regs :=
{| ra := nth 0 h 0%uint63; rb := nth 1 h 0%uint63; rc := nth 2 h 0%uint63;
   rd := nth 3 h 0%uint63; re := nth 4 h 0%uint63; rf := nth 5 h 0%uint63;
   rg := nth 6 h 0%uint63; rh := nth 7 h 0%uint63 |}.

Definition compress (h : list int) (chunk : list byte) : list int :=
let w := schedule 48 (rev (words chunk)) in
let s0 := regs_of h in
let s := fold_left round (combine K w) s0 in
[ w32 (Uint63.add (ra s0) (ra s)); w32 (Uint63.add (rb s0) (rb s));
  w32 (Uint63.add (rc s0) (rc s)); w32 (Uint63.add (rd s0) (rd s));
  w32 (Uint63.add (re s0) (re s)); w32 (Uint63.add (rf s0) (rf s));
  w32 (Uint63.add (rg s0) (rg s)); w32 (Uint63.add (rh s0) (rh s)) ].

Fixpoint chunks (n : nat) (h : list int) (data : list byte) : list int :=
match n with
| O => h
| S m => chunks m (compress h (firstn 64 data)) (skipn 64 data)
end.

Definition sha256 (data : list byte) : list byte :=
let p := pad data in
flat_map word_bytes (chunks (List.length p / 64) H0 p).

End SHA256.

(** [double_sha256] of [src/crypto/hash.py] (also defined in
    [src/core/transaction.py] and [src/core/block.py]). *)
Definition double_sha256 (data : list byte) : list byte :=
  SHA256.sha256 (SHA256.sha256 data).

Definition bytes_of_string (s : string) : list byte := list_byte_of_string s.


(** Python [str(n)] for an integer. *)
Definition str_of_int (n : Z) : string :=
  DecimalString.NilZero.string_of_int (Z.to_int n).

(** Python [n.bit_length()]. *)
Definition bit_length (n : Z) : Z :=
  if n =? 0 then 0 else Z.log2 (Z.abs n) + 1.

(** Python [s.lower()] on ASCII. *)
Definition ascii_lower (c : ascii) : ascii :=
  let n := N_of_ascii c in
  if (N.leb 65 n) && (N.leb n 90) then ascii_of_N (n + 32) else c.

Fixpoint str_lower (s : string) : string :=
  match s with
  | EmptyString => EmptyString
  | String c t => String (ascii_lower c) (str_lower t)
  end.

Fixpoint str_repeat (c : ascii) (n : nat) : string :=
  match n with
  | O => EmptyString
  | S m => String c (str_repeat c m)
  end.

(** The all-zeros hash ["0" * 64]. *)
Definition zero_hash : string := Eval compute in str_repeat "0"%char 64.

(* ================================================================== *)
(** ** Dictionaries

    A Python [dict] keeps its keys in insertion order; assigning to an
    existing key keeps the position of the key. *)

Module Dict.
Section WithKey.
Context {K V : Type} (eqb : K -> K -> bool).

Fixpoint get (k : K) (d : list (K * V)) : option V :=
  match d with
  | [] => None
  | (k', v) :: t => if eqb k k' then Some v else get k t
  end.

Definition mem (k : K) (d : list (K * V)) : bool :=
  match get k d with Some _ => true | None => false end.

Fixpoint set (k : K) (v : V) (d : list (K * V)) : list (K * V) :=
  match d with
  | [] => [(k, v)]
  | (k', v') :: t => if eqb k k' then (k, v) :: t else (k', v') :: set k v t
  end.

Fixpoint remove (k : K) (d : list (K * V)) : list (K * V) :=
  match d with
  | [] => []
  | (k', v') :: t => if eqb k k' then t else (k', v') :: remove k t
  end.

Definition keys (d : list (K * V)) : list K := map fst d.
Definition values (d : list (K * V)) : list V := map snd d.
End WithKey.
End Dict.

(* ================================================================== *)
(** ** Transactions ([src/core/transaction.py]) *)

Record TransactionOutput : Type := mkTxOut {
  value : Z;
  pubkey_script : string
}.

Record TransactionInput : Type := mkTxIn {
  previous_txid : string;
  previous_output_index : Z;
  signature_script : string;
  sequence : Z
}.

Record Transaction : Type := mkTx {
  tx_version : Z;
  inputs : list TransactionInput;
  outputs : list TransactionOutput;
  locktime : Z
}.

Module TxOut.

Definition serialize (o : TransactionOutput) : result (list byte) :=
  r <- int_to_little_endian (value o) 8 ;;
  script_bytes <- hex_to_bytes (pubkey_script o) ;;
  n <- encode_varint (Z.of_nat (List.length script_bytes)) ;;
  Ok (r ++ n ++ script_bytes).

Definition deserialize (data : list byte) (offset : nat)
  : result (TransactionOutput * nat) :=
  let v := little_endian_to_int (slice data offset (offset + 8)) in
  let offset1 := (offset + 8)%nat in
  '(script_length, varint_size) <- decode_varint data offset1 ;;
  let offset2 := (offset1 + varint_size)%nat in
  let script_bytes := slice data offset2 (offset2 + Z.to_nat script_length) in
  Ok ({| value := v; pubkey_script := bytes_to_hex script_bytes |},
      (offset2 + Z.to_nat script_length - offset)%nat).

Definition is_dust (o : TransactionOutput) (threshold : Z) : bool :=
  value o <? threshold.

End TxOut.

Module TxIn.

Definition serialize (i : TransactionInput) : result (list byte) :=
  txid_bytes <- bytes_fromhex (previous_txid i) ;;
  idx <- int_to_little_endian (previous_output_index i) 4 ;;
  script_bytes <-
    (match signature_script i with
     | EmptyString => Ok []
     | s => hex_to_bytes s
     end) ;;
  n <- encode_varint (Z.of_nat (List.length script_bytes)) ;;
  sq <- int_to_little_endian (sequence i) 4 ;;
  Ok (rev txid_bytes ++ idx ++ n ++ script_bytes ++ sq).

Definition deserialize (data : list byte) (offset : nat)
  : result (TransactionInput * nat) :=
  let ptxid := bytes_to_hex (rev (slice data offset (offset + 32))) in
  let offset1 := (offset + 32)%nat in
  let pidx := little_endian_to_int (slice data offset1 (offset1 + 4)) in
  let offset2 := (offset1 + 4)%nat in
  '(script_length, varint_size) <- decode_varint data offset2 ;;
  let offset3 := (offset2 + varint_size)%nat in
  let script :=
    if 0 <? script_length
    then bytes_to_hex (slice data offset3 (offset3 + Z.to_nat script_length))
    else EmptyString in
  let offset4 := (offset3 + Z.to_nat script_length)%nat in
  let sq := little_endian_to_int (slice data offset4 (offset4 + 4)) in
  Ok ({| previous_txid := ptxid; previous_output_index := pidx;
         signature_script := script; sequence := sq |},
      (offset4 + 4 - offset)%nat).

Definition is_coinbase (i : TransactionInput) : bool :=
  String.eqb (previous_txid i) zero_hash && (previous_output_index i =? 0xffffffff).

End TxIn.

Module Tx.

Fixpoint serialize_all {A : Type} (f : A -> result (list byte)) (l : list A)
  : result (list byte) :=
  match l with
  | [] => Ok []
  | x :: t => b <- f x ;; r <- serialize_all f t ;; Ok (b ++ r)
  end.

Definition serialize (tx : Transaction) : result (list byte) :=
  v <- int_to_little_endian (tx_version tx) 4 ;;
  ni <- encode_varint (Z.of_nat (List.length (inputs tx))) ;;
  ins <- serialize_all TxIn.serialize (inputs tx) ;;
  no <- encode_varint (Z.of_nat (List.length (outputs tx))) ;;
  outs <- serialize_all TxOut.serialize (outputs tx) ;;
  lt <- int_to_little_endian (locktime tx) 4 ;;
  Ok (v ++ ni ++ ins ++ no ++ outs ++ lt).

(** [for _ in range(count): item, consumed = deserialize(data, offset) ...] *)
Fixpoint deserialize_all {A : Type} (f : list byte -> nat -> result (A * nat))
    (count : nat) (data : list byte) (offset : nat) : result (list A * nat) :=
  match count with
  | O => Ok ([], offset)
  | S n =>
      '(x, consumed) <- f data offset ;;
      '(xs, offset') <- deserialize_all f n data (offset + consumed) ;;
      Ok (x :: xs, offset')
  end.

Definition deserialize (data : list byte) (offset : nat)
  : result (Transaction * nat) :=
  let v := little_endian_to_int (slice data offset (offset + 4)) in
  let offset1 := (offset + 4)%nat in
  '(input_count, varint_size) <- decode_varint data offset1 ;;
  '(ins, offset2) <-
     deserialize_all TxIn.deserialize (Z.to_nat input_count) data (offset1 + varint_size) ;;
  '(output_count, varint_size') <- decode_varint data offset2 ;;
  '(outs, offset3) <-
     deserialize_all TxOut.deserialize (Z.to_nat output_count) data (offset2 + varint_size') ;;
  let lt := little_endian_to_int (slice data offset3 (offset3 + 4)) in
  Ok ({| tx_version := v; inputs := ins; outputs := outs; locktime := lt |},
      (offset3 + 4 - offset)%nat).

(** [calculate_txid]: the value of the property [txid] while the cache
    [_txid] is empty or holds what [calculate_txid] gave for the fields as
    they are, which is how the constructors and [deserialize] leave a
    transaction. *)
Definition txid (tx : Transaction) : result string :=
  serialized <- serialize tx ;;
  Ok (bytes_to_hex (rev (double_sha256 serialized))).

(** The property [txid] with its cache: a cached value is returned as it
    is.  [from_dict] fills [_txid] with the entry of the dictionary. *)
Definition txid_property (_txid : option string) (tx : Transaction) : result string :=
  match _txid with
  | Some cached => Ok cached
  | None => txid tx
  end.

Definition is_coinbase (tx : Transaction) : bool :=
  match inputs tx with
  | [i] => TxIn.is_coinbase i
  | _ => false
  end.

(** [Transaction.create_coinbase]. *)
Definition create_coinbase (block_height : Z) (reward_address : string)
    (reward_amount : Z) (extra_nonce : Z) : result Transaction :=
  height_bytes <-
    (if block_height =? 0 then Ok [x00]
     else int_to_little_endian block_height
            (Z.to_nat ((bit_length block_height + 7) / 8))) ;;
  extra_nonce_bytes <- int_to_little_endian extra_nonce 8 ;;
  len_byte <-
    (if 256 <=? Z.of_nat (List.length height_bytes) then Raise ValueError
     else Ok [byte_of_Z (Z.of_nat (List.length height_bytes))]) ;;
  let coinbase_script := len_byte ++ height_bytes ++ extra_nonce_bytes in
  Ok {| tx_version := 1;
        inputs := [ {| previous_txid := zero_hash;
                       previous_output_index := 0xffffffff;
                       signature_script := bytes_to_hex coinbase_script;
                       sequence := 0xffffffff |} ];
        outputs := [ {| value := reward_amount; pubkey_script := reward_address |} ];
        locktime := 0 |}.

End Tx.

(* ================================================================== *)
(** ** Blocks ([src/core/block.py]) *)

Record BlockHeader : Type := mkHeader {
  version : Z;
  previous_block_hash : string;
  merkle_root : string;
  timestamp : Z;
  difficulty_bits : Z;
  nonce : Z
}.

Record Block : Type := mkBlock {
  header : BlockHeader;
  transactions : list Transaction;
  _height : option Z
}.

Module Header.

Definition serialize (h : BlockHeader) : result (list byte) :=
  v <- int_to_little_endian (version h) 4 ;;
  p <- hex_to_bytes (previous_block_hash h) ;;
  m <- hex_to_bytes (merkle_root h) ;;
  t <- int_to_little_endian (timestamp h) 4 ;;
  d <- int_to_little_endian (difficulty_bits h) 4 ;;
  n <- int_to_little_endian (nonce h) 4 ;;
  Ok (v ++ rev p ++ rev m ++ t ++ d ++ n).

Definition deserialize (data : list byte) (offset : nat)
  : result (BlockHeader * nat) :=
  if (List.length data - offset <? 80)%nat then Raise ValueError
  else
    let o1 := (offset + 4)%nat in
    let o2 := (o1 + 32)%nat in
    let o3 := (o2 + 32)%nat in
    let o4 := (o3 + 4)%nat in
    let o5 := (o4 + 4)%nat in
    let o6 := (o5 + 4)%nat in
    Ok ({| version := little_endian_to_int (slice data offset o1);
           previous_block_hash := bytes_to_hex (rev (slice data o1 o2));
           merkle_root := bytes_to_hex (rev (slice data o2 o3));
           timestamp := little_endian_to_int (slice data o3 o4);
           difficulty_bits := little_endian_to_int (slice data o4 o5);
           nonce := little_endian_to_int (slice data o5 o6) |},
        (o6 - offset)%nat).

(** [calculate_hash]: the value of the property [hash] while the cache
    [_hash] is empty or holds what [calculate_hash] gave for the fields as
    they are, which is how the constructors and [deserialize] leave a
    header. *)
Definition hash (h : BlockHeader) : result string :=
  serialized <- serialize h ;;
  Ok (bytes_to_hex (rev (double_sha256 serialized))).

(** The property [hash] with its cache: a cached value is returned as it
    is.  [from_dict] fills [_hash] with the entry of the dictionary. *)
Definition hash_property (_hash : option string) (h : BlockHeader) : result string :=
  match _hash with
  | Some cached => Ok cached
  | None => hash h
  end.

Definition get_target (h : BlockHeader) : Z :=
  let exponent := Z.land (Z.shiftr (difficulty_bits h) 24) 0xff in
  let coefficient := Z.land (difficulty_bits h) 0x007fffff in
  let coefficient :=
    if Z.land (difficulty_bits h) 0x00800000 =? 0 then coefficient
    else - coefficient in
  let target :=
    if exponent <=? 3 then Z.shiftr coefficient (8 * (3 - exponent))
    else Z.shiftl coefficient (8 * (exponent - 3)) in
  Z.max 0 target.

Definition meets_difficulty_target (h : BlockHeader) : result bool :=
  let target := get_target h in
  hs <- hash h ;;
  block_hash_int <- int_hex hs ;;
  Ok (block_hash_int <=? target).

(** [meets_difficulty_target] reads the property, so the cache. *)
Definition meets_difficulty_target_cached (_hash : option string) (h : BlockHeader)
  : result bool :=
  let target := get_target h in
  hs <- hash_property _hash h ;;
  block_hash_int <- int_hex hs ;;
  Ok (block_hash_int <=? target).

End Header.

Module Blk.

(** One level of the tree: the last node is duplicated when the level is
    odd, then adjacent nodes are hashed in pairs. *)
Fixpoint hash_pairs (level : list (list byte)) : list (list byte) :=
  match level with
  | [] => []
  | [a] => [double_sha256 (a ++ a)]
  | a :: b :: t => double_sha256 (a ++ b) :: hash_pairs t
  end.

(** [while len(current_level) > 1]; every turn at least halves the level. *)
Fixpoint merkle_loop (fuel : nat) (level : list (list byte)) : list (list byte) :=
  match fuel with
  | O => level
  | S n =>
      match level with
      | _ :: _ :: _ => merkle_loop n (hash_pairs level)
      | _ => level
      end
  end.

Definition calculate_merkle_root (b : Block) : result string :=
  match transactions b with
  | [] => Ok zero_hash
  | [tx] => Tx.txid tx
  | txs =>
      level <- mapM (fun tx => t <- Tx.txid tx ;; h <- hex_to_bytes t ;; Ok (rev h)) txs ;;
      Ok (bytes_to_hex (rev (hd [] (merkle_loop (List.length level) level))))
  end.

Definition get_size (b : Block) : result Z :=
  n <- encode_varint (Z.of_nat (List.length (transactions b))) ;;
  sizes <- mapM (fun tx => s <- Tx.serialize tx ;; Ok (Z.of_nat (List.length s)))
                (transactions b) ;;
  Ok (fold_left Z.add sizes (80 + Z.of_nat (List.length n))).

Definition get_coinbase (b : Block) : option Transaction :=
  match transactions b with
  | tx :: _ => if Tx.is_coinbase tx then Some tx else None
  | [] => None
  end.

End Blk.

(** [serialize_block] and [deserialize_block] of [src/utils/serialization.py]. *)
Definition serialize_block (b : Block) : result (list byte) :=
  h <- Header.serialize (header b) ;;
  n <- encode_varint (Z.of_nat (List.length (transactions b))) ;;
  txs <- Tx.serialize_all Tx.serialize (transactions b) ;;
  Ok (h ++ n ++ txs).

Definition deserialize_block (data : list byte) (offset : nat)
  : result (Block * nat) :=
  '(h, header_size) <- Header.deserialize data offset ;;
  let offset1 := (offset + header_size)%nat in
  '(tx_count, varint_size) <- decode_varint data offset1 ;;
  '(txs, offset2) <-
     Tx.deserialize_all Tx.deserialize (Z.to_nat tx_count) data (offset1 + varint_size) ;;
  Ok ({| header := h; transactions := txs; _height := None |}, (offset2 - offset)%nat).

(** [compute_merkle_root] of [src/crypto/merkle.py], used for the genesis
    block: the leaves are taken as they are written, without reversal. *)
Definition compute_merkle_root (tx_hashes : list string) : result string :=
  match tx_hashes with
  | [] => Ok zero_hash
  | [h] => Ok (str_lower h)
  | _ =>
      leaves <- mapM bytes_fromhex tx_hashes ;;
      Ok (bytes_to_hex (hd [] (Blk.merkle_loop (List.length leaves) leaves)))
  end.

(* ================================================================== *)
(** ** Compact difficulty ([src/mining/miner.py]) *)

Definition compact_bits_to_target (bits : Z) : result Z :=
  if bits <=? 0 then Raise ValueError
  else
    let exponent := Z.land (Z.shiftr bits 24) 0xFF in
    let coefficient := Z.land bits 0x7FFFFF in
    let coefficient :=
      if Z.land bits 0x800000 =? 0 then coefficient else - coefficient in
    let target :=
      if exponent <=? 3 then Z.shiftr coefficient (8 * (3 - exponent))
      else Z.shiftl coefficient (8 * (exponent - 3)) in
    if target <? 0 then Ok 0 else Ok target.

Definition target_to_compact_bits (target : Z) : result Z :=
  if target <? 0 then Raise ValueError
  else if target =? 0 then Ok 0
  else
    let byte_length := (bit_length target + 7) / 8 in
    target_bytes <- int_to_big_endian target (Z.to_nat byte_length) ;;
    let exponent := Z.of_nat (List.length target_bytes) in
    let coefficient :=
      if 3 <=? exponent then big_endian_to_int (firstn 3 target_bytes)
      else big_endian_to_int (target_bytes ++ repeat x00 (Z.to_nat (3 - exponent))) in
    let '(coefficient, exponent) :=
      if Z.land coefficient 0x800000 =? 0 then (coefficient, exponent)
      else (Z.shiftr coefficient 8, exponent + 1) in
    Ok (Z.lor (Z.shiftl exponent 24) (Z.land coefficient 0x7FFFFF)).

(* ================================================================== *)
(** ** Difficulty adjustment and reward ([src/consensus/difficulty.py]) *)

Definition DIFFICULTY_ADJUSTMENT_INTERVAL : Z := 2016.
Definition TARGET_BLOCK_TIME : Z := 600.
Definition TARGET_TIMESPAN : Z := DIFFICULTY_ADJUSTMENT_INTERVAL * TARGET_BLOCK_TIME.
Definition MAX_ADJUSTMENT_FACTOR : Z := 4.
Definition GENESIS_DIFFICULTY_BITS : Z := 0x1d00ffff.
Definition DEV_DIFFICULTY_ADJUSTMENT_INTERVAL : Z := 10.
Definition DEV_TARGET_BLOCK_TIME : Z := 5.
Definition DEV_GENESIS_DIFFICULTY_BITS : Z := 0x1f0fffff.
Definition HALVING_INTERVAL : Z := 210000.
Definition INITIAL_REWARD : Z := 5000000000.

(** [calculate_next_difficulty]; [max_target_bits = None] selects
    [GENESIS_DIFFICULTY_BITS].  Python [//] is floor division, as [Z.div] is;
    a zero [target_timespan] would raise in Python, and neither preset of
    the block chain has one. *)
Definition calculate_next_difficulty (block_timestamps : list Z) (current_bits : Z)
    (adjustment_interval : Z) (target_timespan : Z) (max_target_bits : option Z)
  : result Z :=
  if (List.length block_timestamps <? 2)%nat then Raise ValueError
  else
    let time_taken := last block_timestamps 0 - hd 0 block_timestamps in
    let min_timespan := target_timespan / MAX_ADJUSTMENT_FACTOR in
    let max_timespan := target_timespan * MAX_ADJUSTMENT_FACTOR in
    let time_taken :=
      if time_taken <? min_timespan then min_timespan
      else if max_timespan <? time_taken then max_timespan
      else time_taken in
    old_target <- compact_bits_to_target current_bits ;;
    let new_target := (old_target * time_taken) / target_timespan in
    let max_target_bits :=
      match max_target_bits with
      | None => GENESIS_DIFFICULTY_BITS
      | Some b => b
      end in
    max_target <- compact_bits_to_target max_target_bits ;;
    let new_target := if max_target <? new_target then max_target else new_target in
    let new_target := if new_target <? 1 then 1 else new_target in
    target_to_compact_bits new_target.

Definition should_adjust (height : Z) (interval : Z) : bool :=
  if height <=? 0 then false else height mod interval =? 0.

Definition get_block_reward (height : Z) : result Z :=
  if height <? 0 then Raise ValueError
  else
    let halvings := height / HALVING_INTERVAL in
    if 64 <=? halvings then Ok 0
    else Ok (Z.shiftr INITIAL_REWARD halvings).

(* ================================================================== *)
(** ** The UTXO set ([src/core/utxo.py]) *)

Module UTXOEntry.
Record t : Type := mk {
  value : Z;
  pubkey_script : string;
  block_height : Z;
  is_coinbase : bool
}.
End UTXOEntry.

(** [UTXOSet._utxos], keyed by the string ["txid:index"]. *)
Definition UTXOSet : Type := list (string * UTXOEntry.t).

Module UTXO.

Definition empty : UTXOSet := [].

Definition _make_key (txid : string) (index : Z) : string :=
  (txid ++ ":" ++ str_of_int index)%string.

Definition add_utxo (u : UTXOSet) (txid : string) (index : Z)
    (output : TransactionOutput) (height : Z) (is_coinbase : bool) : UTXOSet :=
  Dict.set String.eqb (_make_key txid index)
    (UTXOEntry.mk (value output) (pubkey_script output) height is_coinbase) u.

Definition get_utxo (u : UTXOSet) (txid : string) (index : Z) : option UTXOEntry.t :=
  Dict.get String.eqb (_make_key txid index) u.

Definition has_utxo (u : UTXOSet) (txid : string) (index : Z) : bool :=
  Dict.mem String.eqb (_make_key txid index) u.

(** [remove_utxo] raises [KeyError] when the key is absent. *)
Definition remove_utxo (u : UTXOSet) (txid : string) (index : Z)
  : result (UTXOEntry.t * UTXOSet) :=
  match get_utxo u txid index with
  | None => Raise KeyError
  | Some e => Ok (e, Dict.remove String.eqb (_make_key txid index) u)
  end.

(** [try: remove_utxo(...) except Exception: pass]. *)
Definition discard_utxo (u : UTXOSet) (txid : string) (index : Z) : UTXOSet :=
  match remove_utxo u txid index with
  | Ok (_, u') => u'
  | Raise _ => u
  end.

(** [copy] is a deep copy; values are immutable here. *)
Definition copy (u : UTXOSet) : UTXOSet := u.

Definition size (u : UTXOSet) : Z := Z.of_nat (List.length u).

Definition get_balance (u : UTXOSet) (address : string) : Z :=
  fold_left Z.add
    (map (fun kv => UTXOEntry.value (snd kv))
         (filter (fun kv => String.eqb (UTXOEntry.pubkey_script (snd kv)) address) u))
    0.

End UTXO.

(** [sum(out.value for out in outputs)]. *)
Definition sum_values (outs : list TransactionOutput) : Z :=
  fold_left Z.add (map value outs) 0.

(** [enumerate(l)]. *)
Fixpoint enumerate_from {A : Type} (i : Z) (l : list A) : list (Z * A) :=
  match l with
  | [] => []
  | x :: t => (i, x) :: enumerate_from (i + 1) t
  end.

Definition enumerate {A : Type} (l : list A) : list (Z * A) := enumerate_from 0 l.

(* ================================================================== *)
(** ** The mempool ([src/core/mempool.py])

    The fee rate is a Python [float]; it only orders [_fee_index].  It is
    kept here as the exact quotient, so two rates that round to the same
    float may be ordered where Python sees a tie. *)

Record Mempool : Type := mkMempool {
  mp_transactions : list (string * Transaction);
  _fee_index : list (Q * string)
}.

Module Pool.

Definition empty : Mempool := {| mp_transactions := []; _fee_index := [] |}.

(** The outpoints that [is_double_spend] collects from one transaction:
    those of the inputs that are not coinbase inputs. *)
Definition spent_by (tx : Transaction) : list (string * Z) :=
  map (fun inp => (previous_txid inp, previous_output_index inp))
      (filter (fun inp => negb (TxIn.is_coinbase inp)) (inputs tx)).

Definition outpoint_eqb (a b : string * Z) : bool :=
  String.eqb (fst a) (fst b) && (snd a =? snd b).

Definition is_double_spend (m : Mempool) (tx : Transaction) : bool :=
  let spent_outputs := flat_map spent_by (Dict.values (mp_transactions m)) in
  existsb (fun o => existsb (outpoint_eqb o) spent_outputs) (spent_by tx).

(** The input total of [_calculate_fee_rate]; [None] stands for the early
    [return 0.0]. *)
Fixpoint fee_inputs (u : UTXOSet) (ins : list TransactionInput) (total : Z) : option Z :=
  match ins with
  | [] => Some total
  | inp :: t =>
      if TxIn.is_coinbase inp then None
      else match UTXO.get_utxo u (previous_txid inp) (previous_output_index inp) with
           | None => None
           | Some e => fee_inputs u t (total + UTXOEntry.value e)
           end
  end.

Definition _calculate_fee_rate (tx : Transaction) (utxo_set : option UTXOSet) : Q :=
  match utxo_set with
  | None => 0%Q
  | Some u =>
      match fee_inputs u (inputs tx) 0 with
      | None => 0%Q
      | Some total_input_value =>
          let fee := total_input_value - sum_values (outputs tx) in
          if fee <? 0 then 0%Q
          else match Tx.serialize tx with
               | Raise _ => 0%Q
               | Ok bytes =>
                   match List.length bytes with
                   | O => 0%Q
                   | S n => Qmake fee (Pos.of_succ_nat n)
                   end
               end
      end
  end.

(** [list.sort(key=..., reverse=True)] is stable: an entry goes behind
    the entries whose rate is at least its own. *)
Fixpoint insert_desc (x : Q * string) (l : list (Q * string)) : list (Q * string) :=
  match l with
  | [] => [x]
  | y :: t => if Qle_bool (fst x) (fst y) then y :: insert_desc x t else x :: y :: t
  end.

Definition sort_desc (l : list (Q * string)) : list (Q * string) :=
  fold_left (fun acc x => insert_desc x acc) l [].

Definition add_transaction (m : Mempool) (tx : Transaction) (utxo_set : option UTXOSet)
  : result (bool * Mempool) :=
  txid <- Tx.txid tx ;;
  if Dict.mem String.eqb txid (mp_transactions m) then Ok (false, m)
  else if Tx.is_coinbase tx then Ok (false, m)
  else if is_double_spend m tx then Ok (false, m)
  else
    let fee_rate := _calculate_fee_rate tx utxo_set in
    Ok (true,
        {| mp_transactions := Dict.set String.eqb txid tx (mp_transactions m);
           _fee_index := sort_desc (_fee_index m ++ [(fee_rate, txid)]) |}).

Definition remove_transaction (m : Mempool) (txid : string)
  : option Transaction * Mempool :=
  match Dict.get String.eqb txid (mp_transactions m) with
  | None => (None, m)
  | Some tx =>
      (Some tx,
       {| mp_transactions := Dict.remove String.eqb txid (mp_transactions m);
          _fee_index := filter (fun e => negb (String.eqb (snd e) txid)) (_fee_index m) |})
  end.

Definition get_transaction (m : Mempool) (txid : string) : option Transaction :=
  Dict.get String.eqb txid (mp_transactions m).

Definition get_transactions (m : Mempool) (limit : option nat) : list Transaction :=
  let ordered_txids := map snd (_fee_index m) in
  let ordered_txids :=
    match limit with
    | None => ordered_txids
    | Some n => firstn n ordered_txids
    end in
  flat_map (fun txid => match Dict.get String.eqb txid (mp_transactions m) with
                        | Some tx => [tx]
                        | None => []
                        end) ordered_txids.

(** [clear_confirmed]: the pool as the loop leaves it, and the count or
    the exception of a transaction that has no txid. *)
Fixpoint clear_confirmed_loop (m : Mempool) (txs : list Transaction) (removed : Z)
  : result Z * Mempool :=
  match txs with
  | [] => (Ok removed, m)
  | tx :: t =>
      if Tx.is_coinbase tx then clear_confirmed_loop m t removed
      else match Tx.txid tx with
           | Raise e => (Raise e, m)
           | Ok txid =>
               match remove_transaction m txid with
               | (Some _, m') => clear_confirmed_loop m' t (removed + 1)
               | (None, m') => clear_confirmed_loop m' t removed
               end
           end
  end.

Definition clear_confirmed (m : Mempool) (b : Block) : result Z * Mempool :=
  clear_confirmed_loop m (transactions b) 0.

Definition size (m : Mempool) : Z := Z.of_nat (List.length (mp_transactions m)).

End Pool.

(* ================================================================== *)
(** ** Consensus rules ([src/consensus/rules.py]) *)

Definition MAX_BLOCK_SIZE : Z := 1000000.
Definition COINBASE_MATURITY : Z := 100.
Definition MAX_MONEY : Z := 21000000 * 100000000.
Definition MEDIAN_TIME_PAST_BLOCKS : nat := 11.
Definition MAX_FUTURE_BLOCK_TIME : Z := 2 * 60 * 60.

(** Python [l[i]]: a negative index counts from the end. *)
Definition py_index {A : Type} (l : list A) (i : Z) : result A :=
  let n := Z.of_nat (List.length l) in
  let j := if i <? 0 then i + n else i in
  if (j <? 0) || (n <=? j) then Raise IndexError
  else match nth_error l (Z.to_nat j) with
       | Some x => Ok x
       | None => Raise IndexError
       end.

(** Python [sorted] on integers. *)
Fixpoint insert_sorted (x : Z) (l : list Z) : list Z :=
  match l with
  | [] => [x]
  | y :: t => if x <? y then x :: y :: t else y :: insert_sorted x t
  end.

Definition sorted (l : list Z) : list Z :=
  fold_left (fun acc x => insert_sorted x acc) l [].

Module Rules.

Definition validate_block_size (b : Block) : result bool :=
  block_size <- Blk.get_size b ;;
  if MAX_BLOCK_SIZE <? block_size then Raise ValueError else Ok true.

(** [validate_coinbase]: the loop over [transactions[1:]] computes
    [tx_output_total] and never adds to [total_fees], which stays 0. *)
Definition validate_coinbase (b : Block) (expected_height : Z) : result bool :=
  match transactions b with
  | [] => Raise ValueError
  | coinbase_tx :: rest =>
      if negb (Tx.is_coinbase coinbase_tx) then Raise ValueError
      else if existsb Tx.is_coinbase rest then Raise ValueError
      else
        let coinbase_output_total := sum_values (outputs coinbase_tx) in
        expected_reward <- get_block_reward expected_height ;;
        let total_fees := 0 in
        let max_allowed := expected_reward + total_fees in
        if max_allowed <? coinbase_output_total then Raise ValueError
        else Ok true
  end.

(** [validate_coinbase_maturity(txid, output_index, utxo_entry, current_height)]. *)
Definition validate_coinbase_maturity (txid : string) (output_index : Z)
    (utxo_entry : UTXOEntry.t) (current_height : Z) : result bool :=
  if negb (UTXOEntry.is_coinbase utxo_entry) then Ok true
  else
    let confirmations := current_height - UTXOEntry.block_height utxo_entry in
    if confirmations <? COINBASE_MATURITY then Raise ValueError
    else Ok true.

Definition calculate_median_time (timestamps : list Z) : result Z :=
  match timestamps with
  | [] => Raise ValueError
  | _ =>
      let sorted_timestamps := sorted timestamps in
      let n := List.length sorted_timestamps in
      let mid := (n / 2)%nat in
      if (n mod 2 =? 1)%nat then Ok (nth mid sorted_timestamps 0)
      else Ok (nth (mid - 1) sorted_timestamps 0)
  end.

Definition validate_timestamp (block_timestamp : Z) (previous_timestamps : list Z)
    (current_time : Z) : result bool :=
  _ <-
    (if (MEDIAN_TIME_PAST_BLOCKS <=? List.length previous_timestamps)%nat then
       let recent_timestamps :=
         skipn (List.length previous_timestamps - MEDIAN_TIME_PAST_BLOCKS) previous_timestamps in
       median_time <- calculate_median_time recent_timestamps ;;
       if block_timestamp <=? median_time then Raise ValueError else Ok tt
     else Ok tt) ;;
  let max_allowed_time := current_time + MAX_FUTURE_BLOCK_TIME in
  if max_allowed_time <? block_timestamp then Raise ValueError else Ok true.

(** [validate_no_duplicate_txids]: [seen] is the set of txids so far. *)
Fixpoint duplicate_txids (txs : list Transaction) (seen : list string)
  : result (list string) :=
  match txs with
  | [] => Ok []
  | tx :: t =>
      txid <- Tx.txid tx ;;
      rest <- duplicate_txids t (txid :: seen) ;;
      if existsb (String.eqb txid) seen then Ok (txid :: rest) else Ok rest
  end.

Definition validate_no_duplicate_txids (txs : list Transaction) : result bool :=
  duplicates <- duplicate_txids txs [] ;;
  match duplicates with
  | [] => Ok true
  | _ => Raise ValueError
  end.

End Rules.

(** Python [l.remove(x)]: the first occurrence goes. *)
Fixpoint remove_first (x : string) (l : list string) : list string :=
  match l with
  | [] => []
  | y :: t => if String.eqb x y then t else y :: remove_first x t
  end.

(* ================================================================== *)
(** ** The block chain state ([src/core/blockchain.py]) *)

Record Blockchain : Type := mkBlockchain {
  blocks : list (string * Block);
  block_height_index : list (Z * list string);
  chain_tips : list string;
  best_chain_tip : option string;
  utxo_set : UTXOSet;
  mempool : Mempool;
  development_mode : bool;
  _difficulty_bits : Z;
  _adjustment_interval : Z;
  _target_block_time : Z;
  _target_timespan : Z
}.

Definition set_difficulty_bits (bc : Blockchain) (bits : Z) : Blockchain :=
  {| blocks := blocks bc; block_height_index := block_height_index bc;
     chain_tips := chain_tips bc; best_chain_tip := best_chain_tip bc;
     utxo_set := utxo_set bc; mempool := mempool bc;
     development_mode := development_mode bc; _difficulty_bits := bits;
     _adjustment_interval := _adjustment_interval bc;
     _target_block_time := _target_block_time bc;
     _target_timespan := _target_timespan bc |}.

Definition set_utxo_set (bc : Blockchain) (u : UTXOSet) : Blockchain :=
  {| blocks := blocks bc; block_height_index := block_height_index bc;
     chain_tips := chain_tips bc; best_chain_tip := best_chain_tip bc;
     utxo_set := u; mempool := mempool bc;
     development_mode := development_mode bc; _difficulty_bits := _difficulty_bits bc;
     _adjustment_interval := _adjustment_interval bc;
     _target_block_time := _target_block_time bc;
     _target_timespan := _target_timespan bc |}.

Definition set_mempool (bc : Blockchain) (m : Mempool) : Blockchain :=
  {| blocks := blocks bc; block_height_index := block_height_index bc;
     chain_tips := chain_tips bc; best_chain_tip := best_chain_tip bc;
     utxo_set := utxo_set bc; mempool := m;
     development_mode := development_mode bc; _difficulty_bits := _difficulty_bits bc;
     _adjustment_interval := _adjustment_interval bc;
     _target_block_time := _target_block_time bc;
     _target_timespan := _target_timespan bc |}.

Definition set_best_chain_tip (bc : Blockchain) (tip : option string) : Blockchain :=
  {| blocks := blocks bc; block_height_index := block_height_index bc;
     chain_tips := chain_tips bc; best_chain_tip := tip;
     utxo_set := utxo_set bc; mempool := mempool bc;
     development_mode := development_mode bc; _difficulty_bits := _difficulty_bits bc;
     _adjustment_interval := _adjustment_interval bc;
     _target_block_time := _target_block_time bc;
     _target_timespan := _target_timespan bc |}.

(** The three index updates of [add_block] (lines 242-255). *)
Definition store_block (bc : Blockchain) (block_hash : string) (b : Block)
    (height : Z) (prev_hash : string) : Blockchain :=
  let at_height :=
    match Dict.get Z.eqb height (block_height_index bc) with
    | Some l => l
    | None => []
    end in
  let tips :=
    if existsb (String.eqb prev_hash) (chain_tips bc)
    then remove_first prev_hash (chain_tips bc)
    else chain_tips bc in
  {| blocks := Dict.set String.eqb block_hash b (blocks bc);
     block_height_index := Dict.set Z.eqb height (at_height ++ [block_hash]) (block_height_index bc);
     chain_tips := tips ++ [block_hash];
     best_chain_tip := best_chain_tip bc;
     utxo_set := utxo_set bc; mempool := mempool bc;
     development_mode := development_mode bc; _difficulty_bits := _difficulty_bits bc;
     _adjustment_interval := _adjustment_interval bc;
     _target_block_time := _target_block_time bc;
     _target_timespan := _target_timespan bc |}.

Definition set_height (b : Block) (h : Z) : Block :=
  {| header := header b; transactions := transactions b; _height := Some h |}.

(** A Python string is true when it is not empty. *)
Definition str_true (s : string) : bool :=
  match s with EmptyString => false | _ => true end.

Module Chain.

Definition get_block (bc : Blockchain) (block_hash : string) : option Block :=
  Dict.get String.eqb block_hash (blocks bc).

Definition get_chain_tip (bc : Blockchain) : option Block :=
  match best_chain_tip bc with
  | None => None
  | Some h => get_block bc h
  end.

(** The loop of [get_chain]; [chain] is built tip last.  The set
    [visited] only holds keys of [blocks], so one more turn than there
    are blocks always reaches an exit of the loop. *)
Fixpoint get_chain_loop (fuel : nat) (bc : Blockchain) (current_hash : string)
    (visited : list string) (chain : list Block) : list Block :=
  match fuel with
  | O => chain
  | S n =>
      if negb (str_true current_hash) || String.eqb current_hash zero_hash then chain
      else if existsb (String.eqb current_hash) visited then chain
      else match get_block bc current_hash with
           | None => chain
           | Some blk =>
               get_chain_loop n bc (previous_block_hash (header blk))
                 (current_hash :: visited) (blk :: chain)
           end
  end.

Definition get_chain (bc : Blockchain) (tip_hash : option string) : list Block :=
  let tip_hash := match tip_hash with None => best_chain_tip bc | t => t end in
  match tip_hash with
  | None => []
  | Some h => get_chain_loop (S (List.length (blocks bc))) bc h [] []
  end.

Definition get_chain_height (bc : Blockchain) : Z :=
  match get_chain_tip bc with
  | None => -1
  | Some tip =>
      match _height tip with
      | Some h => h
      | None => Z.of_nat (List.length (get_chain bc None)) - 1
      end
  end.

(** [get_previous_timestamps(block_hash, count)], most recent first. *)
Fixpoint get_previous_timestamps (bc : Blockchain) (current_hash : string)
    (count : nat) : list Z :=
  match count with
  | O => []
  | S n =>
      if negb (str_true current_hash) || String.eqb current_hash zero_hash then []
      else match get_block bc current_hash with
           | None => []
           | Some blk =>
               timestamp (header blk)
                 :: get_previous_timestamps bc (previous_block_hash (header blk)) n
           end
  end.

(** [_get_next_difficulty(height)]: the answer and the state, whose
    [_difficulty_bits] the last assignment of the method changes. *)
Definition _get_next_difficulty (bc : Blockchain) (height : Z)
  : result Z * Blockchain :=
  if height =? 0 then (Ok (_difficulty_bits bc), bc)
  else if negb (should_adjust height (_adjustment_interval bc))
  then (Ok (_difficulty_bits bc), bc)
  else
    let chain := get_chain bc None in
    if (List.length chain <? 2)%nat then (Ok (_difficulty_bits bc), bc)
    else
      let interval_start :=
        Z.max 0 (Z.of_nat (List.length chain) - _adjustment_interval bc) in
      let block_timestamps :=
        map (fun blk => timestamp (header blk)) (skipn (Z.to_nat interval_start) chain) in
      if (List.length block_timestamps <? 2)%nat then (Ok (_difficulty_bits bc), bc)
      else
        match calculate_next_difficulty block_timestamps (_difficulty_bits bc)
                (_adjustment_interval bc) (_target_timespan bc) None with
        | Raise e => (Raise e, bc)
        | Ok new_bits => (Ok new_bits, set_difficulty_bits bc new_bits)
        end.

Definition get_current_difficulty (bc : Blockchain) : result Z * Blockchain :=
  _get_next_difficulty bc (get_chain_height bc + 1).

End Chain.

(* ================================================================== *)
(** ** Validation ([src/consensus/validation.py]) *)

(** White space for [str.split()] (ASCII part). *)
Definition is_py_space (c : ascii) : bool :=
  let n := N_of_ascii c in
  (N.eqb n 32) || ((N.leb 9 n) && (N.leb n 13)) || ((N.leb 28 n) && (N.leb n 31)).

(** [s.split()]: the maximal runs without white space. *)
Fixpoint py_split_acc (s : string) (word : string) : list string :=
  match s with
  | EmptyString => match word with EmptyString => [] | _ => [word] end
  | String c t =>
      if is_py_space c
      then match word with
           | EmptyString => py_split_acc t EmptyString
           | _ => word :: py_split_acc t EmptyString
           end
      else py_split_acc t (word ++ String c EmptyString)%string
  end.

Definition py_split (s : string) : list string := py_split_acc s EmptyString.

Section Validation.

(** The elliptic-curve library behind [PublicKey.from_bytes] and
    [verify_transaction_input] ([src/crypto/keys.py]) is an oracle: from
    the serialized transaction, the signature and the public key bytes to
    the verdict, or to the exception either call raises. *)
Variable verify_transaction_input :
  list byte -> list byte -> list byte -> result bool.

(** [validate_transaction_signature]: the whole body sits in
    [try: ... except Exception: return True]. *)
Definition validate_transaction_signature (tx : Transaction) (input_index : Z)
    (utxo_set : UTXOSet) : bool :=
  match py_index (inputs tx) input_index with
  | Raise _ => true
  | Ok inp =>
      match UTXO.get_utxo utxo_set (previous_txid inp) (previous_output_index inp) with
      | None => false
      | Some _ =>
          let sig_script := signature_script inp in
          if negb (str_true sig_script) then true
          else
            match py_split sig_script with
            | sig_hex :: pubkey_hex :: _ =>
                match bytes_fromhex sig_hex with
                | Raise _ => true
                | Ok signature =>
                    match bytes_fromhex pubkey_hex with
                    | Raise _ => true
                    | Ok pubkey_bytes =>
                        match Tx.serialize tx with
                        | Raise _ => true
                        | Ok tx_data =>
                            match verify_transaction_input tx_data signature pubkey_bytes with
                            | Raise _ => true
                            | Ok verdict => verdict
                            end
                        end
                    end
                end
            | _ => true
            end
      end
  end.

(** The call of [validate_transaction], lines 338-341:
    [validate_coinbase_maturity(txid, index, utxo, current_height,
    maturity=coinbase_maturity)].  The function of [rules.py] has the four
    positional parameters only, so Python raises [TypeError] for the
    unexpected keyword before the body of the function runs. *)
Definition call_validate_coinbase_maturity (txid : string) (output_index : Z)
    (utxo_entry : UTXOEntry.t) (current_height : Z) (maturity : Z) : result bool :=
  Raise TypeError.

(** Step 3 and 4 of [validate_transaction]: the loop over the inputs. *)
Fixpoint check_inputs (ins : list TransactionInput) (utxo_set : UTXOSet)
    (current_height coinbase_maturity : Z) (total_input_value : Z) : result Z :=
  match ins with
  | [] => Ok total_input_value
  | inp :: t =>
      if TxIn.is_coinbase inp then Raise ValidationError
      else
        match UTXO.get_utxo utxo_set (previous_txid inp) (previous_output_index inp) with
        | None => Raise ValidationError
        | Some utxo =>
            mature <- call_validate_coinbase_maturity (previous_txid inp)
                        (previous_output_index inp) utxo current_height coinbase_maturity ;;
            if negb mature then Raise ValidationError
            else check_inputs t utxo_set current_height coinbase_maturity
                   (total_input_value + UTXOEntry.value utxo)
        end
  end.

Definition validate_transaction (tx : Transaction) (utxo_set : UTXOSet)
    (current_height coinbase_maturity : Z) : result bool :=
  if Tx.is_coinbase tx then Raise ValidationError
  else if (List.length (inputs tx) =? 0)%nat then Raise ValidationError
  else if (List.length (outputs tx) =? 0)%nat then Raise ValidationError
  else
    total_input_value <-
      check_inputs (inputs tx) utxo_set current_height coinbase_maturity 0 ;;
    if negb (forallb (fun ix => validate_transaction_signature tx (fst ix) utxo_set)
                     (enumerate (inputs tx)))
    then Raise ValidationError
    else
      let total_output_value := sum_values (outputs tx) in
      if total_input_value <? total_output_value then Raise ValidationError
      else if existsb (fun out => value out <? 0) (outputs tx) then Raise ValidationError
      else Ok true.

(** The updates of the working copy after a transaction passed. *)
Definition spend_inputs (working : UTXOSet) (tx : Transaction) : UTXOSet :=
  fold_left
    (fun w inp =>
       if TxIn.is_coinbase inp then w
       else UTXO.discard_utxo w (previous_txid inp) (previous_output_index inp))
    (inputs tx) working.

Definition add_outputs (working : UTXOSet) (tx : Transaction) (height : Z)
    (is_coinbase : bool) : UTXOSet :=
  match Tx.txid tx with
  | Raise _ => working
  | Ok txid =>
      fold_left
        (fun w io => UTXO.add_utxo w txid (fst io) (snd io) height is_coinbase)
        (enumerate (outputs tx)) working
  end.

Fixpoint validate_block_transactions_loop (txs : list (Z * Transaction))
    (working_utxo : UTXOSet) (block_height coinbase_maturity : Z) : result bool :=
  match txs with
  | [] => Ok true
  | (i, tx) :: t =>
      if (i =? 0) && Tx.is_coinbase tx
      then validate_block_transactions_loop t working_utxo block_height coinbase_maturity
      else
        match validate_transaction tx working_utxo block_height coinbase_maturity with
        | Raise ValidationError =>
            (* the new message formats [tx.txid] *)
            _ <- Tx.txid tx ;; Raise ValidationError
        | Raise e => Raise e
        | Ok _ =>
            let working_utxo := spend_inputs working_utxo tx in
            let working_utxo := add_outputs working_utxo tx block_height false in
            validate_block_transactions_loop t working_utxo block_height coinbase_maturity
        end
  end.

Definition validate_block_transactions (b : Block) (utxo_set : UTXOSet)
    (block_height coinbase_maturity : Z) : result bool :=
  validate_block_transactions_loop (enumerate (transactions b))
    (UTXO.copy utxo_set) block_height coinbase_maturity.

(** The height [validate_block] and [add_block] both compute. *)
Definition expected_height_of (bc : Blockchain) (prev_hash : string) : Z :=
  if String.eqb prev_hash zero_hash then 0
  else
    match Chain.get_block bc prev_hash with
    | Some {| _height := Some h |} => h + 1
    | _ => Chain.get_chain_height bc + 1
    end.

(** Steps 3 to 8 of [validate_block]; they read the state only. *)
Definition validate_block_body (b : Block) (bc : Blockchain) (now : Z)
    (is_genesis : bool) (expected_height : Z) : result unit :=
  computed_merkle <- Blk.calculate_merkle_root b ;;
  if negb (String.eqb computed_merkle (merkle_root (header b)))
  then Raise ValidationError
  else
    ts_ok <-
      (if is_genesis then Ok true
       else Rules.validate_timestamp (timestamp (header b))
              (Chain.get_previous_timestamps bc (previous_block_hash (header b)) 11) now) ;;
    if negb ts_ok then Raise ValidationError
    else
      size_ok <- Rules.validate_block_size b ;;
      if negb size_ok then Raise ValidationError
      else
        cb_ok <- Rules.validate_coinbase b expected_height ;;
        if negb cb_ok then Raise ValidationError
        else
          let coinbase_maturity := 100 in
          _ <-
            (if is_genesis then Ok tt
             else
               match validate_block_transactions b (utxo_set bc) expected_height
                       coinbase_maturity with
               | Raise ValidationError => Raise ValidationError
               | Raise ValueError => Raise ValidationError
               | Raise _ => Ok tt     (* [except Exception]: a warning is logged *)
               | Ok _ => Ok tt
               end) ;;
          dup_ok <- Rules.validate_no_duplicate_txids (transactions b) ;;
          if negb dup_ok then Raise ValidationError else Ok tt.

(** [validate_block(block, blockchain)]: the verdict and the state, which
    step 9 changes through [_get_next_difficulty]. *)
Definition validate_block (b : Block) (bc : Blockchain) (now : Z)
  : result bool * Blockchain :=
  match Header.hash (header b) with
  | Raise e => (Raise e, bc)
  | Ok block_hash =>
  match Header.meets_difficulty_target (header b) with
  | Raise e => (Raise e, bc)
  | Ok false => (Raise ValidationError, bc)
  | Ok true =>
      let prev_hash := previous_block_hash (header b) in
      let is_genesis := String.eqb prev_hash zero_hash in
      if negb is_genesis && negb (Dict.mem String.eqb prev_hash (blocks bc))
      then (Raise ValidationError, bc)
      else
        let expected_height := expected_height_of bc prev_hash in
        match validate_block_body b bc now is_genesis expected_height with
        | Raise e => (Raise e, bc)
        | Ok _ =>
            if is_genesis then (Ok true, bc)
            else
              match Chain._get_next_difficulty bc expected_height with
              | (Raise _, bc') => (Ok true, bc')   (* [except Exception] *)
              | (Ok expected_bits, bc') =>
                  if negb (difficulty_bits (header b) =? expected_bits)
                  then (Raise ValidationError, bc')
                  else (Ok true, bc')
              end
        end
  end
  end.

(* ---------------------------------------------------------------- *)
(** *** Mutating methods of [Blockchain] *)

(** [_apply_block]: one transaction.  The [except] clause of the second
    loop formats [tx.txid] again, so a transaction without a txid lets the
    exception out once it has an output. *)
Definition apply_tx (u : UTXOSet) (height : Z) (tx : Transaction)
  : result unit * UTXOSet :=
  let u := if Tx.is_coinbase tx then u else spend_inputs u tx in
  match outputs tx with
  | [] => (Ok tt, u)
  | _ =>
      match Tx.txid tx with
      | Raise e => (Raise e, u)
      | Ok _ => (Ok tt, add_outputs u tx height (Tx.is_coinbase tx))
      end
  end.

Fixpoint apply_txs (u : UTXOSet) (height : Z) (txs : list Transaction)
  : result unit * UTXOSet :=
  match txs with
  | [] => (Ok tt, u)
  | tx :: t =>
      match apply_tx u height tx with
      | (Ok _, u') => apply_txs u' height t
      | (Raise e, u') => (Raise e, u')
      end
  end.

Definition _apply_block (bc : Blockchain) (b : Block) : result unit * Blockchain :=
  let height := match _height b with Some h => h | None => 0 end in
  let '(r, u) := apply_txs (utxo_set bc) height (transactions b) in
  (r, set_utxo_set bc u).

(** [for tx in block.transactions: if tx.txid == txid: ...]. *)
Fixpoint find_in_txs (txs : list Transaction) (txid : string)
  : result (option Transaction) :=
  match txs with
  | [] => Ok None
  | tx :: t =>
      id <- Tx.txid tx ;;
      if String.eqb id txid then Ok (Some tx) else find_in_txs t txid
  end.

Fixpoint find_in_blocks (bs : list Block) (txid : string)
  : result (option Transaction) :=
  match bs with
  | [] => Ok None
  | b :: t =>
      r <- find_in_txs (transactions b) txid ;;
      match r with
      | Some tx => Ok (Some tx)
      | None => find_in_blocks t txid
      end
  end.

Definition _find_transaction (bc : Blockchain) (txid : string)
  : result (option Transaction) :=
  find_in_blocks (Dict.values (blocks bc)) txid.

(** The height loop of [_unwind_block] (lines 619-624): every block is
    visited, [break] only leaves the inner loop, the last match wins. *)
Fixpoint prev_height_loop (bs : list Block) (txid : string) (prev_block_height : Z)
  : result Z :=
  match bs with
  | [] => Ok prev_block_height
  | b :: t =>
      r <- find_in_txs (transactions b) txid ;;
      match r with
      | Some _ =>
          prev_height_loop t txid (match _height b with Some h => h | None => 0 end)
      | None => prev_height_loop t txid prev_block_height
      end
  end.

(** Re-adding what one input spent. *)
Definition unwind_input (bc : Blockchain) (u : UTXOSet) (inp : TransactionInput)
  : result UTXOSet :=
  if TxIn.is_coinbase inp then Ok u
  else
    prev_tx <- _find_transaction bc (previous_txid inp) ;;
    match prev_tx with
    | None => Ok u
    | Some ptx =>
        if previous_output_index inp <? Z.of_nat (List.length (outputs ptx)) then
          output <- py_index (outputs ptx) (previous_output_index inp) ;;
          prev_block_height <-
            prev_height_loop (Dict.values (blocks bc)) (previous_txid inp) 0 ;;
          Ok (UTXO.add_utxo u (previous_txid inp) (previous_output_index inp)
                output prev_block_height (Tx.is_coinbase ptx))
        else Ok u
    end.

Fixpoint unwind_inputs (bc : Blockchain) (u : UTXOSet) (ins : list TransactionInput)
  : result unit * UTXOSet :=
  match ins with
  | [] => (Ok tt, u)
  | inp :: t =>
      match unwind_input bc u inp with
      | Raise e => (Raise e, u)
      | Ok u' => unwind_inputs bc u' t
      end
  end.

(** Removing the outputs of a transaction:
    [try: remove_utxo(tx.txid, idx) except Exception: pass]. *)
Definition remove_outputs (u : UTXOSet) (tx : Transaction) : UTXOSet :=
  match Tx.txid tx with
  | Raise _ => u
  | Ok txid =>
      fold_left (fun w io => UTXO.discard_utxo w txid (fst io))
                (enumerate (outputs tx)) u
  end.

Definition unwind_tx (bc : Blockchain) (u : UTXOSet) (tx : Transaction)
  : result unit * UTXOSet :=
  let u := remove_outputs u tx in
  if Tx.is_coinbase tx then (Ok tt, u) else unwind_inputs bc u (inputs tx).

Fixpoint unwind_txs (bc : Blockchain) (u : UTXOSet) (txs : list Transaction)
  : result unit * UTXOSet :=
  match txs with
  | [] => (Ok tt, u)
  | tx :: t =>
      match unwind_tx bc u tx with
      | (Ok _, u') => unwind_txs bc u' t
      | (Raise e, u') => (Raise e, u')
      end
  end.

Definition _unwind_block (bc : Blockchain) (b : Block) : result unit * Blockchain :=
  let '(r, u) := unwind_txs bc (utxo_set bc) (rev (transactions b)) in
  (r, set_utxo_set bc u).

(** [_detect_fork]. *)
Definition _detect_fork (bc : Blockchain) (b : Block) : result bool :=
  let prev_hash := previous_block_hash (header b) in
  if String.eqb prev_hash zero_hash then Ok false
  else
    block_hash <- Header.hash (header b) ;;
    Ok (existsb
          (fun kv => negb (String.eqb (fst kv) block_hash)
                     && String.eqb (previous_block_hash (header (snd kv))) prev_hash)
          (blocks bc)).

(** The first loop of [_find_common_ancestor]: the hashes on the chain of
    [hash_a].  The loop has no guard against a cycle of parent links; it
    stops within one turn more than there are blocks, or never. *)
Fixpoint chain_hashes (fuel : nat) (bc : Blockchain) (current : string)
  : result (list string) :=
  match fuel with
  | O => Raise Diverges
  | S n =>
      if negb (str_true current) || String.eqb current zero_hash then Ok []
      else
        match Chain.get_block bc current with
        | None => Ok [current]
        | Some blk =>
            rest <- chain_hashes n bc (previous_block_hash (header blk)) ;;
            Ok (current :: rest)
        end
  end.

(** The second loop: back from [hash_b] to the first hash that is on the
    chain of [hash_a]. *)
Fixpoint first_common (fuel : nat) (bc : Blockchain) (chain_a_hashes : list string)
    (current : string) : result (option string) :=
  match fuel with
  | O => Raise Diverges
  | S n =>
      if negb (str_true current) || String.eqb current zero_hash then Ok None
      else if existsb (String.eqb current) chain_a_hashes then Ok (Some current)
      else
        match Chain.get_block bc current with
        | None => Ok None
        | Some blk => first_common n bc chain_a_hashes (previous_block_hash (header blk))
        end
  end.

Definition _find_common_ancestor (bc : Blockchain) (hash_a hash_b : string)
  : result (option string) :=
  let fuel := S (S (List.length (blocks bc))) in
  chain_a_hashes <- chain_hashes fuel bc hash_a ;;
  first_common fuel bc chain_a_hashes hash_b.

(** The loops of steps 2 and 3 of [_reorganize_chain]: the blocks from
    [current] back to the ancestor, newest first; [None] is the early
    [return False] for a missing block. *)
Fixpoint collect_branch (fuel : nat) (bc : Blockchain) (current ancestor : string)
  : result (option (list Block)) :=
  match fuel with
  | O => Raise Diverges
  | S n =>
      if String.eqb current ancestor then Ok (Some [])
      else
        match Chain.get_block bc current with
        | None => Ok None
        | Some blk =>
            rest <- collect_branch n bc (previous_block_hash (header blk)) ancestor ;;
            match rest with
            | None => Ok None
            | Some l => Ok (Some (blk :: l))
            end
        end
  end.

(** Step 4, the inner loop: the transactions of an unwound block go back
    to the mempool. *)
Fixpoint requeue_txs (bc : Blockchain) (txs : list Transaction)
  : result unit * Blockchain :=
  match txs with
  | [] => (Ok tt, bc)
  | tx :: t =>
      if Tx.is_coinbase tx then requeue_txs bc t
      else
        match Pool.add_transaction (mempool bc) tx (Some (utxo_set bc)) with
        | Raise e => (Raise e, bc)
        | Ok (_, m) => requeue_txs (set_mempool bc m) t
        end
  end.

Fixpoint unwind_blocks (bc : Blockchain) (bs : list Block) : result unit * Blockchain :=
  match bs with
  | [] => (Ok tt, bc)
  | blk :: t =>
      match _unwind_block bc blk with
      | (Raise e, bc') => (Raise e, bc')
      | (Ok _, bc') =>
          match requeue_txs bc' (transactions blk) with
          | (Raise e, bc'') => (Raise e, bc'')
          | (Ok _, bc'') => unwind_blocks bc'' t
          end
      end
  end.

(** [self._apply_block(blk); self.mempool.clear_confirmed(blk)]. *)
Definition connect_block (bc : Blockchain) (blk : Block) : result unit * Blockchain :=
  match _apply_block bc blk with
  | (Raise e, bc') => (Raise e, bc')
  | (Ok _, bc') =>
      match Pool.clear_confirmed (mempool bc') blk with
      | (Raise e, m) => (Raise e, set_mempool bc' m)
      | (Ok _, m) => (Ok tt, set_mempool bc' m)
      end
  end.

Fixpoint apply_blocks (bc : Blockchain) (bs : list Block) : result unit * Blockchain :=
  match bs with
  | [] => (Ok tt, bc)
  | blk :: t =>
      match connect_block bc blk with
      | (Raise e, bc') => (Raise e, bc')
      | (Ok _, bc') => apply_blocks bc' t
      end
  end.

(** [_reorganize_chain(new_tip_hash)]. *)
Definition _reorganize_chain (bc : Blockchain) (new_tip_hash : string)
  : result bool * Blockchain :=
  match best_chain_tip bc with
  | None => (Ok true, set_best_chain_tip bc (Some new_tip_hash))
  | Some old_tip_hash =>
      let fuel := S (S (List.length (blocks bc))) in
      match _find_common_ancestor bc old_tip_hash new_tip_hash with
      | Raise e => (Raise e, bc)
      | Ok None => (Ok false, bc)
      | Ok (Some common_ancestor_hash) =>
      match collect_branch fuel bc old_tip_hash common_ancestor_hash with
      | Raise e => (Raise e, bc)
      | Ok None => (Ok false, bc)
      | Ok (Some blocks_to_unwind) =>
      match collect_branch fuel bc new_tip_hash common_ancestor_hash with
      | Raise e => (Raise e, bc)
      | Ok None => (Ok false, bc)
      | Ok (Some new_branch) =>
          let blocks_to_apply := rev new_branch in
          match unwind_blocks bc blocks_to_unwind with
          | (Raise e, bc1) => (Raise e, bc1)
          | (Ok _, bc1) =>
              match apply_blocks bc1 blocks_to_apply with
              | (Raise e, bc2) => (Raise e, bc2)
              | (Ok _, bc2) => (Ok true, set_best_chain_tip bc2 (Some new_tip_hash))
              end
          end
      end
      end
      end
  end.

(** The branch of [add_block] that extends the best chain:
    [best_chain_tip = block_hash; _apply_block(block); clear_confirmed(block)]. *)
Definition extend_best_chain (bc : Blockchain) (block_hash : string) (b : Block)
  : result bool * Blockchain :=
  match connect_block (set_best_chain_tip bc (Some block_hash)) b with
  | (Raise e, bc') => (Raise e, bc')
  | (Ok _, bc') => (Ok true, bc')
  end.

(** [add_block(block)]. *)
Definition add_block (bc : Blockchain) (b : Block) (now : Z)
  : result bool * Blockchain :=
  match Header.hash (header b) with
  | Raise e => (Raise e, bc)
  | Ok block_hash =>
      if Dict.mem String.eqb block_hash (blocks bc) then (Ok false, bc)
      else
        match validate_block b bc now with
        | (Raise _, bc1) => (Ok false, bc1)
        | (Ok _, bc1) =>
            let prev_hash := previous_block_hash (header b) in
            let height := expected_height_of bc1 prev_hash in
            let b := set_height b height in
            let bc2 := store_block bc1 block_hash b height prev_hash in
            match _detect_fork bc2 b with
            | Raise e => (Raise e, bc2)
            | Ok is_fork =>
                match best_chain_tip bc2 with
                | None => extend_best_chain bc2 block_hash b
                | Some tip =>
                    if String.eqb prev_hash tip then extend_best_chain bc2 block_hash b
                    else if is_fork then
                      let new_chain_height := height in
                      let best_chain_height := Chain.get_chain_height bc2 in
                      if best_chain_height <? new_chain_height then
                        match _reorganize_chain bc2 block_hash with
                        | (Raise e, bc3) => (Raise e, bc3)
                        | (Ok _, bc3) => (Ok true, bc3)
                        end
                      else (Ok true, bc2)
                    else extend_best_chain bc2 block_hash b
                end
            end
        end
  end.

(** [Blockchain.__init__] and [_create_genesis_block]. *)
Definition empty_blockchain (development_mode : bool) : Blockchain :=
  let bits := if development_mode then DEV_GENESIS_DIFFICULTY_BITS
              else GENESIS_DIFFICULTY_BITS in
  let interval := if development_mode then DEV_DIFFICULTY_ADJUSTMENT_INTERVAL
                  else DIFFICULTY_ADJUSTMENT_INTERVAL in
  let block_time := if development_mode then DEV_TARGET_BLOCK_TIME
                    else TARGET_BLOCK_TIME in
  {| blocks := []; block_height_index := []; chain_tips := [];
     best_chain_tip := None; utxo_set := UTXO.empty; mempool := Pool.empty;
     development_mode := development_mode; _difficulty_bits := bits;
     _adjustment_interval := interval; _target_block_time := block_time;
     _target_timespan := interval * block_time |}.

Definition genesis_timestamp : Z := 1231006505.

Definition genesis_block (bits : Z) : result Block :=
  reward <- get_block_reward 0 ;;
  coinbase_tx <-
    Tx.create_coinbase 0 "0000000000000000000000000000000000000000" reward 0 ;;
  coinbase_txid <- Tx.txid coinbase_tx ;;
  root <- compute_merkle_root [coinbase_txid] ;;
  Ok {| header := {| version := 1; previous_block_hash := zero_hash;
                     merkle_root := root; timestamp := genesis_timestamp;
                     difficulty_bits := bits; nonce := 0 |};
        transactions := [coinbase_tx];
        _height := Some 0 |}.

Definition _create_genesis_block (bc : Blockchain) : result Blockchain :=
  b <- genesis_block (_difficulty_bits bc) ;;
  genesis_hash <- Header.hash (header b) ;;
  let bc1 :=
    {| blocks := Dict.set String.eqb genesis_hash b (blocks bc);
       block_height_index := Dict.set Z.eqb 0 [genesis_hash] (block_height_index bc);
       chain_tips := [genesis_hash];
       best_chain_tip := Some genesis_hash;
       utxo_set := utxo_set bc; mempool := mempool bc;
       development_mode := development_mode bc;
       _difficulty_bits := _difficulty_bits bc;
       _adjustment_interval := _adjustment_interval bc;
       _target_block_time := _target_block_time bc;
       _target_timespan := _target_timespan bc |} in
  match _apply_block bc1 b with
  | (Raise e, _) => Raise e
  | (Ok _, bc2) => Ok bc2
  end.

Definition new_blockchain (development_mode : bool) : result Blockchain :=
  _create_genesis_block (empty_blockchain development_mode).

End Validation.
(* ================================================================== *)
(** ** Block templates ([src/mining/miner.py]) *)

(** [create_block_template]; the header takes its time stamp from the
    clock, here [now].  The Merkle root of the header is a place holder
    until the transactions are in place. *)
Definition create_block_template (previous_block_hash : string) (height : Z)
    (difficulty_bits : Z) (txs : list Transaction) (coinbase_address : string)
    (reward_amount : Z) (extra_nonce : Z) (now : Z) : result Block :=
  coinbase_tx <- Tx.create_coinbase height coinbase_address reward_amount extra_nonce ;;
  let all_transactions := coinbase_tx :: txs in
  let hd0 := {| version := 1; previous_block_hash := previous_block_hash;
                merkle_root := str_repeat "0"%char 64; timestamp := now;
                difficulty_bits := difficulty_bits; nonce := 0 |} in
  let block := {| header := hd0; transactions := all_transactions;
                  _height := Some height |} in
  root <- Blk.calculate_merkle_root block ;;
  Ok {| header := {| version := 1; previous_block_hash := previous_block_hash;
                     merkle_root := root; timestamp := now;
                     difficulty_bits := difficulty_bits; nonce := 0 |};
        transactions := all_transactions;
        _height := Some height |}.

(** What [Miner.mine_block] leaves behind: the block with the nonce found. *)
Definition with_nonce (b : Block) (n : Z) : Block :=
  {| header := {| version := version (header b);
                  previous_block_hash := previous_block_hash (header b);
                  merkle_root := merkle_root (header b);
                  timestamp := timestamp (header b);
                  difficulty_bits := difficulty_bits (header b);
                  nonce := n |};
     transactions := transactions b;
     _height := _height b |}.

(* ================================================================== *)
(** ** Concrete chains

    The blocks below are assembled as [create_block_template] does, in
    development mode, and carry a nonce that meets their target.  They are
    the inputs of the evaluations in the second part of the file. *)

(** No signature verifies: the evaluations never rely on the oracle. *)
Definition no_crypto : list byte -> list byte -> list byte -> result bool :=
  fun _ _ _ => Ok false.

Definition miner_a : string := "1111111111111111111111111111111111111111".
Definition miner_b : string := "2222222222222222222222222222222222222222".

(** The wall clock of the node while the blocks arrive. *)
Definition clock : Z := genesis_timestamp + 1000.

Definition no_block : Block :=
  {| header := {| version := 0; previous_block_hash := EmptyString;
                  merkle_root := EmptyString; timestamp := 0;
                  difficulty_bits := 0; nonce := 0 |};
     transactions := []; _height := None |}.

(** A template paying the full reward of height 0 to 209999, mined. *)
Definition mined (prev : string) (height bits : Z) (txs : list Transaction)
    (address : string) (time : Z) (extra_nonce : Z) (found_nonce : Z) : Block :=
  match create_block_template prev height bits txs address 5000000000 extra_nonce time with
  | Ok b => with_nonce b found_nonce
  | Raise _ => no_block
  end.

(** The chain a fresh development node starts from. *)
Definition dev_genesis_chain : Blockchain :=
  match new_blockchain true with
  | Ok bc => bc
  | Raise _ => empty_blockchain true
  end.

(** [add_block] called on each block in turn. *)
Fixpoint add_blocks (bc : Blockchain) (bs : list Block)
  : list (result bool) * Blockchain :=
  match bs with
  | [] => ([], bc)
  | b :: t =>
      let '(r, bc1) := add_block no_crypto bc b clock in
      let '(rs, bc2) := add_blocks bc1 t in
      (r :: rs, bc2)
  end.

(** Nine blocks on top of the genesis block, one second apart. *)
Definition blk_1 : Block :=
  mined "e2d4906b0a8c7ce4dfdb0ad9433c33898ffe9b4666ab17fdd394fe097ec41630"
        1 0x1f0fffff [] miner_a 1231006506 0 1949.

Definition blk_2 : Block :=
  mined "0009ada30d26d7b2c896c0a576eb87908faebc44e11238b3afd5c22cc860b7eb"
        2 0x1f0fffff [] miner_a 1231006507 0 265.

Definition blk_3 : Block :=
  mined "00096ad498e0a14a911862b63ad633e2595989b3c3a88a852ce6af6ac20ac390"
        3 0x1f0fffff [] miner_a 1231006508 0 718.

Definition blk_4 : Block :=
  mined "000ba190f20e2fc49154b9cb0ee654ff672c4be1d1adbf79a0b6752739ccb15a"
        4 0x1f0fffff [] miner_a 1231006509 0 837.

Definition blk_5 : Block :=
  mined "000743607e52c60352e8e39ffd43b9a5f333aaa4bd3cbe6667405123d77587d9"
        5 0x1f0fffff [] miner_a 1231006510 0 12147.

Definition blk_6 : Block :=
  mined "0002783bb85eaf3126ea14cb20ddafbe24c4af8838ab07bc12990b60ec3a6731"
        6 0x1f0fffff [] miner_a 1231006511 0 507.

Definition blk_7 : Block :=
  mined "0002f7e6c52a91019579c2dea753d302ee14fbd98168f5b4ce3f839a64ac901f"
        7 0x1f0fffff [] miner_a 1231006512 0 1230.

Definition blk_8 : Block :=
  mined "0004463d7b184885b9a05ddda0ca6a2c6446b60c18643059b83270b404f5f454"
        8 0x1f0fffff [] miner_a 1231006513 0 72.

Definition blk_9 : Block :=
  mined "000cdaa772aace754c419d9ab31c205ce515a3a1b0b31a0660a8321d224753e5"
        9 0x1f0fffff [] miner_a 1231006514 0 6979.

Definition main_chain : list Block :=
  [blk_1; blk_2; blk_3; blk_4; blk_5; blk_6; blk_7; blk_8; blk_9].

(** A second miner: a sibling of [blk_1] and a child of that sibling. *)
Definition side_1 : Block :=
  mined "e2d4906b0a8c7ce4dfdb0ad9433c33898ffe9b4666ab17fdd394fe097ec41630"
        1 0x1f0fffff [] miner_b 1231006506 0 451.

Definition side_2 : Block :=
  mined "000c84b8b95571a7ea72fdc2618e552ee94bac2682003e8799b47a15061eff3a"
        2 0x1f0fffff [] miner_b 1231006507 0 12124.

(** An unsigned transaction that spends the coinbase output of the genesis
    block, and one that pays out more than that output holds. *)
Definition genesis_coinbase_txid : string :=
  "09762731838801791ea6abf6500b78cf63396ce3e99f328da2dba25302f01c3b".

Definition spend_genesis (amount : Z) : Transaction :=
  {| tx_version := 1;
     inputs := [ {| previous_txid := genesis_coinbase_txid;
                    previous_output_index := 0;
                    signature_script := EmptyString;
                    sequence := 0xffffffff |} ];
     outputs := [ {| value := amount; pubkey_script := miner_b |} ];
     locktime := 0 |}.

(** Blocks at height 1 that carry these transactions. *)
Definition blk_spend : Block :=
  mined "e2d4906b0a8c7ce4dfdb0ad9433c33898ffe9b4666ab17fdd394fe097ec41630"
        1 0x1f0fffff [spend_genesis 5000000000] miner_a 1231006506 0 1127.

Definition blk_overspend : Block :=
  mined "e2d4906b0a8c7ce4dfdb0ad9433c33898ffe9b4666ab17fdd394fe097ec41630"
        1 0x1f0fffff [spend_genesis 6000000000] miner_a 1231006506 0 21402.

(** A block for height 10 that keeps the difficulty bits of the first nine. *)
Definition blk_stale_bits : Block :=
  mined "000a876d2cdbea277fe8b7a9a78d47a2ee3281899b376b0f9954168ea46aaa85"
        10 0x1f0fffff [] miner_a 1231006515 0 582.

(* ================================================================== *)
(** ** Notions of the specification

    The definitions of this section follow the words of the specification;
    the theorems compare them with what the code computes. *)

(** [Transaction.get_fee(utxo_set)] ([src/core/transaction.py]): the input
    total minus the output total. *)
Fixpoint input_total (u : UTXOSet) (ins : list TransactionInput) (total : Z) : result Z :=
  match ins with
  | [] => Ok total
  | txin :: t =>
      match UTXO.get_utxo u (previous_txid txin) (previous_output_index txin) with
      | None => Raise ValueError
      | Some e => input_total u t (total + UTXOEntry.value e)
      end
  end.

Definition get_fee (tx : Transaction) (utxo_set : option UTXOSet) : result Z :=
  if Tx.is_coinbase tx then Ok 0
  else
    match utxo_set with
    | None => Raise ValueError
    | Some u =>
        total_input <- input_total u (inputs tx) 0 ;;
        Ok (total_input - sum_values (outputs tx))
    end.

(** The fees of a block: the sum of the fees of its transactions that are
    not coinbase, against the UTXO set the block is validated with. *)
Fixpoint block_fees (u : UTXOSet) (txs : list Transaction) : result Z :=
  match txs with
  | [] => Ok 0
  | tx :: t =>
      f <- get_fee tx (Some u) ;;
      rest <- block_fees u t ;;
      Ok (f + rest)
  end.

(** The work of a block, [2^256 / (target + 1)], and of the chain that
    ends in [tip]. *)
Definition block_work (b : Block) : Z :=
  2 ^ 256 / (Header.get_target (header b) + 1).

Definition cumulative_work (bc : Blockchain) (tip : string) : Z :=
  fold_left Z.add (map block_work (Chain.get_chain bc (Some tip))) 0.

(** The UTXO set that reflects exactly the blocks of a chain: the blocks
    applied in order to the empty set. *)
Fixpoint replay_utxo (u : UTXOSet) (chain : list Block) : UTXOSet :=
  match chain with
  | [] => u
  | b :: t =>
      replay_utxo
        (snd (apply_txs u (match _height b with Some h => h | None => 0 end) (transactions b)))
        t
  end.

Definition utxo_of_best_chain (bc : Blockchain) : UTXOSet :=
  replay_utxo UTXO.empty (Chain.get_chain bc None).

(** The transaction id, for a transaction that has one. *)
Definition txid_of (tx : Transaction) : string :=
  match Tx.txid tx with Ok s => s | Raise _ => EmptyString end.

Definition hash_of (b : Block) : string :=
  match Header.hash (header b) with Ok s => s | Raise _ => EmptyString end.

(** Whether a signature script parses into a signature and a public key:
    [parts = sig_script.split()] has two parts at least and the first two
    are hexadecimal. *)
Definition parses_as_signature_pair (sig_script : string) : bool :=
  match py_split sig_script with
  | sig_hex :: pubkey_hex :: _ =>
      is_ok (bytes_fromhex sig_hex) && is_ok (bytes_fromhex pubkey_hex)
  | _ => false
  end.

(** Two states that differ in the UTXO set and the mempool at most. *)
Definition same_tree (bc bc' : Blockchain) : Prop :=
  blocks bc' = blocks bc
  /\ block_height_index bc' = block_height_index bc
  /\ chain_tips bc' = chain_tips bc
  /\ best_chain_tip bc' = best_chain_tip bc
  /\ development_mode bc' = development_mode bc
  /\ _difficulty_bits bc' = _difficulty_bits bc
  /\ _adjustment_interval bc' = _adjustment_interval bc
  /\ _target_block_time bc' = _target_block_time bc
  /\ _target_timespan bc' = _target_timespan bc.

(** A script written as the wallet writes it, the signature and the key in
    hexadecimal without a separator, does not parse; here with an oracle
    that rejects every signature. *)
Definition wallet_style_spend : Transaction :=
  {| tx_version := 1;
     inputs := [ {| previous_txid := genesis_coinbase_txid;
                    previous_output_index := 0;
                    signature_script := "3006020101020101021111111111111111111111111111111111111111111111111111111111111111";
                    sequence := 0xffffffff |} ];
     outputs := [ {| value := 5000000000; pubkey_script := miner_b |} ];
     locktime := 0 |}.

(* ================================================================== *)
(** ** Reachable mempools *)

(** The outpoints the inputs of a transaction name, the null outpoint of a
    coinbase input included. *)
Definition outpoints (tx : Transaction) : list (string * Z) :=
  map (fun inp => (previous_txid inp, previous_output_index inp)) (inputs tx).

Definition null_outpoint : string * Z := (zero_hash, 0xffffffff).

(** What the public methods of [Mempool] can build. *)
Inductive reachable_pool : Mempool -> Prop :=
| reach_empty : reachable_pool Pool.empty
| reach_add (m : Mempool) (tx : Transaction) (u : option UTXOSet) (accepted : bool)
    (m' : Mempool) :
    reachable_pool m ->
    Pool.add_transaction m tx u = Ok (accepted, m') ->
    reachable_pool m'
| reach_remove (m : Mempool) (txid : string) :
    reachable_pool m -> reachable_pool (snd (Pool.remove_transaction m txid))
| reach_clear (m : Mempool) (b : Block) :
    reachable_pool m -> reachable_pool (snd (Pool.clear_confirmed m b)).

(** Two transactions with two inputs each: a null outpoint, and an output
    of their own. *)
Definition two_input_tx (funding_txid : string) : Transaction :=
  {| tx_version := 1;
     inputs := [ {| previous_txid := zero_hash; previous_output_index := 0xffffffff;
                    signature_script := EmptyString; sequence := 0xffffffff |};
                 {| previous_txid := funding_txid; previous_output_index := 0;
                    signature_script := EmptyString; sequence := 0xffffffff |} ];
     outputs := [ {| value := 1; pubkey_script := miner_a |} ];
     locktime := 0 |}.

Definition pool_tx_a : Transaction :=
  two_input_tx "aaaaaaaaaaaaaaaaaaaaaaaaaaaaaaaaaaaaaaaaaaaaaaaaaaaaaaaaaaaaaaaa".

Definition pool_tx_b : Transaction :=
  two_input_tx "bbbbbbbbbbbbbbbbbbbbbbbbbbbbbbbbbbbbbbbbbbbbbbbbbbbbbbbbbbbbbbbb".

(** The pool after [pool_tx_a], and after [pool_tx_b] as well. *)
Definition pool_after (m : Mempool) (tx : Transaction) : Mempool :=
  match Pool.add_transaction m tx None with
  | Ok (_, m') => m'
  | Raise _ => m
  end.

Definition pool_with_a : Mempool := pool_after Pool.empty pool_tx_a.

Definition pool_with_a_b : Mempool := pool_after pool_with_a pool_tx_b.



(* ================================================================== *)
(** ** Compact encodings: specification side *)

(** Canonical compact encodings: a positive 4-byte value, sign bit (bit 23)
    clear, exponent at least 1 and as short as the sign bit allows (the top
    byte of the coefficient is zero only when the next byte has its high
    bit set), and no coefficient byte below the unit when the exponent is
    smaller than 3. *)
Definition canonical_bits (bits : Z) : bool :=
  let exponent := Z.shiftr bits 24 in
  let coefficient := Z.land bits 0x7FFFFF in
  (0 <? bits) && (bits <? 2 ^ 32) && (Z.land bits 0x800000 =? 0)
  && (1 <=? exponent) && (0x8000 <=? coefficient)
  && ((3 <=? exponent) || (coefficient mod 256 ^ (3 - exponent) =? 0)).

(** The value [target_to_compact_bits] builds from a positive target that
    occupies [m] bytes. *)
Definition compact_of (t m : Z) : Z :=
  let coefficient := if 3 <=? m then t / 256 ^ (m - 3) else 256 ^ (3 - m) * t in
  let '(coefficient, exponent) :=
    if Z.land coefficient 0x800000 =? 0 then (coefficient, m)
    else (Z.shiftr coefficient 8, m + 1) in
  Z.lor (Z.shiftl exponent 24) (Z.land coefficient 0x7FFFFF).

(* ================================================================== *)
(** ** Well-formed values of the wire format: specification side *)

(** Lowercase hexadecimal text, two digits per byte: what [bytes.hex()]
    produces, and the only form that survives a round trip. *)
Definition is_lower_digit (c : ascii) : bool :=
  let n := N_of_ascii c in
  ((N.leb 48 n) && (N.leb n 57)) || ((N.leb 97 n) && (N.leb n 102)).

Fixpoint lower_hex (s : string) : bool :=
  match s with
  | EmptyString => true
  | String c (String d rest) => is_lower_digit c && is_lower_digit d && lower_hex rest
  | String _ EmptyString => false
  end.

(** A 32-byte hash in display form. *)
Definition hash_text (s : string) : bool :=
  lower_hex s && (String.length s =? 64)%nat.

Definition fits (width : Z) (v : Z) : bool := (0 <=? v) && (v <? 256 ^ width).

Definition wf_output (o : TransactionOutput) : bool :=
  fits 8 (value o) && lower_hex (pubkey_script o)
  && fits 8 (Z.of_nat (String.length (pubkey_script o))).

Definition wf_input (i : TransactionInput) : bool :=
  hash_text (previous_txid i) && fits 4 (previous_output_index i)
  && lower_hex (signature_script i)
  && fits 8 (Z.of_nat (String.length (signature_script i)))
  && fits 4 (sequence i).

Definition wf_transaction (tx : Transaction) : bool :=
  fits 4 (tx_version tx)
  && fits 8 (Z.of_nat (List.length (inputs tx))) && forallb wf_input (inputs tx)
  && fits 8 (Z.of_nat (List.length (outputs tx))) && forallb wf_output (outputs tx)
  && fits 4 (locktime tx).

Definition wf_header (h : BlockHeader) : bool :=
  fits 4 (version h) && hash_text (previous_block_hash h) && hash_text (merkle_root h)
  && fits 4 (timestamp h) && fits 4 (difficulty_bits h) && fits 4 (nonce h).

Definition wf_block (b : Block) : bool :=
  wf_header (header b)
  && fits 8 (Z.of_nat (List.length (transactions b)))
  && forallb wf_transaction (transactions b).

(** The bytes a hex text stands for. *)
Definition unhex (s : string) : list byte :=
  match bytes_fromhex s with
  | Ok bs => bs
  | Raise _ => []
  end.

(** [reads de x bs]: wherever the bytes [bs] sit in a buffer, the
    deserializer [de] started there returns [x] and reports [length bs]. *)
Definition reads {A : Type} (de : list byte -> nat -> result (A * nat))
    (x : A) (bs : list byte) : Prop :=
  forall (data : list byte) (offset : nat) (rest : list byte),
    skipn offset data = bs ++ rest -> de data offset = Ok (x, List.length bs).

(** A deserialized block carries no height. *)
Definition without_height (b : Block) : Block :=
  {| header := header b; transactions := transactions b; _height := None |}.

(* ================================================================== *)
(** ** Scenario: two branches *)

(** Two blocks for height 10 on top of [blk_9], at the difficulty the node
    asks of each when it arrives: [blk_a10] first, then [blk_b10], whose
    target is lower. *)
Definition blk_a10 : Block :=
  mined "000a876d2cdbea277fe8b7a9a78d47a2ee3281899b376b0f9954168ea46aaa85"
        10 0x1d00ffff [] miner_a 1231006555 1 3656706586.

Definition blk_b10 : Block :=
  mined "000a876d2cdbea277fe8b7a9a78d47a2ee3281899b376b0f9954168ea46aaa85"
        10 0x1d00fae0 [] miner_b 1231006556 0 369420012.

(** A sibling of [blk_9], by the second miner. *)
Definition rival_9 : Block :=
  mined "000cdaa772aace754c419d9ab31c205ce515a3a1b0b31a0660a8321d224753e5"
        9 0x1f0fffff [] miner_b 1231006514 0 2579.

(** The state after the nine blocks and the two of the side branch: the
    best tip is [side_2], at height 2. *)
Definition low_tip_state : Blockchain :=
  snd (add_blocks dev_genesis_chain (main_chain ++ [side_1; side_2])).

(** The state after the nine blocks and the two blocks for height 10. *)
Definition two_tips_state : Blockchain :=
  snd (add_blocks dev_genesis_chain (main_chain ++ [blk_a10; blk_b10])).

(* ================================================================== *)
(** ** Merkle trees and inclusion proofs ([src/crypto/merkle.py]) *)

Module MerkleTree.

Record t : Type := mk {
  leaves : list (list byte);
  _tree : list (list (list byte));
  _root : option (list byte)
}.

(** [MerkleTree(hash_list)]. *)
Definition new (hash_list : list string) : result t :=
  ls <- mapM bytes_fromhex hash_list ;;
  Ok {| leaves := ls; _tree := []; _root := None |}.

(** The [while] loop of [build_tree]: the layers appended to [_tree] and
    the layer the loop ends with.  Every turn shortens the layer; a loop
    that used up its turns would not have ended. *)
Fixpoint build_layers (fuel : nat) (current_layer : list (list byte))
  : result (list (list (list byte)) * list (list byte)) :=
  match current_layer with
  | _ :: _ :: _ =>
      match fuel with
      | O => Raise Diverges
      | S n =>
          let next_layer := Blk.hash_pairs current_layer in
          '(layers, final) <- build_layers n next_layer ;;
          Ok (next_layer :: layers, final)
      end
  | _ => Ok ([], current_layer)
  end.

Definition build_tree (m : t) : result t :=
  match leaves m with
  | [] => Ok {| leaves := leaves m; _tree := []; _root := None |}
  | [leaf] => Ok {| leaves := leaves m; _tree := [[leaf]]; _root := Some leaf |}
  | current_layer =>
      '(layers, final) <- build_layers (List.length current_layer) current_layer ;;
      match final with
      | root :: _ =>
          Ok {| leaves := leaves m; _tree := current_layer :: layers; _root := Some root |}
      | [] => Raise IndexError
      end
  end.

Definition get_root (m : t) : option string :=
  match _root m with
  | None => None
  | Some r => Some (bytes_to_hex r)
  end.

(** [layer + [layer[-1]]] for a layer of odd length. *)
Definition padded (layer : list (list byte)) : list (list byte) :=
  if Nat.odd (List.length layer) then layer ++ [last layer []] else layer.

(** The loop of [get_proof] over all layers but the last. *)
Fixpoint proof_loop (layers : list (list (list byte))) (current_index : nat)
  : result (list (string * string)) :=
  match layers with
  | layer :: ((_ :: _) as rest) =>
      let layer := padded layer in
      let '(sibling_index, direction) :=
        if Nat.even current_index then ((current_index + 1)%nat, "right"%string)
        else ((current_index - 1)%nat, "left"%string) in
      match nth_error layer sibling_index with
      | None => Raise IndexError
      | Some sibling_hash =>
          steps <- proof_loop rest (current_index / 2)%nat ;;
          Ok ((direction, bytes_to_hex sibling_hash) :: steps)
      end
  | _ => Ok []
  end.

Definition get_proof (m : t) (index : Z) : result (list (string * string)) :=
  match _tree m with
  | [] => Raise ValueError
  | layers =>
      if (index <? 0) || (Z.of_nat (List.length (leaves m)) <=? index)
      then Raise IndexError
      else proof_loop layers (Z.to_nat index)
  end.

Fixpoint verify_loop (current : list byte) (proof : list (string * string))
  : result (list byte) :=
  match proof with
  | [] => Ok current
  | (direction, sibling_hex) :: t =>
      sibling <- bytes_fromhex sibling_hex ;;
      if String.eqb direction "left"
      then verify_loop (double_sha256 (sibling ++ current)) t
      else verify_loop (double_sha256 (current ++ sibling)) t
  end.

Definition verify_proof (leaf_hash : string) (proof : list (string * string))
    (root_hash : string) : result bool :=
  current <- bytes_fromhex leaf_hash ;;
  final <- verify_loop current proof ;;
  Ok (String.eqb (bytes_to_hex final) root_hash).

End MerkleTree.

(* ================================================================== *)
(** ** Keys of the UTXO set read back ([src/core/utxo.py]) *)

(** [key.rsplit(':', 1)] of [get_utxos_for_address]: the part before the
    last colon and the part after it, or the key alone when it has none. *)
Fixpoint rsplit_colon_pair (s : string) : option (string * string) :=
  match s with
  | EmptyString => None
  | String c rest =>
      match rsplit_colon_pair rest with
      | Some (before, after) => Some (String c before, after)
      | None => if Ascii.eqb c ":" then Some (EmptyString, rest) else None
      end
  end.

Definition rsplit_colon (s : string) : list string :=
  match rsplit_colon_pair s with
  | Some (before, after) => [before; after]
  | None => [s]
  end.

(** Whether a UTXO set has the form of a dictionary: no key twice. *)
Definition distinct_keys {V : Type} (d : list (string * V)) : Prop :=
  NoDup (map fst d).

Fixpoint has_colon (s : string) : bool :=
  match s with
  | EmptyString => false
  | String c rest => Ascii.eqb c ":" || has_colon rest
  end.

(* ================================================================== *)
(** ** Base58 and Base58Check ([src/utils/encoding.py]) *)

Definition BASE58_ALPHABET : string :=
  "123456789ABCDEFGHJKLMNPQRSTUVWXYZabcdefghijkmnopqrstuvwxyz".

(** [BASE58_ALPHABET[remainder]] for a remainder of a division by 58. *)
Definition base58_char (remainder : Z) : ascii :=
  match String.get (Z.to_nat remainder) BASE58_ALPHABET with
  | Some c => c
  | None => "1"%char
  end.

(** [BASE58_ALPHABET.index(char)], [None] when [char not in BASE58_ALPHABET]. *)
Fixpoint index_from (i : nat) (c : ascii) (s : string) : option nat :=
  match s with
  | EmptyString => None
  | String d rest => if Ascii.eqb c d then Some i else index_from (S i) c rest
  end.

Definition base58_index (c : ascii) : option nat := index_from 0 c BASE58_ALPHABET.

Fixpoint leading_zero_bytes (data : list byte) : nat :=
  match data with
  | b :: t => if Byte.eqb b x00 then S (leading_zero_bytes t) else O
  | [] => O
  end.

(** The loop [while num > 0] of [base58_encode]; a run that used up its
    turns would not have ended. *)
Fixpoint base58_digits (fuel : nat) (num : Z) (digits : string) : result string :=
  match fuel with
  | O => if 0 <? num then Raise Diverges else Ok digits
  | S n =>
      if 0 <? num
      then base58_digits n (num / 58) (String (base58_char (num mod 58)) digits)
      else Ok digits
  end.

Definition base58_encode (data : list byte) : result string :=
  let num_leading_zeros := leading_zero_bytes data in
  let num := big_endian_to_int data in
  digits <- base58_digits (2 * List.length data) num EmptyString ;;
  Ok (str_repeat "1" num_leading_zeros ++ digits)%string.

Fixpoint leading_ones (s : string) : nat :=
  match s with
  | String c rest => if Ascii.eqb c "1" then S (leading_ones rest) else O
  | EmptyString => O
  end.

Fixpoint base58_value (s : string) (num : Z) : result Z :=
  match s with
  | EmptyString => Ok num
  | String c rest =>
      match base58_index c with
      | None => Raise ValueError
      | Some i => base58_value rest (num * 58 + Z.of_nat i)
      end
  end.

Definition base58_decode (s : string) : result (list byte) :=
  let num_leading_ones := leading_ones s in
  num <- base58_value s 0 ;;
  digits <-
    (if num =? 0 then Ok []
     else int_to_big_endian num (Z.to_nat ((bit_length num + 7) / 8))) ;;
  Ok (repeat x00 num_leading_ones ++ digits).

Fixpoint bytes_eqb (a b : list byte) : bool :=
  match a, b with
  | [], [] => true
  | x :: a', y :: b' => Byte.eqb x y && bytes_eqb a' b'
  | _, _ => false
  end.

Definition base58check_encode (version payload : list byte) : result string :=
  let data := version ++ payload in
  let checksum := firstn 4 (double_sha256 data) in
  base58_encode (data ++ checksum).

Definition base58check_decode (s : string) : result (list byte * list byte) :=
  data <- base58_decode s ;;
  if (List.length data <? 5)%nat then Raise ValueError
  else
    let payload_with_version := firstn (List.length data - 4) data in
    let checksum := skipn (List.length data - 4) data in
    let expected_checksum := firstn 4 (double_sha256 payload_with_version) in
    if negb (bytes_eqb checksum expected_checksum) then Raise ValueError
    else Ok (firstn 1 payload_with_version, skipn 1 payload_with_version).

(* ================================================================== *)
(** ** Counting timestamps: specification side *)

(** How many of the timestamps are earlier than [t]. *)
Definition earlier_than (t : Z) (timestamps : list Z) : nat :=
  List.length (filter (fun x => x <? t) timestamps).

(* ================================================================== *)
(** ** The money supply: specification side *)

(** The rewards of the blocks at the heights below [n], added up. *)
Fixpoint rewards_below (n : nat) : Z :=
  match n with
  | O => 0
  | S k =>
      rewards_below k
      + match get_block_reward (Z.of_nat k) with Ok r => r | Raise _ => 0 end
  end.

(** The first [q] rewards of the halving schedule, added up. *)
Fixpoint halvings_sum (q : nat) : Z :=
  match q with
  | O => 0
  | S k => halvings_sum k + INITIAL_REWARD / 2 ^ Z.of_nat k
  end.

(* ================================================================== *)
(** ** The pool and its fee index: specification side *)

(** The fee index names the transactions of the pool, each once, and
    every transaction is stored under its own id. *)
Definition pool_indexed (m : Mempool) : Prop :=
  NoDup (map fst (mp_transactions m))
  /\ Permutation.Permutation (map snd (_fee_index m)) (map fst (mp_transactions m))
  /\ Forall (fun kv => Tx.txid (snd kv) = Ok (fst kv)) (mp_transactions m).

(* ================================================================== *)
(** ** Hashes in the other byte order: specification side *)

(** A hash text with its bytes in the opposite order. *)
Definition reverse_hash (h : string) : string := bytes_to_hex (rev (unhex h)).

(* ================================================================== *)
(** ** Block chains a node can reach: specification side *)

(** Every stored block is stored under its own hash and has a height; a
    block that names the zero hash as its parent is at height 0, any other
    block has its parent in the store, one below. *)
Definition block_tree_ok (bc : Blockchain) : Prop :=
  forall k b, Chain.get_block bc k = Some b ->
    Header.hash (header b) = Ok k
    /\ exists h, _height b = Some h /\ 0 <= h
         /\ (previous_block_hash (header b) = zero_hash -> h = 0)
         /\ (previous_block_hash (header b) <> zero_hash ->
             exists p, Chain.get_block bc (previous_block_hash (header b)) = Some p
                       /\ _height p = Some (h - 1)).

(** What [Blockchain(...)], [add_block] and [get_current_difficulty] can
    build. *)
Inductive reachable_chain (orc : list byte -> list byte -> list byte -> result bool)
  : Blockchain -> Prop :=
| reach_new (development_mode : bool) (bc : Blockchain) :
    new_blockchain development_mode = Ok bc -> reachable_chain orc bc
| reach_block (bc : Blockchain) (b : Block) (now : Z) (r : result bool)
    (bc' : Blockchain) :
    reachable_chain orc bc ->
    add_block orc bc b now = (r, bc') ->
    reachable_chain orc bc'
| reach_difficulty (bc : Blockchain) :
    reachable_chain orc bc ->
    reachable_chain orc (snd (Chain.get_current_difficulty bc)).

(** A chain read from its tip backwards: the first block has the hash [k]
    and the height [h], every next one is the parent of the one before,
    one lower, and after the last one comes the zero hash. *)
Fixpoint descends (k : string) (h : Z) (l : list Block) : Prop :=
  match l with
  | [] => k = zero_hash /\ h = -1
  | blk :: rest =>
      Header.hash (header blk) = Ok k /\ _height blk = Some h
      /\ descends (previous_block_hash (header blk)) (h - 1) rest
  end.

(** An input whose script is written as the signature check reads it: two
    hexadecimal words with a space between them; and the input with the same
    digits in one word. *)
Definition signature_pair_input : TransactionInput :=
  {| previous_txid := genesis_coinbase_txid; previous_output_index := 0;
     signature_script := "aabb ccdd"; sequence := 0xffffffff |}.

Definition signature_word_input : TransactionInput :=
  {| previous_txid := genesis_coinbase_txid; previous_output_index := 0;
     signature_script := "aabbccdd"; sequence := 0xffffffff |}.

(* THEOREMS *)
(* ================================================================== *)
(** * Properties *)

Example sha256_abc :
  bytes_to_hex (SHA256.sha256 (bytes_of_string "abc"))
  = "ba7816bf8f01cfea414140de5dae2223b00361a396177a9cb410ff61f20015ad"%string.
Proof. vm_compute. reflexivity. Qed.

(** The header of the Bitcoin main-net genesis block hashes to its
    well-known identifier. *)
Example bitcoin_genesis_header_hash :
  Header.hash {| version := 1; previous_block_hash := zero_hash;
                 merkle_root := "4a5e1e4baab89f3a32518a88c31bc87f618f76673e2cc77ab2127b7afdeda33b";
                 timestamp := 1231006505; difficulty_bits := 0x1d00ffff;
                 nonce := 2083236893 |}
  = Ok "000000000019d6689c085ae165831e934ff763ae46a2a6c172b3f1b60a8ce26f"%string.
Proof. vm_compute. reflexivity. Qed.

(* ================================================================== *)
(** ** The block tree under [add_block] *)

Section ChainFacts.
Variable orc : list byte -> list byte -> list byte -> result bool.

Lemma set_difficulty_bits_same (bc : Blockchain) :
  set_difficulty_bits bc (_difficulty_bits bc) = bc.
Proof. destruct bc; reflexivity. Qed.

Lemma get_next_difficulty_state (bc : Blockchain) (height : Z) :
  snd (Chain._get_next_difficulty bc height)
  = set_difficulty_bits bc (_difficulty_bits (snd (Chain._get_next_difficulty bc height))).
Proof.
  unfold Chain._get_next_difficulty.
  repeat match goal with
         | |- context [if ?c then _ else _] => destruct c
         | |- context [match ?r with Ok _ => _ | Raise _ => _ end] => destruct r
         end; cbn [snd]; try (symmetry; apply set_difficulty_bits_same).
  destruct bc; reflexivity.
Qed.

Lemma validate_block_state (b : Block) (bc : Blockchain) (now : Z) :
  snd (validate_block orc b bc now)
  = set_difficulty_bits bc (_difficulty_bits (snd (validate_block orc b bc now))).
Proof.
  unfold validate_block.
  destruct (Header.hash (header b)); cbn [snd]; [|symmetry; apply set_difficulty_bits_same].
  destruct (Header.meets_difficulty_target (header b)) as [[|]|];
    cbn [snd]; try (symmetry; apply set_difficulty_bits_same).
  destruct (_ && _); cbn [snd]; [symmetry; apply set_difficulty_bits_same|].
  destruct (validate_block_body _ _ _ _ _ _); cbn [snd];
    [|symmetry; apply set_difficulty_bits_same].
  destruct (String.eqb _ _); cbn [snd]; [symmetry; apply set_difficulty_bits_same|].
  pose proof (get_next_difficulty_state bc
                (expected_height_of bc (previous_block_hash (header b)))) as H.
  destruct (Chain._get_next_difficulty bc _) as [[bits|e] bc'] eqn:E; cbn [snd] in *.
  - destruct (negb _); cbn [snd]; exact H.
  - exact H.
Qed.

Lemma validate_block_verdict (b : Block) (bc : Blockchain) (now : Z) (v : bool)
      (bc1 : Blockchain) :
  validate_block orc b bc now = (Ok v, bc1) -> v = true.
Proof.
  unfold validate_block.
  destruct (Header.hash (header b)); [|discriminate].
  destruct (Header.meets_difficulty_target (header b)) as [[|]|]; try discriminate.
  destruct (_ && _); [discriminate|].
  destruct (validate_block_body _ _ _ _ _ _); [|discriminate].
  destruct (String.eqb _ _); [intros H; injection H; auto|].
  destruct (Chain._get_next_difficulty bc _) as [[bits|e] bc'].
  - destruct (negb _); [discriminate|intros H; injection H; auto].
  - intros H; injection H; auto.
Qed.
End ChainFacts.

Create HintDb tree.

Lemma same_tree_refl bc : same_tree bc bc.
Proof. repeat split. Qed.

Lemma same_tree_trans a b c : same_tree a b -> same_tree b c -> same_tree a c.
Proof.
  unfold same_tree; intros H1 H2.
  decompose [and] H1; decompose [and] H2; repeat split; congruence.
Qed.

Lemma same_tree_utxo bc u : same_tree bc (set_utxo_set bc u).
Proof. repeat split. Qed.

Lemma same_tree_mempool bc m : same_tree bc (set_mempool bc m).
Proof. repeat split. Qed.

#[local] Hint Resolve same_tree_refl same_tree_utxo same_tree_mempool : tree.

Section TreeFacts.
Variable orc : list byte -> list byte -> list byte -> result bool.

Lemma apply_block_tree bc b : same_tree bc (snd (_apply_block bc b)).
Proof.
  unfold _apply_block. destruct (apply_txs _ _ _); cbn [snd]. auto with tree.
Qed.

Lemma unwind_block_tree bc b : same_tree bc (snd (_unwind_block bc b)).
Proof.
  unfold _unwind_block. destruct (unwind_txs _ _ _); cbn [snd]. auto with tree.
Qed.

Lemma connect_block_tree bc b : same_tree bc (snd (connect_block bc b)).
Proof.
  unfold connect_block.
  pose proof (apply_block_tree bc b) as H.
  destruct (_apply_block bc b) as [[u|e] bc1]; cbn [snd] in *; [|exact H].
  destruct (Pool.clear_confirmed _ _) as [[n|e] m]; cbn [snd];
    (eapply same_tree_trans; [exact H | auto with tree]).
Qed.

Lemma requeue_txs_tree txs : forall bc, same_tree bc (snd (requeue_txs bc txs)).
Proof.
  induction txs as [|tx t IH]; intros bc; cbn [requeue_txs snd]; auto with tree.
  destruct (Tx.is_coinbase tx); [apply IH|].
  destruct (Pool.add_transaction _ _ _) as [[ok m]|e]; cbn [snd]; auto with tree.
  eapply same_tree_trans; [|apply IH]. auto with tree.
Qed.

Lemma unwind_blocks_tree bs : forall bc, same_tree bc (snd (unwind_blocks bc bs)).
Proof.
  induction bs as [|b t IH]; intros bc; cbn [unwind_blocks snd]; auto with tree.
  pose proof (unwind_block_tree bc b) as H1.
  destruct (_unwind_block bc b) as [[u|e] bc1]; cbn [snd] in *; [|exact H1].
  pose proof (requeue_txs_tree (transactions b) bc1) as H2.
  destruct (requeue_txs bc1 _) as [[u'|e] bc2]; cbn [snd] in *.
  - eapply same_tree_trans; [exact H1|]. eapply same_tree_trans; [exact H2|apply IH].
  - eapply same_tree_trans; eassumption.
Qed.

Lemma apply_blocks_tree bs : forall bc, same_tree bc (snd (apply_blocks bc bs)).
Proof.
  induction bs as [|b t IH]; intros bc; cbn [apply_blocks snd]; auto with tree.
  pose proof (connect_block_tree bc b) as H1.
  destruct (connect_block bc b) as [[u|e] bc1]; cbn [snd] in *; [|exact H1].
  eapply same_tree_trans; [exact H1|apply IH].
Qed.

(** [_reorganize_chain] leaves the block tree as it is; of the indices it
    changes the best tip only, and only to the new tip. *)
Lemma reorganize_blocks bc new_tip :
  blocks (snd (_reorganize_chain bc new_tip)) = blocks bc.
Proof.
  unfold _reorganize_chain.
  destruct (best_chain_tip bc); [|reflexivity].
  destruct (_find_common_ancestor _ _ _) as [[a|]|]; try reflexivity.
  destruct (collect_branch _ _ _ _) as [[old|]|]; try reflexivity.
  destruct (collect_branch _ _ _ _) as [[new|]|]; try reflexivity.
  pose proof (unwind_blocks_tree old bc) as H1.
  destruct (unwind_blocks bc old) as [[u|e] bc1]; cbn [snd] in *; [|apply H1].
  pose proof (apply_blocks_tree (rev new) bc1) as H2.
  destruct (apply_blocks bc1 _) as [[u'|e] bc2]; cbn [snd] in *.
  - cbn. destruct H1 as [H1 _], H2 as [H2 _]. congruence.
  - destruct H1 as [H1 _], H2 as [H2 _]. congruence.
Qed.

Lemma extend_best_chain_blocks bc h b :
  blocks (snd (extend_best_chain bc h b)) = blocks bc.
Proof.
  unfold extend_best_chain.
  pose proof (connect_block_tree (set_best_chain_tip bc (Some h)) b) as H.
  destruct (connect_block _ _) as [[u|e] bc1]; cbn [snd] in *; apply H.
Qed.

(** Every block that [add_block] stores has passed [validate_block]. *)
Lemma add_block_stores_validated bc b now r bc' :
  add_block orc bc b now = (r, bc') ->
  blocks bc' <> blocks bc ->
  exists bc1, validate_block orc b bc now = (Ok true, bc1).
Proof.
  unfold add_block. intros H Hne.
  destruct (Header.hash (header b)) as [h|e]; [|injection H as <- <-; congruence].
  destruct (Dict.mem _ _ _); [injection H as <- <-; congruence|].
  pose proof (validate_block_state orc b bc now) as Hs.
  pose proof (validate_block_verdict orc b bc now) as Hv.
  destruct (validate_block orc b bc now) as [[v|e] bc1]; cbn [snd] in *.
  - exists bc1. rewrite (Hv v bc1 eq_refl). reflexivity.
  - injection H as <- <-. exfalso; apply Hne. rewrite Hs. reflexivity.
Qed.
End TreeFacts.

(* ================================================================== *)
(** ** Coinbase maturity and the spending of immature outputs *)

(** X3.  The rule of [rules.py], taken alone, is the rule of the
    specification: an output of a coinbase passes at 100 confirmations and
    not before. *)
Lemma validate_coinbase_maturity_rule (txid : string) (index : Z)
      (e : UTXOEntry.t) (current_height : Z) :
  UTXOEntry.is_coinbase e = true ->
  (current_height - UTXOEntry.block_height e < 100 ->
   Rules.validate_coinbase_maturity txid index e current_height = Raise ValueError)
  /\ (100 <= current_height - UTXOEntry.block_height e ->
      Rules.validate_coinbase_maturity txid index e current_height = Ok true).
Proof.
  intros Hc. unfold Rules.validate_coinbase_maturity, COINBASE_MATURITY.
  rewrite Hc; cbn [negb]. split; intros H.
  - apply Z.ltb_lt in H. rewrite H. reflexivity.
  - apply Z.ltb_ge in H. rewrite H. reflexivity.
Qed.

Section TransactionValidation.
Variable orc : list byte -> list byte -> list byte -> result bool.

(** The loop over the inputs never completes a turn: an input that is
    found in the UTXO set meets the call that raises [TypeError]. *)
Lemma check_inputs_raises (ins : list TransactionInput) (u : UTXOSet)
      (h m total : Z) :
  ins <> [] -> exists e, check_inputs ins u h m total = Raise e.
Proof.
  destruct ins as [|inp t]; [congruence|intros _]. cbn [check_inputs].
  destruct (TxIn.is_coinbase inp); [eexists; reflexivity|].
  destruct (UTXO.get_utxo u _ _); eexists; reflexivity.
Qed.

(** X1.  [validate_transaction] accepts no transaction at all: every call
    ends in an exception, [ValidationError] from the checks before the
    inputs are looked up, or the [TypeError] of the maturity call. *)
Lemma validate_transaction_never_accepts (tx : Transaction) (u : UTXOSet)
      (h m : Z) :
  exists e, validate_transaction orc tx u h m = Raise e.
Proof.
  unfold validate_transaction.
  destruct (Tx.is_coinbase tx); [eexists; reflexivity|].
  destruct (inputs tx) as [|inp t] eqn:E; [eexists; reflexivity|].
  cbn [List.length Nat.eqb].
  destruct (_ =? _)%nat; [eexists; reflexivity|].
  destruct (check_inputs_raises (inp :: t) u h m 0) as [e He]; [congruence|].
  rewrite He. eexists; reflexivity.
Qed.

(** A transaction whose first input spends an entry of the UTXO set ends
    in [TypeError], whatever the maturity of the entry. *)
Lemma validate_transaction_type_error (tx : Transaction) (u : UTXOSet)
      (h m : Z) (inp : TransactionInput) (rest : list TransactionInput)
      (e : UTXOEntry.t) :
  Tx.is_coinbase tx = false ->
  inputs tx = inp :: rest ->
  outputs tx <> [] ->
  TxIn.is_coinbase inp = false ->
  UTXO.get_utxo u (previous_txid inp) (previous_output_index inp) = Some e ->
  validate_transaction orc tx u h m = Raise TypeError.
Proof.
  intros Hc Hi Ho Hn Hu. unfold validate_transaction.
  rewrite Hc, Hi. cbn [List.length Nat.eqb].
  destruct (outputs tx); [congruence|]. cbn [List.length Nat.eqb].
  cbn [check_inputs]. rewrite Hn, Hu. reflexivity.
Qed.
End TransactionValidation.

(** C3, where the code departs from it.
    A block at height 1 whose second transaction spends the
    coinbase output of the genesis block (height 0, one confirmation) is
    accepted by [validate_block] and by [add_block], although the maturity
    rule itself rejects the spend: the call of the rule in
    [validate_transaction] raises [TypeError], which [validate_block]
    logs and ignores. *)
Theorem C3_immature_coinbase_spend_accepted :
  let u := utxo_set dev_genesis_chain in
  let entry := UTXOEntry.mk 5000000000 "0000000000000000000000000000000000000000" 0 true in
  let out := add_block no_crypto dev_genesis_chain blk_spend clock in
  UTXO.get_utxo u genesis_coinbase_txid 0 = Some entry
  /\ expected_height_of dev_genesis_chain (previous_block_hash (header blk_spend)) = 1
  /\ transactions blk_spend
     = [hd (spend_genesis 0) (transactions blk_spend); spend_genesis 5000000000]
  /\ Rules.validate_coinbase_maturity genesis_coinbase_txid 0 entry 1 = Raise ValueError
  /\ validate_transaction no_crypto (spend_genesis 5000000000) u 1 100 = Raise TypeError
  /\ fst (validate_block no_crypto blk_spend dev_genesis_chain clock) = Ok true
  /\ fst out = Ok true
  /\ best_chain_tip (snd out) = Some (hash_of blk_spend)
  /\ UTXO.has_utxo (utxo_set (snd out)) genesis_coinbase_txid 0 = false
  /\ UTXO.has_utxo (utxo_set (snd out)) (txid_of (spend_genesis 5000000000)) 0 = true.
Proof. vm_compute. repeat split; reflexivity. Qed.

(** C4, where the code departs from it.
    The block [blk_overspend] at height 1 is accepted: its
    coinbase pays 5000000000, the reward of height 1 is 5000000000, and its
    other transaction spends an output of 5000000000 into one of
    6000000000, so the fees of the block are -1000000000 and the coinbase
    exceeds the reward plus the fees.  The transaction passes for the
    reason given at C3. *)
Theorem C4_coinbase_above_reward_plus_fees :
  let u := utxo_set dev_genesis_chain in
  let out := add_block no_crypto dev_genesis_chain blk_overspend clock in
  let coinbase_tx := hd (spend_genesis 0) (transactions blk_overspend) in
  fst out = Ok true
  /\ Tx.is_coinbase coinbase_tx = true
  /\ transactions blk_overspend = [coinbase_tx; spend_genesis 6000000000]
  /\ sum_values (outputs coinbase_tx) = 5000000000
  /\ get_block_reward 1 = Ok 5000000000
  /\ block_fees u (transactions blk_overspend) = Ok (-1000000000)
  /\ Rules.validate_coinbase blk_overspend 1 = Ok true
  /\ 5000000000 + -1000000000 < sum_values (outputs coinbase_tx).
Proof. vm_compute. repeat split; reflexivity. Qed.

(* ================================================================== *)
(** ** The UTXO set and the best chain *)

(** C2, where the code departs from it.
    After the blocks [blk_1], its sibling [side_1] and
    [side_2], a child of [side_1], the best chain is genesis, [side_1],
    [side_2], while the UTXO set holds the coinbase output of [blk_1], a
    block outside the best chain, and lacks the one of [side_1]: the last
    branch of [add_block] moved the tip without any reorganization. *)
Theorem C2_utxo_set_off_the_best_chain :
  let run := add_blocks dev_genesis_chain [blk_1; side_1; side_2] in
  let coinbase_of b := txid_of (hd (spend_genesis 0) (transactions b)) in
  fst run = [Ok true; Ok true; Ok true]
  /\ best_chain_tip (snd run) = Some (hash_of side_2)
  /\ map hash_of (Chain.get_chain (snd run) None)
     = [hash_of (snd (hd (EmptyString, no_block) (blocks dev_genesis_chain)));
        hash_of side_1; hash_of side_2]
  /\ UTXO.has_utxo (utxo_set (snd run)) (coinbase_of blk_1) 0 = true
  /\ UTXO.has_utxo (utxo_set (snd run)) (coinbase_of side_1) 0 = false
  /\ utxo_set (snd run) <> utxo_of_best_chain (snd run).
Proof. vm_compute. repeat split; try reflexivity; discriminate. Qed.

(** When [_reorganize_chain] reports a failure it has changed nothing. *)
Lemma reorganize_failure_changes_nothing (bc : Blockchain) (new_tip : string)
      (bc' : Blockchain) :
  _reorganize_chain bc new_tip = (Ok false, bc') -> bc' = bc.
Proof.
  unfold _reorganize_chain.
  destruct (best_chain_tip bc); [|discriminate].
  destruct (_find_common_ancestor _ _ _) as [[a|]|];
    try discriminate; try (intros H; injection H; auto).
  destruct (collect_branch _ _ _ _) as [[old|]|];
    try discriminate; try (intros H; injection H; auto).
  destruct (collect_branch _ _ _ _) as [[new|]|];
    try discriminate; try (intros H; injection H; auto).
  destruct (unwind_blocks bc old) as [[u|e] bc1]; [|discriminate].
  destruct (apply_blocks bc1 _) as [[u'|e] bc2]; discriminate.
Qed.

(* ================================================================== *)
(** ** Rejected blocks *)

Section Rejection.
Variable orc : list byte -> list byte -> list byte -> result bool.

(** X2.  A block that is not known yet and fails validation is refused
    with [False], no exception leaves [add_block], and the state keeps
    every component but the stored difficulty bits. *)
Lemma rejected_block_keeps_all_but_bits (bc : Blockchain) (b : Block) (now : Z)
      (h : string) (e : exn) (bc1 : Blockchain) :
  Header.hash (header b) = Ok h ->
  Dict.mem String.eqb h (blocks bc) = false ->
  validate_block orc b bc now = (Raise e, bc1) ->
  add_block orc bc b now = (Ok false, bc1)
  /\ bc1 = set_difficulty_bits bc (_difficulty_bits bc1).
Proof.
  intros Hh Hm Hv. split.
  - unfold add_block. rewrite Hh, Hm, Hv. reflexivity.
  - pose proof (validate_block_state orc b bc now) as Hs.
    rewrite Hv in Hs. exact Hs.
Qed.
End Rejection.

(** C6, where the code departs from it.
    On the chain of nine blocks the block [blk_stale_bits]
    for height 10 fails the last check of [validate_block], the one of the
    difficulty bits.  [add_block] returns [False] and raises nothing, yet
    the check has stored new difficulty bits on its way: the state is not
    the one before the call. *)
Theorem C6_rejected_block_changes_difficulty :
  let run := add_blocks dev_genesis_chain main_chain in
  let bc := snd run in
  let out := add_block no_crypto bc blk_stale_bits clock in
  fst run = [Ok true; Ok true; Ok true; Ok true; Ok true;
             Ok true; Ok true; Ok true; Ok true]
  /\ Chain.get_chain_height bc = 9
  /\ fst (validate_block no_crypto blk_stale_bits bc clock) = Raise ValidationError
  /\ fst out = Ok false
  /\ _difficulty_bits bc = 0x1f0fffff
  /\ _difficulty_bits (snd out) = 0x1d00ffff
  /\ snd out = set_difficulty_bits bc 0x1d00ffff
  /\ snd out <> bc.
Proof.
  vm_compute. repeat split; try reflexivity. discriminate.
Qed.

(* ================================================================== *)
(** ** Signatures *)

Section Signatures.
Variable orc : list byte -> list byte -> list byte -> result bool.

(** C5, as the code has it.
    For an input that spends an entry of the UTXO set,
    [validate_transaction_signature] answers [True] whenever the signature
    script does not parse into a signature and a public key, whatever the
    oracle would say; the function takes no switch that turns this off. *)
Theorem C5_unparseable_signature_passes (tx : Transaction) (input_index : Z)
        (u : UTXOSet) (inp : TransactionInput) (e : UTXOEntry.t) :
  py_index (inputs tx) input_index = Ok inp ->
  UTXO.get_utxo u (previous_txid inp) (previous_output_index inp) = Some e ->
  parses_as_signature_pair (signature_script inp) = false ->
  validate_transaction_signature orc tx input_index u = true.
Proof.
  intros Hi Hu Hp. unfold validate_transaction_signature.
  rewrite Hi, Hu. unfold parses_as_signature_pair in Hp.
  destruct (negb (str_true (signature_script inp))); [reflexivity|].
  destruct (py_split (signature_script inp)) as [|sig_hex [|pubkey_hex rest]];
    try reflexivity.
  destruct (bytes_fromhex sig_hex); [|reflexivity].
  destruct (bytes_fromhex pubkey_hex); [|reflexivity].
  discriminate.
Qed.
End Signatures.

(** The theorem at the unsigned spend of the genesis coinbase. *)
Lemma C5_unparseable_signature_passes_witness :
  validate_transaction_signature no_crypto (spend_genesis 5000000000) 0
    (utxo_set dev_genesis_chain) = true.
Proof.
  apply (C5_unparseable_signature_passes no_crypto (spend_genesis 5000000000) 0
           (utxo_set dev_genesis_chain)
           (hd (mkTxIn EmptyString 0 EmptyString 0) (inputs (spend_genesis 5000000000)))
           (UTXOEntry.mk 5000000000 "0000000000000000000000000000000000000000" 0 true));
    reflexivity.
Defined.

(** C5, the claim as stated fails: in the only configuration there is, the
    signature check passes an empty script and a script in the format of
    the wallet, and the block that carries the unsigned spend is accepted. *)
Lemma C5_counterexample :
  parses_as_signature_pair (signature_script (hd (mkTxIn EmptyString 0 EmptyString 0)
                                                 (inputs wallet_style_spend))) = false
  /\ validate_transaction_signature no_crypto wallet_style_spend 0
       (utxo_set dev_genesis_chain) = true
  /\ validate_transaction_signature no_crypto (spend_genesis 5000000000) 0
       (utxo_set dev_genesis_chain) = true
  /\ fst (add_block no_crypto dev_genesis_chain blk_spend clock) = Ok true.
Proof. vm_compute. repeat split; reflexivity. Qed.

(* ================================================================== *)
(** ** The genesis block *)

(** C10.  In either mode the constructor stores the genesis
    block (nonce 0, the fixed time stamp), makes it the best tip and applies
    it to the UTXO set, which then holds the one output of the genesis
    coinbase, 50 coins at height 0, and nothing else; its header does not
    meet the proof-of-work target, and [validate_block] would refuse it.
    Every block that [add_block] stores has passed [validate_block]
    before. *)
Theorem C10_genesis_skips_validation :
  (forall dev : bool,
     exists bc g h cb,
       new_blockchain dev = Ok bc
       /\ genesis_block (_difficulty_bits (empty_blockchain dev)) = Ok g
       /\ nonce (header g) = 0
       /\ timestamp (header g) = 1231006505
       /\ Header.hash (header g) = Ok h
       /\ blocks bc = [(h, g)]
       /\ best_chain_tip bc = Some h
       /\ utxo_set bc = replay_utxo UTXO.empty [g]
       /\ transactions g = [cb]
       /\ Tx.txid cb = Ok genesis_coinbase_txid
       /\ utxo_set (empty_blockchain dev) = UTXO.empty
       /\ utxo_set bc
          = [(UTXO._make_key genesis_coinbase_txid 0,
              UTXOEntry.mk 5000000000 "0000000000000000000000000000000000000000" 0 true)]
       /\ UTXO.get_utxo (utxo_set bc) genesis_coinbase_txid 0
          = Some (UTXOEntry.mk 5000000000 "0000000000000000000000000000000000000000" 0 true)
       /\ utxo_set bc <> UTXO.empty
       /\ Header.meets_difficulty_target (header g) = Ok false
       /\ (forall orc now,
             fst (validate_block orc g (empty_blockchain dev) now) = Raise ValidationError))
  /\ (forall orc bc b now r bc',
        add_block orc bc b now = (r, bc') ->
        blocks bc' <> blocks bc ->
        exists bc1, validate_block orc b bc now = (Ok true, bc1)).
Proof.
  split.
  - intros dev.
    destruct dev; do 4 eexists;
      (split; [vm_compute; reflexivity|]);
      (split; [vm_compute; reflexivity|]);
      do 11 (split; [vm_compute; reflexivity|]);
      (split; [vm_compute; discriminate|]);
      (split; [vm_compute; reflexivity|]);
      intros orc now; vm_compute; reflexivity.
  - intros orc bc b now r bc'. apply add_block_stores_validated.
Qed.

(* ================================================================== *)
(** ** The mempool *)



Lemma dict_mem_in {V : Type} (k : string) (d : list (string * V)) :
  Dict.mem String.eqb k d = false -> ~ In k (map fst d).
Proof.
  unfold Dict.mem. induction d as [|[k' v] t IH]; cbn; [tauto|].
  destruct (String.eqb k k') eqn:E; [discriminate|].
  apply String.eqb_neq in E. intros H [H1|H1]; [congruence|]. exact (IH H H1).
Qed.

Lemma dict_set_fresh {V : Type} (k : string) (v : V) (d : list (string * V)) :
  Dict.mem String.eqb k d = false -> Dict.set String.eqb k v d = d ++ [(k, v)].
Proof.
  unfold Dict.mem. induction d as [|[k' v'] t IH]; cbn; [reflexivity|].
  destruct (String.eqb k k'); [discriminate|]. intros H. rewrite (IH H). reflexivity.
Qed.

Lemma dict_remove_incl {V : Type} (k : string) (d : list (string * V)) :
  incl (Dict.remove String.eqb k d) d.
Proof.
  induction d as [|[k' v'] t IH]; cbn; [apply incl_refl|].
  destruct (String.eqb k k'); [apply incl_tl, incl_refl|].
  apply incl_cons; [left; reflexivity|apply incl_tl; exact IH].
Qed.

Lemma dict_remove_nodup {V : Type} (k : string) (d : list (string * V)) :
  NoDup (map fst d) -> NoDup (map fst (Dict.remove String.eqb k d)).
Proof.
  induction d as [|[k' v'] t IH]; cbn; [auto|].
  intros H. inversion H as [|? ? Hn Ht]; subst.
  destruct (String.eqb k k'); [exact Ht|]. cbn. constructor; [|auto].
  intros Hin. apply Hn. apply in_map_iff in Hin as [kv [E Hkv]].
  apply in_map_iff. exists kv; split; [exact E|]. eapply dict_remove_incl; eauto.
Qed.



Lemma nodup_snoc {A : Type} (l : list A) (x : A) :
  NoDup l -> ~ In x l -> NoDup (l ++ [x]).
Proof.
  induction l as [|y t IH]; cbn; intros Hn Hx.
  - constructor; [intros []|constructor].
  - inversion Hn as [|? ? Hy Ht]; subst. constructor.
    + intros Hin. apply in_app_or in Hin as [Hin|[<-|[]]]; [auto|]. apply Hx; left; reflexivity.
    + apply IH; [exact Ht|]. intros Hin; apply Hx; right; exact Hin.
Qed.








(** The coinbase marker is no outpoint: [is_double_spend] passes over an
    input that names it, as it consumes nothing.  [pool_tx_b] carries the
    marker, which [pool_tx_a] in the pool carries too, next to an outpoint
    of its own, and is accepted. *)
Lemma coinbase_marker_is_not_spent :
  Pool.add_transaction Pool.empty pool_tx_a None = Ok (true, pool_with_a)
  /\ In null_outpoint (outpoints pool_tx_a)
  /\ In null_outpoint (outpoints pool_tx_b)
  /\ Pool.add_transaction pool_with_a pool_tx_b None = Ok (true, pool_with_a_b)
  /\ reachable_pool pool_with_a_b
  /\ map snd (mp_transactions pool_with_a_b) = [pool_tx_a; pool_tx_b]
  /\ txid_of pool_tx_a <> txid_of pool_tx_b.
Proof.
  assert (Pool.add_transaction Pool.empty pool_tx_a None = Ok (true, pool_with_a)) as Ha
      by (vm_compute; reflexivity).
  assert (Pool.add_transaction pool_with_a pool_tx_b None = Ok (true, pool_with_a_b)) as Hb
      by (vm_compute; reflexivity).
  split; [exact Ha|].
  split; [left; reflexivity|].
  split; [left; reflexivity|].
  split; [exact Hb|].
  split.
  - apply (reach_add pool_with_a pool_tx_b None true pool_with_a_b); [|exact Hb].
    apply (reach_add Pool.empty pool_tx_a None true pool_with_a); [|exact Ha].
    apply reach_empty.
  - split; [vm_compute; reflexivity|vm_compute; discriminate].
Qed.

(* ================================================================== *)
(** ** Compact difficulty round trip *)

Lemma byte_to_Z_of_Z (z : Z) : byte_to_Z (byte_of_Z z) = z mod 256.
Proof.
  unfold byte_to_Z, byte_of_Z.
  assert (Hr : 0 <= z mod 256 < 256) by (apply Z.mod_pos_bound; lia).
  destruct (Byte.of_N (Z.to_N (z mod 256))) as [b|] eqn:E.
  - apply Byte.to_of_N in E. rewrite E. lia.
  - apply Byte.of_N_None_iff in E. lia.
Qed.

Lemma le_bytes_length (n : nat) (v : Z) : List.length (le_bytes n v) = n.
Proof. revert v; induction n; intros; cbn; [reflexivity|now rewrite IHn]. Qed.

Lemma little_endian_le_bytes (n : nat) (v : Z) :
  little_endian_to_int (le_bytes n v) = v mod 256 ^ Z.of_nat n.
Proof.
  revert v; induction n as [|n IH]; intros v.
  - cbn. now rewrite Z.mod_1_r.
  - cbn [le_bytes little_endian_to_int]. rewrite byte_to_Z_of_Z, IH.
    rewrite Nat2Z.inj_succ, Z.pow_succ_r by lia.
    rewrite (Z.mul_comm 256), Z.rem_mul_r by lia. lia.
Qed.

Lemma le_bytes_skipn (k n : nat) (v : Z) :
  skipn k (le_bytes (k + n) v) = le_bytes n (v / 256 ^ Z.of_nat k).
Proof.
  revert v; induction k as [|k IH]; intros v.
  - cbn. now rewrite Z.div_1_r.
  - cbn [Nat.add le_bytes skipn]. rewrite IH, Nat2Z.inj_succ, Z.pow_succ_r by lia.
    now rewrite Z.div_div by lia.
Qed.

Lemma little_endian_zeros (k : nat) (l : list byte) :
  little_endian_to_int (repeat x00 k ++ l) = 256 ^ Z.of_nat k * little_endian_to_int l.
Proof.
  induction k as [|k IH].
  - cbn [repeat app]. change (Z.of_nat 0) with 0. lia.
  - cbn [repeat app little_endian_to_int]. rewrite IH, Nat2Z.inj_succ, Z.pow_succ_r by lia.
    change (byte_to_Z x00) with 0. lia.
Qed.

(** Number of bytes of a positive integer, as [target_to_compact_bits]
    computes it from [bit_length]. *)
Lemma byte_length_spec (t m : Z) :
  1 <= m -> 256 ^ (m - 1) <= t < 256 ^ m -> (bit_length t + 7) / 8 = m.
Proof.
  intros Hm [Hlo Hhi].
  assert (Hp : 0 < 256 ^ (m - 1)) by (apply Z.pow_pos_nonneg; lia).
  assert (Ht : 0 < t) by lia.
  unfold bit_length. destruct (Z.eqb_spec t 0) as [|_]; [lia|].
  rewrite Z.abs_eq by lia.
  change 256 with (2 ^ 8) in Hlo, Hhi.
  rewrite <- Z.pow_mul_r in Hlo, Hhi by lia.
  apply Z.log2_le_pow2 in Hlo; [|lia].
  apply Z.log2_lt_pow2 in Hhi; [|lia].
  replace (Z.log2 t + 1 + 7) with (Z.log2 t + 1 * 8) by lia.
  rewrite Z.div_add by lia.
  assert (H : m - 1 <= Z.log2 t / 8 < m); [|lia].
  split.
  - apply Z.div_le_lower_bound; lia.
  - apply Z.div_lt_upper_bound; lia.
Qed.

Lemma int_to_big_endian_ok (t : Z) (n : nat) :
  0 <= t < 256 ^ Z.of_nat n ->
  int_to_big_endian t n = Ok (rev (le_bytes n t)).
Proof.
  intros [H0 H1]. unfold int_to_big_endian, int_to_little_endian.
  destruct (Z.ltb_spec t 0); [lia|].
  destruct (Z.leb_spec (256 ^ Z.of_nat n) t); [lia|]. reflexivity.
Qed.

Lemma big_endian_top3 (n : nat) (t : Z) :
  0 <= t < 256 ^ Z.of_nat (n + 3) ->
  big_endian_to_int (firstn 3 (rev (le_bytes (n + 3) t))) = t / 256 ^ Z.of_nat n.
Proof.
  intros [H0 H1]. unfold big_endian_to_int.
  rewrite firstn_rev, rev_involutive, le_bytes_length.
  replace (n + 3 - 3)%nat with n by lia.
  rewrite le_bytes_skipn, little_endian_le_bytes.
  apply Z.mod_small. split.
  - apply Z.div_pos; [lia|]. apply Z.pow_pos_nonneg; lia.
  - apply Z.div_lt_upper_bound; [apply Z.pow_pos_nonneg; lia|].
    rewrite <- Z.pow_add_r by lia. now rewrite <- Nat2Z.inj_add.
Qed.

Lemma big_endian_padded (n k : nat) (t : Z) :
  0 <= t < 256 ^ Z.of_nat n ->
  big_endian_to_int (rev (le_bytes n t) ++ repeat x00 k) = 256 ^ Z.of_nat k * t.
Proof.
  intros H. unfold big_endian_to_int.
  rewrite rev_app_distr, rev_involutive, rev_repeat, little_endian_zeros,
    little_endian_le_bytes.
  now rewrite Z.mod_small.
Qed.


Lemma target_to_compact_bits_eq (t m : Z) :
  1 <= m -> 256 ^ (m - 1) <= t < 256 ^ m ->
  target_to_compact_bits t = Ok (compact_of t m).
Proof.
  intros Hm Ht.
  assert (Hp : 0 < 256 ^ (m - 1)) by (apply Z.pow_pos_nonneg; lia).
  unfold target_to_compact_bits, compact_of.
  destruct (Z.ltb_spec t 0); [lia|]. destruct (Z.eqb_spec t 0); [lia|].
  rewrite (byte_length_spec t m Hm Ht).
  rewrite int_to_big_endian_ok by (rewrite Z2Nat.id; lia).
  cbn [bind]. rewrite length_rev, le_bytes_length, Z2Nat.id by lia.
  destruct (Z.leb_spec 3 m) as [H3|H3].
  - replace (Z.to_nat m) with (Z.to_nat (m - 3) + 3)%nat by lia.
    rewrite big_endian_top3 by (replace (Z.to_nat (m - 3) + 3)%nat with (Z.to_nat m) by lia;
                                rewrite Z2Nat.id; lia).
    rewrite Z2Nat.id by lia.
    destruct (Z.land (t / 256 ^ (m - 3)) 8388608 =? 0); reflexivity.
  - rewrite big_endian_padded by (rewrite Z2Nat.id; lia).
    rewrite Z2Nat.id by lia.
    destruct (Z.land (256 ^ (3 - m) * t) 8388608 =? 0); reflexivity.
Qed.


Lemma sign_bit_clear (x : Z) : 0 <= x < 2 ^ 23 -> Z.land x 0x800000 = 0.
Proof.
  intros H. apply Z.bits_inj'. intros n Hn.
  rewrite Z.land_spec, Z.bits_0.
  destruct (Z.eq_dec n 23) as [->|Hne].
  - rewrite (Z.bits_above_log2 x 23); [reflexivity|lia|].
    destruct (Z.eq_dec x 0) as [->|]; [cbn; lia|].
    apply Z.log2_lt_pow2; lia.
  - change 8388608 with (2 ^ 23). rewrite Z.pow2_bits_false by lia.
    apply andb_false_r.
Qed.

Lemma sign_bit_set (x : Z) : 2 ^ 23 <= x < 2 ^ 24 -> Z.land x 0x800000 <> 0.
Proof.
  intros H E.
  assert (Hb : Z.testbit (Z.land x 0x800000) 23 = true).
  { rewrite Z.land_spec. change 8388608 with (2 ^ 23).
    rewrite Z.pow2_bits_true by lia. rewrite andb_true_r.
    replace 23 with (Z.log2 x); [apply Z.bit_log2; lia|].
    apply Z.log2_unique; lia. }
  rewrite E in Hb. now rewrite Z.bits_0 in Hb.
Qed.

Lemma compact_join (e c : Z) :
  0 <= e -> 0 <= c < 2 ^ 23 ->
  Z.lor (Z.shiftl e 24) (Z.land c 0x7FFFFF) = e * 2 ^ 24 + c.
Proof.
  intros He Hc.
  change 8388607 with (Z.ones 23). rewrite Z.land_ones, Z.mod_small by lia.
  rewrite Z.shiftl_mul_pow2 by lia.
  rewrite <- Z.lxor_lor, <- Z.add_nocarry_lxor; [reflexivity| |];
    (apply Z.bits_inj'; intros n Hn; rewrite Z.land_spec, Z.bits_0;
     destruct (Z.ltb_spec n 24);
     [ rewrite Z.mul_pow2_bits_low by lia; reflexivity
     | rewrite (Z.bits_above_log2 c n);
       [ apply andb_false_r | lia
       | destruct (Z.eq_dec c 0) as [->|]; [cbn; lia|];
         apply Z.lt_le_trans with 23; [apply Z.log2_lt_pow2; lia | lia] ] ]).
Qed.

Lemma compact_split (bits : Z) :
  0 < bits < 2 ^ 32 -> Z.land bits 0x800000 = 0 ->
  let e := Z.shiftr bits 24 in
  let c := Z.land bits 0x7FFFFF in
  Z.land e 0xFF = e /\ 0 <= e < 256 /\ 0 <= c < 2 ^ 23 /\ bits = e * 2 ^ 24 + c.
Proof.
  intros Hb Hs e c. subst e c.
  rewrite Z.shiftr_div_pow2 by lia.
  change 255 with (Z.ones 8). change 8388607 with (Z.ones 23).
  rewrite !Z.land_ones by lia.
  assert (He : 0 <= bits / 2 ^ 24 < 256).
  { split; [apply Z.div_pos; lia|apply Z.div_lt_upper_bound; lia]. }
  rewrite Z.mod_small by (change (2 ^ 8) with 256; lia).
  assert (Hc : 0 <= bits mod 2 ^ 23 < 2 ^ 23) by (apply Z.mod_pos_bound; lia).
  repeat split; try lia.
  (* bit 23 is clear, so the low 24 bits are the low 23 bits *)
  assert (H24 : bits mod 2 ^ 24 = bits mod 2 ^ 23).
  { rewrite <- !Z.land_ones by lia. apply Z.bits_inj'. intros n Hn.
    rewrite !Z.land_spec.
    destruct (Z.eq_dec n 23) as [->|Hne].
    - assert (Hz : Z.testbit (Z.land bits 0x800000) 23 = false)
        by (rewrite Hs; apply Z.bits_0).
      rewrite Z.land_spec in Hz. change 8388608 with (2 ^ 23) in Hz.
      rewrite Z.pow2_bits_true, andb_true_r in Hz by lia. rewrite Hz. reflexivity.
    - rewrite !Z.testbit_ones_nonneg by lia.
      destruct (Z.ltb_spec n 24), (Z.ltb_spec n 23); try reflexivity; lia. }
  rewrite <- H24. pose proof (Z.div_mod bits (2 ^ 24)). lia.
Qed.

(** C9.  The compact encoding of the target of a canonical [bits] is
    [bits] again. *)
Theorem C9_compact_round_trip (bits : Z) :
  canonical_bits bits = true ->
  (target <- compact_bits_to_target bits ;; target_to_compact_bits target) = Ok bits.
Proof.
  unfold canonical_bits. intros H.
  repeat (apply andb_prop in H; destruct H as [H ?]).
  assert (Hlow : Z.shiftr bits 24 < 3 ->
                 Z.land bits 0x7FFFFF mod 256 ^ (3 - Z.shiftr bits 24) = 0).
  { intros Hlt. match goal with h : (_ || _) = true |- _ =>
      apply orb_prop in h; destruct h as [h|h];
      [apply Z.leb_le in h; lia|now apply Z.eqb_eq] end. }
  repeat match goal with
         | h : (_ <? _) = true |- _ => apply Z.ltb_lt in h
         | h : (_ <=? _) = true |- _ => apply Z.leb_le in h
         | h : (_ =? _) = true |- _ => apply Z.eqb_eq in h
         end.
  destruct (compact_split bits) as (HeF & He & Hc & Hb); [lia|assumption|].
  set (e := Z.shiftr bits 24) in *. set (c := Z.land bits 0x7FFFFF) in *.
  assert (Htarget : compact_bits_to_target bits
                    = Ok (if e <=? 3 then c / 256 ^ (3 - e) else c * 256 ^ (e - 3))).
  { unfold compact_bits_to_target. destruct (Z.leb_spec bits 0); [lia|].
    fold e. rewrite HeF. fold c.
    destruct (Z.eqb_spec (Z.land bits 8388608) 0); [|contradiction].
    cbv zeta. destruct (Z.leb_spec e 3).
    - rewrite Z.shiftr_div_pow2, Z.pow_mul_r by lia. change (2 ^ 8) with 256.
      destruct (Z.ltb_spec (c / 256 ^ (3 - e)) 0) as [Hn|]; [|reflexivity].
      exfalso. assert (0 <= c / 256 ^ (3 - e)); [|lia].
      apply Z.div_pos; [lia|apply Z.pow_pos_nonneg; lia].
    - rewrite Z.shiftl_mul_pow2, Z.pow_mul_r by lia. change (2 ^ 8) with 256.
      destruct (Z.ltb_spec (c * 256 ^ (e - 3)) 0) as [Hn|]; [|reflexivity].
      exfalso. assert (0 < 256 ^ (e - 3)) by (apply Z.pow_pos_nonneg; lia). nia. }
  rewrite Htarget. cbn [bind]. rewrite Hb. clear Htarget Hb HeF.
  clearbody e c. clear bits H H3 H4.
  (* the target occupies [e] bytes when the top coefficient byte is used,
     [e - 1] bytes otherwise *)
  destruct (Z_lt_le_dec c (2 ^ 16)) as [Hsmall|Hbig].
  - (* 0x8000 <= c < 0x10000: one byte less, the sign bit forces it back *)
    assert (He2 : 2 <= e).
    { destruct (Z.eq_dec e 1) as [->|]; [|lia]. exfalso. specialize (Hlow ltac:(lia)).
      change (256 ^ (3 - 1)) with 65536 in Hlow.
      rewrite Z.mod_small in Hlow by lia. lia. }
    set (t := if e <=? 3 then c / 256 ^ (3 - e) else c * 256 ^ (e - 3)).
    assert (Hscale : (if 3 <=? e - 1 then t / 256 ^ (e - 1 - 3)
                      else 256 ^ (3 - (e - 1)) * t) = c * 256
                     /\ 256 ^ (e - 1 - 1) <= t < 256 ^ (e - 1)).
    { subst t. destruct (Z.eq_dec e 2) as [->|]; [|destruct (Z.eq_dec e 3) as [->|]].
      - specialize (Hlow ltac:(lia)). cbn -[Z.div Z.mul]. change (256 ^ (3 - 2)) with 256 in Hlow.
        apply Z.mod_divide in Hlow; [|lia]. destruct Hlow as [q ->].
        rewrite Z.div_mul by lia. lia.
      - cbn -[Z.div Z.mul]. rewrite Z.div_1_r. lia.
      - destruct (Z.leb_spec e 3); [lia|]. destruct (Z.leb_spec 3 (e - 1)); [|lia].
        assert (Hp : 0 < 256 ^ (e - 4)) by (apply Z.pow_pos_nonneg; lia).
        replace (e - 1 - 3) with (e - 4) by lia.
        replace (256 ^ (e - 3)) with (256 * 256 ^ (e - 4))
          by (rewrite <- Z.pow_succ_r by lia; f_equal; lia).
        replace (256 ^ (e - 1 - 1)) with (65536 * 256 ^ (e - 4))
          by (change 65536 with (256 ^ 2); rewrite <- Z.pow_add_r by lia; f_equal; lia).
        replace (256 ^ (e - 1)) with (16777216 * 256 ^ (e - 4))
          by (change 16777216 with (256 ^ 3); rewrite <- Z.pow_add_r by lia; f_equal; lia).
        split; [|nia].
        replace (c * (256 * 256 ^ (e - 4))) with (c * 256 * 256 ^ (e - 4)) by lia.
        apply Z.div_mul. lia. }
    destruct Hscale as [Hcoef Hrange].
    rewrite (target_to_compact_bits_eq t (e - 1)) by (lia || exact Hrange).
    unfold compact_of. rewrite Hcoef.
    destruct (Z.eqb_spec (Z.land (c * 256) 8388608) 0) as [E|_].
    + exfalso. revert E. apply sign_bit_set. lia.
    + rewrite Z.shiftr_div_pow2 by lia. change (2 ^ 8) with 256.
      rewrite Z.div_mul by lia. replace (e - 1 + 1) with e by lia.
      f_equal. apply compact_join; lia.
  - (* 0x10000 <= c: the coefficient is read back as it is *)
    set (t := if e <=? 3 then c / 256 ^ (3 - e) else c * 256 ^ (e - 3)).
    assert (Hscale : (if 3 <=? e then t / 256 ^ (e - 3) else 256 ^ (3 - e) * t) = c
                     /\ 256 ^ (e - 1) <= t < 256 ^ e).
    { subst t.
      destruct (Z.eq_dec e 1) as [->|]; [|destruct (Z.eq_dec e 2) as [->|];
                                           [|destruct (Z.eq_dec e 3) as [->|]]].
      - specialize (Hlow ltac:(lia)). cbn -[Z.div Z.mul]. change (256 ^ (3 - 1)) with 65536 in Hlow.
        apply Z.mod_divide in Hlow; [|lia]. destruct Hlow as [q ->].
        rewrite Z.div_mul by lia. lia.
      - specialize (Hlow ltac:(lia)). cbn -[Z.div Z.mul]. change (256 ^ (3 - 2)) with 256 in Hlow.
        apply Z.mod_divide in Hlow; [|lia]. destruct Hlow as [q ->].
        rewrite Z.div_mul by lia. lia.
      - cbn -[Z.div Z.mul]. rewrite !Z.div_1_r. lia.
      - destruct (Z.leb_spec e 3); [lia|]. destruct (Z.leb_spec 3 e); [|lia].
        assert (Hp : 0 < 256 ^ (e - 3)) by (apply Z.pow_pos_nonneg; lia).
        replace (256 ^ (e - 1)) with (65536 * 256 ^ (e - 3))
          by (change 65536 with (256 ^ 2); rewrite <- Z.pow_add_r by lia; f_equal; lia).
        replace (256 ^ e) with (16777216 * 256 ^ (e - 3))
          by (change 16777216 with (256 ^ 3); rewrite <- Z.pow_add_r by lia; f_equal; lia).
        split; [apply Z.div_mul; lia|nia]. }
    destruct Hscale as [Hcoef Hrange].
    rewrite (target_to_compact_bits_eq t e) by (lia || exact Hrange).
    unfold compact_of. rewrite Hcoef.
    rewrite sign_bit_clear by lia. cbn [Z.eqb].
    f_equal. apply compact_join; lia.
Qed.

Lemma C9_compact_round_trip_witness :
  canonical_bits 0x1d00ffff = true
  /\ (target <- compact_bits_to_target 0x1d00ffff ;; target_to_compact_bits target)
     = Ok 0x1d00ffff.
Proof.
  split; [reflexivity|]. apply (C9_compact_round_trip 0x1d00ffff). reflexivity.
Defined.

(* ================================================================== *)
(** ** Serialization round trips *)

Lemma skipn_slice (data : list byte) (o n : nat) (a r : list byte) :
  skipn o data = a ++ r -> n = List.length a -> slice data o (o + n) = a.
Proof.
  intros H ->. unfold slice. rewrite H.
  replace (o + List.length a - o)%nat with (List.length a + 0)%nat by lia.
  rewrite firstn_app_2. cbn. apply app_nil_r.
Qed.

Lemma skipn_step (data : list byte) (o : nat) (a r : list byte) :
  skipn o data = a ++ r -> skipn (o + List.length a) data = r.
Proof.
  intros H. rewrite Nat.add_comm, <- skipn_skipn, H.
  rewrite skipn_app, skipn_all, Nat.sub_diag. reflexivity.
Qed.

Lemma skipn_room (data : list byte) (o : nat) (a r : list byte) :
  skipn o data = a ++ r -> (List.length data - o = List.length a + List.length r)%nat.
Proof. intros H. rewrite <- length_skipn, H. apply length_app. Qed.

Lemma skipn_head (data : list byte) (o : nat) (b : byte) (r : list byte) :
  skipn o data = b :: r -> nth_error data o = Some b.
Proof.
  revert data; induction o as [|o IH]; intros [|x data] H; cbn in *;
    try discriminate; [congruence|auto].
Qed.

Lemma fits_spec (w v : Z) : fits w v = true <-> 0 <= v < 256 ^ w.
Proof. unfold fits. rewrite andb_true_iff, Z.leb_le, Z.ltb_lt. tauto. Qed.

Lemma int_to_little_endian_ok (v : Z) (n : nat) :
  fits (Z.of_nat n) v = true -> int_to_little_endian v n = Ok (le_bytes n v).
Proof.
  intros H. apply fits_spec in H. unfold int_to_little_endian.
  destruct (Z.ltb_spec v 0); [lia|].
  destruct (Z.leb_spec (256 ^ Z.of_nat n) v); [lia|]. reflexivity.
Qed.

Lemma little_endian_round_trip (v : Z) (n : nat) :
  fits (Z.of_nat n) v = true -> little_endian_to_int (le_bytes n v) = v.
Proof.
  intros H. apply fits_spec in H. rewrite little_endian_le_bytes.
  now apply Z.mod_small.
Qed.

(** Reading a fixed-width little-endian field. *)
Lemma read_int (data : list byte) (o n : nat) (v : Z) (r : list byte) :
  fits (Z.of_nat n) v = true -> skipn o data = le_bytes n v ++ r ->
  little_endian_to_int (slice data o (o + n)) = v.
Proof.
  intros Hv H. rewrite (skipn_slice data o n _ r H) by now rewrite le_bytes_length.
  now apply little_endian_round_trip.
Qed.

Lemma encode_varint_reads (n : Z) :
  fits 8 n = true ->
  exists enc, encode_varint n = Ok enc /\ (0 < List.length enc)%nat /\
    forall data o rest, skipn o data = enc ++ rest ->
      decode_varint data o = Ok (n, List.length enc).
Proof.
  intros Hn. apply fits_spec in Hn. change (256 ^ 8) with 18446744073709551616 in Hn.
  unfold encode_varint. destruct (Z.ltb_spec n 0); [lia|].
  destruct (Z.ltb_spec n 253).
  { eexists; split; [reflexivity|]. split; [cbn; lia|]. intros data o rest Hsk.
    unfold decode_varint. rewrite (skipn_head _ _ _ _ Hsk).
    rewrite byte_to_Z_of_Z, Z.mod_small by lia.
    destruct (Z.ltb_spec n 253); [reflexivity|lia]. }
  assert (Hread : forall (k : nat) (tag : byte) data o rest,
             fits (Z.of_nat k) n = true ->
             skipn o data = (tag :: le_bytes k n) ++ rest ->
             (List.length data <? o + S k)%nat = false
             /\ little_endian_to_int (slice data (o + 1) (o + S k)) = n).
  { intros k tag data o rest Hk Hsk. split.
    - apply Nat.ltb_ge. pose proof (skipn_room _ _ _ _ Hsk) as Hl.
      cbn [List.length] in Hl. rewrite le_bytes_length in Hl. lia.
    - apply (skipn_step data o [tag]) in Hsk. cbn [List.length] in Hsk.
      replace (o + S k)%nat with (o + 1 + k)%nat by lia.
      now apply read_int with rest. }
  destruct (Z.leb_spec n 65535).
  { rewrite (int_to_little_endian_ok n 2) by (apply fits_spec; cbn; lia).
    eexists; split; [reflexivity|]. split; [cbn; lia|]. intros data o rest Hsk.
    unfold decode_varint. rewrite (skipn_head _ _ _ _ Hsk).
    destruct (Hread 2%nat _ _ _ _ ltac:(apply fits_spec; cbn; lia) Hsk) as [-> ->].
    reflexivity. }
  destruct (Z.leb_spec n 4294967295).
  { rewrite (int_to_little_endian_ok n 4) by (apply fits_spec; cbn; lia).
    eexists; split; [reflexivity|]. split; [cbn; lia|]. intros data o rest Hsk.
    unfold decode_varint. rewrite (skipn_head _ _ _ _ Hsk).
    destruct (Hread 4%nat _ _ _ _ ltac:(apply fits_spec; cbn; lia) Hsk) as [-> ->].
    reflexivity. }
  rewrite (int_to_little_endian_ok n 8) by (apply fits_spec; cbn; lia).
  eexists; split; [reflexivity|]. split; [cbn; lia|]. intros data o rest Hsk.
  unfold decode_varint. rewrite (skipn_head _ _ _ _ Hsk).
  destruct (Hread 8%nat _ _ _ _ ltac:(apply fits_spec; cbn; lia) Hsk) as [-> ->].
  reflexivity.
Qed.

Lemma lower_digit_value (c : ascii) :
  is_lower_digit c = true ->
  is_ascii_space c = false /\
  exists v, hex_value c = Some v /\ 0 <= v < 16 /\ hex_digit v = c.
Proof.
  destruct c as [[] [] [] [] [] [] [] []]; cbn; intros H; try discriminate H;
    (split; [reflexivity|eexists; split; [reflexivity|split; [lia|reflexivity]]]).
Qed.

Lemma string_pair_ind (P : string -> Prop) :
  P EmptyString ->
  (forall c, P (String c EmptyString)) ->
  (forall c d s, P s -> P (String c (String d s))) ->
  forall s, P s.
Proof.
  intros H0 H1 H2.
  assert (H : forall s, P s /\ forall c, P (String c s)).
  { induction s as [|d s [IH1 IH2]]; split; auto. }
  intros s. apply H.
Qed.

(** A lowercase hex text is parsed, and printed back, as it is. *)
Lemma unhex_spec (s : string) :
  lower_hex s = true ->
  bytes_fromhex s = Ok (unhex s) /\ bytes_to_hex (unhex s) = s
  /\ String.length s = (2 * List.length (unhex s))%nat.
Proof.
  induction s as [|c|c d s IH] using string_pair_ind; intros H.
  - repeat split.
  - discriminate H.
  - cbn [lower_hex] in H. apply andb_prop in H. destruct H as [H Hs].
    apply andb_prop in H. destruct H as [Hc Hd].
    destruct (lower_digit_value c Hc) as (Hsp & h & Hh & Hhr & Hhd).
    destruct (lower_digit_value d Hd) as (_ & l & Hl & Hlr & Hld).
    destruct (IH Hs) as (IH1 & IH2 & IH3).
    assert (E : bytes_fromhex (String c (String d s))
                = Ok (byte_of_Z (16 * h + l) :: unhex s)).
    { cbn [bytes_fromhex]. rewrite Hsp, Hh, Hl, IH1. reflexivity. }
    unfold unhex at 1 2 3. rewrite E. fold (unhex s).
    split; [reflexivity|]. split.
    + cbn [bytes_to_hex]. rewrite byte_to_Z_of_Z, IH2.
      rewrite (Z.mod_small (16 * h + l)) by lia.
      replace ((16 * h + l) / 16) with h by (apply Z.div_unique with l; lia).
      replace ((16 * h + l) mod 16) with l by (apply Z.mod_unique with h; lia).
      now rewrite Hhd, Hld.
    + cbn [String.length List.length]. lia.
Qed.

Lemma hex_to_bytes_lower (s : string) :
  lower_hex s = true -> hex_to_bytes s = Ok (unhex s).
Proof.
  intros H. destruct (unhex_spec s H) as [E _]. rewrite <- E.
  destruct s as [|c [|d s]]; [reflexivity|discriminate H|].
  cbn [lower_hex] in H. apply andb_prop in H. destruct H as [H _].
  apply andb_prop in H. destruct H as [_ Hd].
  unfold hex_to_bytes.
  destruct c as [[] [] [] [] [] [] [] []]; try reflexivity;
  destruct d as [[] [] [] [] [] [] [] []]; try reflexivity; discriminate Hd.
Qed.

Lemma hash_text_spec (s : string) :
  hash_text s = true ->
  hex_to_bytes s = Ok (unhex s) /\ bytes_fromhex s = Ok (unhex s)
  /\ bytes_to_hex (unhex s) = s /\ List.length (unhex s) = 32%nat.
Proof.
  unfold hash_text. intros H. apply andb_prop in H. destruct H as [H L].
  apply Nat.eqb_eq in L. destruct (unhex_spec s H) as (E1 & E2 & E3).
  repeat split; auto using hex_to_bytes_lower. lia.
Qed.

(** Reading a reversed 32-byte hash. *)
Lemma read_hash (data : list byte) (o : nat) (s : string) (r : list byte) :
  hash_text s = true -> skipn o data = rev (unhex s) ++ r ->
  bytes_to_hex (rev (slice data o (o + 32))) = s.
Proof.
  intros Hs H. destruct (hash_text_spec s Hs) as (_ & _ & E & L).
  rewrite (skipn_slice data o 32 _ r H) by now rewrite length_rev.
  now rewrite rev_involutive.
Qed.

Lemma lower_hex_length_fits (s : string) :
  lower_hex s = true -> fits 8 (Z.of_nat (String.length s)) = true ->
  fits 8 (Z.of_nat (List.length (unhex s))) = true.
Proof.
  intros H F. destruct (unhex_spec s H) as (_ & _ & L).
  apply fits_spec. apply fits_spec in F. lia.
Qed.

Lemma output_round_trip (o : TransactionOutput) :
  wf_output o = true ->
  exists bs, TxOut.serialize o = Ok bs /\ reads TxOut.deserialize o bs.
Proof.
  unfold wf_output. intros H.
  apply andb_prop in H. destruct H as [H Hlen].
  apply andb_prop in H. destruct H as [Hv Hs].
  destruct (unhex_spec _ Hs) as (_ & Hhex & _).
  destruct (encode_varint_reads _ (lower_hex_length_fits _ Hs Hlen))
    as (enc & Henc & _ & Hdec).
  unfold TxOut.serialize.
  rewrite (int_to_little_endian_ok _ 8 Hv), (hex_to_bytes_lower _ Hs). cbn [bind].
  rewrite Henc. cbn [bind].
  eexists; split; [reflexivity|]. intros data offset rest Hsk.
  rewrite <- !app_assoc in Hsk.
  unfold TxOut.deserialize.
  rewrite (read_int _ _ 8 _ _ Hv Hsk).
  apply skipn_step in Hsk. rewrite le_bytes_length in Hsk.
  rewrite (Hdec _ _ _ Hsk). cbn [bind].
  apply skipn_step in Hsk.
  rewrite Nat2Z.id.
  rewrite (skipn_slice _ _ _ _ _ Hsk eq_refl), Hhex.
  destruct o as [v s]. cbn [value pubkey_script]. do 2 f_equal.
  rewrite !length_app, le_bytes_length. lia.
Qed.

Lemma script_bytes_lower (script : string) :
  lower_hex script = true ->
  match script with
  | EmptyString => Ok []
  | String c s => hex_to_bytes (String c s)
  end = Ok (unhex script).
Proof. intros H. rewrite <- (hex_to_bytes_lower _ H). now destruct script. Qed.

Lemma input_round_trip (i : TransactionInput) :
  wf_input i = true ->
  exists bs, TxIn.serialize i = Ok bs /\ reads TxIn.deserialize i bs.
Proof.
  unfold wf_input. intros H.
  apply andb_prop in H. destruct H as [H Hq].
  apply andb_prop in H. destruct H as [H Hlen].
  apply andb_prop in H. destruct H as [H Hs].
  apply andb_prop in H. destruct H as [Ht Hi].
  destruct (hash_text_spec _ Ht) as (_ & Htx & _ & Htl).
  destruct (unhex_spec _ Hs) as (_ & Hhex & Hsl).
  destruct (encode_varint_reads _ (lower_hex_length_fits _ Hs Hlen))
    as (enc & Henc & _ & Hdec).
  unfold TxIn.serialize.
  rewrite Htx. cbn [bind].
  rewrite (int_to_little_endian_ok _ 4 Hi). cbn [bind].
  rewrite (script_bytes_lower _ Hs). cbn [bind]. rewrite Henc. cbn [bind].
  rewrite (int_to_little_endian_ok _ 4 Hq). cbn [bind].
  eexists; split; [reflexivity|]. intros data offset rest Hsk.
  rewrite <- !app_assoc in Hsk.
  unfold TxIn.deserialize.
  rewrite (read_hash _ _ _ _ Ht Hsk).
  apply skipn_step in Hsk. rewrite length_rev, Htl in Hsk.
  rewrite (read_int _ _ 4 _ _ Hi Hsk).
  apply skipn_step in Hsk. rewrite le_bytes_length in Hsk.
  rewrite (Hdec _ _ _ Hsk). cbn [bind].
  apply skipn_step in Hsk.
  rewrite Nat2Z.id.
  rewrite (skipn_slice _ _ _ _ _ Hsk eq_refl), Hhex.
  apply skipn_step in Hsk.
  assert (Hq' : little_endian_to_int
                  (slice data (offset + 32 + 4 + List.length enc
                               + List.length (unhex (signature_script i)))
                         (offset + 32 + 4 + List.length enc
                          + List.length (unhex (signature_script i)) + 4))
                = sequence i).
  { apply read_int with rest; assumption. }
  rewrite Hq'.
  assert (Hs' : (if 0 <? Z.of_nat (List.length (unhex (signature_script i)))
                 then signature_script i else EmptyString) = signature_script i).
  { destruct (Z.ltb_spec 0 (Z.of_nat (List.length (unhex (signature_script i)))));
      [reflexivity|].
    destruct (signature_script i); [reflexivity|]. cbn [String.length] in Hsl. lia. }
  rewrite Hs'.
  destruct i as [t x s q]. cbn [previous_txid previous_output_index signature_script sequence].
  do 2 f_equal.
  rewrite !length_app, length_rev, !le_bytes_length. cbn in Htl. rewrite Htl. lia.
Qed.

Section Sequences.

Context {A : Type} (ser : A -> result (list byte))
  (de : list byte -> nat -> result (A * nat)) (wf : A -> bool).
Hypothesis item_round_trip :
  forall x, wf x = true -> exists bs, ser x = Ok bs /\ reads de x bs.

Lemma sequence_round_trip (l : list A) :
  forallb wf l = true ->
  exists bs, Tx.serialize_all ser l = Ok bs /\
    forall data o rest, skipn o data = bs ++ rest ->
      Tx.deserialize_all de (List.length l) data o = Ok (l, (o + List.length bs)%nat).
Proof.
  induction l as [|x t IH]; intros H.
  - exists []. split; [reflexivity|]. intros data o rest _. cbn. now rewrite Nat.add_0_r.
  - cbn [forallb] in H. apply andb_prop in H. destruct H as [Hx Ht].
    destruct (item_round_trip x Hx) as (b & Hb & Hread).
    destruct (IH Ht) as (r & Hr & Hrest).
    exists (b ++ r). split; [cbn [Tx.serialize_all]; now rewrite Hb, Hr|].
    intros data o rest Hsk. rewrite <- app_assoc in Hsk.
    cbn [Tx.deserialize_all List.length]. rewrite (Hread _ _ _ Hsk). cbn [bind].
    apply skipn_step in Hsk. rewrite (Hrest _ _ _ Hsk). cbn [bind].
    rewrite length_app. do 2 f_equal. lia.
Qed.

End Sequences.

Lemma transaction_round_trip (tx : Transaction) :
  wf_transaction tx = true ->
  exists bs, Tx.serialize tx = Ok bs /\ reads Tx.deserialize tx bs.
Proof.
  unfold wf_transaction. intros H.
  apply andb_prop in H. destruct H as [H Hl].
  apply andb_prop in H. destruct H as [H Ho].
  apply andb_prop in H. destruct H as [H Hno].
  apply andb_prop in H. destruct H as [H Hi].
  apply andb_prop in H. destruct H as [Hv Hni].
  destruct (encode_varint_reads _ Hni) as (ni & Eni & _ & Dni).
  destruct (encode_varint_reads _ Hno) as (no & Eno & _ & Dno).
  destruct (sequence_round_trip _ _ _ input_round_trip _ Hi) as (ins & Eins & Dins).
  destruct (sequence_round_trip _ _ _ output_round_trip _ Ho) as (outs & Eouts & Douts).
  unfold Tx.serialize.
  rewrite (int_to_little_endian_ok _ 4 Hv). cbn [bind].
  rewrite Eni. cbn [bind]. rewrite Eins. cbn [bind].
  rewrite Eno. cbn [bind]. rewrite Eouts. cbn [bind].
  rewrite (int_to_little_endian_ok _ 4 Hl). cbn [bind].
  eexists; split; [reflexivity|]. intros data offset rest Hsk.
  rewrite <- !app_assoc in Hsk.
  unfold Tx.deserialize.
  rewrite (read_int _ _ 4 _ _ Hv Hsk).
  apply skipn_step in Hsk. rewrite le_bytes_length in Hsk.
  rewrite (Dni _ _ _ Hsk). cbn [bind].
  apply skipn_step in Hsk. rewrite Nat2Z.id.
  rewrite (Dins _ _ _ Hsk). cbn [bind].
  apply skipn_step in Hsk.
  rewrite (Dno _ _ _ Hsk). cbn [bind].
  apply skipn_step in Hsk. rewrite Nat2Z.id.
  rewrite (Douts _ _ _ Hsk). cbn [bind].
  apply skipn_step in Hsk.
  rewrite (read_int _ _ 4 _ _ Hl Hsk).
  destruct tx as [v i o l]. cbn [tx_version inputs outputs locktime].
  do 2 f_equal. rewrite !length_app, !le_bytes_length. lia.
Qed.

Lemma header_round_trip (h : BlockHeader) :
  wf_header h = true ->
  exists bs, Header.serialize h = Ok bs /\ List.length bs = 80%nat
             /\ reads Header.deserialize h bs.
Proof.
  unfold wf_header. intros H.
  apply andb_prop in H. destruct H as [H Hn].
  apply andb_prop in H. destruct H as [H Hd].
  apply andb_prop in H. destruct H as [H Ht].
  apply andb_prop in H. destruct H as [H Hm].
  apply andb_prop in H. destruct H as [Hv Hp].
  destruct (hash_text_spec _ Hp) as (Ep & _ & _ & Lp).
  destruct (hash_text_spec _ Hm) as (Em & _ & _ & Lm).
  unfold Header.serialize.
  rewrite (int_to_little_endian_ok _ 4 Hv). cbn [bind].
  rewrite Ep. cbn [bind]. rewrite Em. cbn [bind].
  rewrite (int_to_little_endian_ok _ 4 Ht). cbn [bind].
  rewrite (int_to_little_endian_ok _ 4 Hd). cbn [bind].
  rewrite (int_to_little_endian_ok _ 4 Hn). cbn [bind].
  assert (L : List.length
                (le_bytes 4 (version h) ++ rev (unhex (previous_block_hash h)) ++
                 rev (unhex (merkle_root h)) ++ le_bytes 4 (timestamp h) ++
                 le_bytes 4 (difficulty_bits h) ++ le_bytes 4 (nonce h)) = 80%nat).
  { rewrite !length_app, !length_rev, !le_bytes_length, Lp, Lm. reflexivity. }
  eexists; split; [reflexivity|]. split; [exact L|]. intros data offset rest Hsk.
  unfold Header.deserialize.
  pose proof (skipn_room _ _ _ _ Hsk) as Hroom. rewrite L in Hroom.
  destruct (Nat.ltb_spec (List.length data - offset) 80); [lia|].
  rewrite L. clear L Hroom.
  rewrite <- !app_assoc in Hsk.
  rewrite (read_int _ _ 4 _ _ Hv Hsk).
  apply skipn_step in Hsk. rewrite le_bytes_length in Hsk.
  rewrite (read_hash _ _ _ _ Hp Hsk).
  apply skipn_step in Hsk. rewrite length_rev, Lp in Hsk.
  rewrite (read_hash _ _ _ _ Hm Hsk).
  apply skipn_step in Hsk. rewrite length_rev, Lm in Hsk.
  rewrite (read_int _ _ 4 _ _ Ht Hsk).
  apply skipn_step in Hsk. rewrite le_bytes_length in Hsk.
  rewrite (read_int _ _ 4 _ _ Hd Hsk).
  apply skipn_step in Hsk. rewrite le_bytes_length in Hsk.
  assert (Hn' : little_endian_to_int
                  (slice data (offset + 4 + 32 + 32 + 4 + 4)
                         (offset + 4 + 32 + 32 + 4 + 4 + 4)) = nonce h)
    by (apply read_int with rest; assumption).
  rewrite Hn'.
  destruct h. cbn. do 2 f_equal. lia.
Qed.

Lemma block_round_trip (b : Block) :
  wf_block b = true ->
  exists bs, serialize_block b = Ok bs
             /\ reads deserialize_block (without_height b) bs.
Proof.
  unfold wf_block. intros H.
  apply andb_prop in H. destruct H as [H Ht].
  apply andb_prop in H. destruct H as [Hh Hn].
  destruct (header_round_trip _ Hh) as (hb & Eh & Lh & Dh).
  destruct (encode_varint_reads _ Hn) as (n & En & _ & Dn).
  destruct (sequence_round_trip _ _ _ transaction_round_trip _ Ht) as (txs & Etxs & Dtxs).
  unfold serialize_block. rewrite Eh. cbn [bind]. rewrite En. cbn [bind].
  rewrite Etxs. cbn [bind].
  eexists; split; [reflexivity|]. intros data offset rest Hsk.
  rewrite <- !app_assoc in Hsk.
  unfold deserialize_block. rewrite (Dh _ _ _ Hsk). cbn [bind].
  apply skipn_step in Hsk.
  rewrite (Dn _ _ _ Hsk). cbn [bind].
  apply skipn_step in Hsk. rewrite Nat2Z.id.
  rewrite (Dtxs _ _ _ Hsk). cbn [bind].
  unfold without_height. do 2 f_equal. rewrite !length_app. lia.
Qed.

Lemma reads_whole {A : Type} (de : list byte -> nat -> result (A * nat))
    (x : A) (bs : list byte) :
  reads de x bs -> de bs 0%nat = Ok (x, List.length bs).
Proof. intros H. apply (H bs 0%nat []). cbn. now rewrite app_nil_r. Qed.

(** C8, for values in the form the wire format keeps.  A well-formed
    header, input, output, transaction or block is serialized without
    error, and deserializing the bytes gives the value back, field by
    field, together with the number of bytes written.  Well formed:
    integers within their field width, hashes as 64 lowercase hex digits,
    scripts as lowercase hex digits in pairs, with no white space between
    them, counts that fit a varint.  A block comes back without its height,
    which is not part of the wire format. *)
Theorem C8_serialization_round_trip :
  (forall h : BlockHeader, wf_header h = true ->
     exists bs, Header.serialize h = Ok bs
                /\ Header.deserialize bs 0 = Ok (h, List.length bs))
  /\ (forall i : TransactionInput, wf_input i = true ->
        exists bs, TxIn.serialize i = Ok bs
                   /\ TxIn.deserialize bs 0 = Ok (i, List.length bs))
  /\ (forall o : TransactionOutput, wf_output o = true ->
        exists bs, TxOut.serialize o = Ok bs
                   /\ TxOut.deserialize bs 0 = Ok (o, List.length bs))
  /\ (forall tx : Transaction, wf_transaction tx = true ->
        exists bs, Tx.serialize tx = Ok bs
                   /\ Tx.deserialize bs 0 = Ok (tx, List.length bs))
  /\ (forall b : Block, wf_block b = true ->
        exists bs, serialize_block b = Ok bs
                   /\ deserialize_block bs 0 = Ok (without_height b, List.length bs)).
Proof.
  split; [|split; [|split; [|split]]].
  - intros h H. destruct (header_round_trip h H) as (bs & E & _ & R).
    eauto using reads_whole.
  - intros i H. destruct (input_round_trip i H) as (bs & E & R).
    eauto using reads_whole.
  - intros o H. destruct (output_round_trip o H) as (bs & E & R).
    eauto using reads_whole.
  - intros tx H. destruct (transaction_round_trip tx H) as (bs & E & R).
    eauto using reads_whole.
  - intros b H. destruct (block_round_trip b H) as (bs & E & R).
    eauto using reads_whole.
Qed.

(** The theorem at the block [blk_spend], which holds a coinbase and a
    spending transaction. *)
Lemma C8_serialization_round_trip_witness :
  wf_block blk_spend = true
  /\ exists bs, serialize_block blk_spend = Ok bs
                /\ deserialize_block bs 0 = Ok (without_height blk_spend, List.length bs).
Proof.
  split; [vm_compute; reflexivity|].
  apply (proj2 (proj2 (proj2 (proj2 C8_serialization_round_trip))) blk_spend).
  vm_compute; reflexivity.
Defined.

(** C8, beyond well-formed values: a script written as two hexadecimal
    words with a space between them, the form the signature check splits
    into signature and public key, is serialized like the same digits in
    one word, without error, and deserializing the bytes gives the one
    word: the input that comes back is not the input that was written, and
    the number of bytes is the serialized length. *)
Lemma C8_counterexample :
  parses_as_signature_pair (signature_script signature_pair_input) = true
  /\ wf_input signature_pair_input = false
  /\ (exists bs,
        TxIn.serialize signature_pair_input = Ok bs
        /\ TxIn.serialize signature_word_input = Ok bs
        /\ TxIn.deserialize bs 0 = Ok (signature_word_input, List.length bs))
  /\ signature_word_input <> signature_pair_input.
Proof.
  split; [vm_compute; reflexivity|].
  split; [vm_compute; reflexivity|].
  split.
  - eexists. split; [vm_compute; reflexivity|]. split; vm_compute; reflexivity.
  - intros E. apply (f_equal signature_script) in E. discriminate E.
Qed.

(* ================================================================== *)
(** ** Fork choice *)

Lemma dict_get_set_other {V : Type} (k k' : string) (v : V) (d : list (string * V)) :
  k <> k' -> Dict.get String.eqb k (Dict.set String.eqb k' v d) = Dict.get String.eqb k d.
Proof.
  intros Hne. apply String.eqb_neq in Hne.
  induction d as [|[k0 v0] t IH]; cbn.
  - now rewrite Hne.
  - destruct (String.eqb k' k0) eqn:E; cbn.
    + apply String.eqb_eq in E. subst k0. now rewrite Hne.
    + now rewrite IH.
Qed.

(** The walks over the block tree read the block table only. *)
Lemma get_chain_loop_ext (bc bc' : Blockchain) :
  blocks bc = blocks bc' ->
  forall fuel cur visited chain,
    Chain.get_chain_loop fuel bc cur visited chain
    = Chain.get_chain_loop fuel bc' cur visited chain.
Proof.
  intros E. induction fuel as [|n IH]; intros; cbn [Chain.get_chain_loop]; [reflexivity|].
  unfold Chain.get_block. rewrite E.
  destruct (_ || _); [reflexivity|]. destruct (existsb _ _); [reflexivity|].
  destruct (Dict.get _ _ _); [apply IH|reflexivity].
Qed.

Lemma get_chain_height_ext (bc bc' : Blockchain) :
  blocks bc = blocks bc' -> best_chain_tip bc = best_chain_tip bc' ->
  Chain.get_chain_height bc = Chain.get_chain_height bc'.
Proof.
  intros E T. unfold Chain.get_chain_height, Chain.get_chain_tip, Chain.get_chain,
    Chain.get_block. rewrite <- E, <- T.
  destruct (best_chain_tip bc); [|reflexivity].
  rewrite (get_chain_loop_ext bc bc' E). reflexivity.
Qed.

Lemma expected_height_of_ext (bc bc' : Blockchain) (prev : string) :
  blocks bc = blocks bc' -> best_chain_tip bc = best_chain_tip bc' ->
  expected_height_of bc prev = expected_height_of bc' prev.
Proof.
  intros E T. unfold expected_height_of, Chain.get_block.
  rewrite <- E, (get_chain_height_ext bc bc' E T). reflexivity.
Qed.

Lemma chain_hashes_ext (bc bc' : Blockchain) :
  blocks bc = blocks bc' ->
  forall fuel cur, chain_hashes fuel bc cur = chain_hashes fuel bc' cur.
Proof.
  intros E. induction fuel as [|n IH]; intros; cbn [chain_hashes]; [reflexivity|].
  unfold Chain.get_block. rewrite E.
  destruct (_ || _); [reflexivity|].
  destruct (Dict.get _ _ _); [now rewrite IH|reflexivity].
Qed.

Lemma first_common_ext (bc bc' : Blockchain) :
  blocks bc = blocks bc' ->
  forall fuel l cur, first_common fuel bc l cur = first_common fuel bc' l cur.
Proof.
  intros E. induction fuel as [|n IH]; intros; cbn [first_common]; [reflexivity|].
  unfold Chain.get_block. rewrite E.
  destruct (_ || _); [reflexivity|]. destruct (existsb _ _); [reflexivity|].
  destruct (Dict.get _ _ _); [apply IH|reflexivity].
Qed.

Lemma find_common_ancestor_ext (bc bc' : Blockchain) (x y : string) :
  blocks bc = blocks bc' ->
  _find_common_ancestor bc x y = _find_common_ancestor bc' x y.
Proof.
  intros E. unfold _find_common_ancestor. rewrite <- E.
  rewrite (chain_hashes_ext bc bc' E).
  destruct (chain_hashes _ bc' x); cbn [bind]; [apply first_common_ext; exact E|reflexivity].
Qed.

(** A hash on the chain of [cur] is reached by the walk that collects
    the branch, within the same number of steps. *)
Lemma chain_hashes_collect (bc : Blockchain) (a : string) :
  forall fuel cur l,
    chain_hashes fuel bc cur = Ok l -> In a l ->
    exists bs, collect_branch fuel bc cur a = Ok (Some bs).
Proof.
  induction fuel as [|n IH]; intros cur l H Hin; cbn [chain_hashes] in H; [discriminate|].
  cbn [collect_branch].
  destruct (String.eqb cur a) eqn:Ea; [eauto|].
  apply String.eqb_neq in Ea.
  destruct (_ || _); [injection H as <-; destruct Hin|].
  destruct (Chain.get_block bc cur) as [blk|].
  - destruct (chain_hashes n bc _) as [rest|] eqn:Er; [|discriminate].
    cbn [bind] in H. injection H as <-. destruct Hin as [Hin|Hin]; [congruence|].
    destruct (IH _ _ Er Hin) as [bs Hbs]. rewrite Hbs. cbn [bind]. eauto.
  - injection H as <-. destruct Hin as [Hin|[]]. congruence.
Qed.

Lemma first_common_collect (bc : Blockchain) (l : list string) (a : string) :
  forall fuel cur,
    first_common fuel bc l cur = Ok (Some a) ->
    In a l /\ exists bs, collect_branch fuel bc cur a = Ok (Some bs).
Proof.
  induction fuel as [|n IH]; intros cur H; cbn [first_common] in H; [discriminate|].
  cbn [collect_branch].
  destruct (_ || _); [discriminate|].
  destruct (existsb (String.eqb cur) l) eqn:Ex.
  - injection H as <-. rewrite String.eqb_refl. split; [|eauto].
    apply existsb_exists in Ex. destruct Ex as (x & Hx & Hxe).
    apply String.eqb_eq in Hxe. now subst x.
  - destruct (Chain.get_block bc cur) as [blk|]; [|discriminate].
    destruct (IH _ H) as [Hin [bs Hbs]]. split; [exact Hin|].
    destruct (String.eqb cur a); [eauto|]. rewrite Hbs. cbn [bind]. eauto.
Qed.

(** What [_reorganize_chain] does to the best tip when it returns. *)
Lemma reorganize_tip (bc : Blockchain) (tip h : string) (r : bool) (bc' : Blockchain) :
  best_chain_tip bc = Some tip ->
  _reorganize_chain bc h = (Ok r, bc') ->
  (best_chain_tip bc' = Some h /\ exists a, _find_common_ancestor bc tip h = Ok (Some a))
  \/ (best_chain_tip bc' = Some tip /\ _find_common_ancestor bc tip h = Ok None).
Proof.
  intros Ht. unfold _reorganize_chain. rewrite Ht.
  destruct (_find_common_ancestor bc tip h) as [[a|]|e] eqn:Ef.
  - unfold _find_common_ancestor in Ef.
    destruct (chain_hashes _ bc tip) as [l|] eqn:El; [|discriminate]. cbn [bind] in Ef.
    destruct (first_common_collect _ _ _ _ _ Ef) as [Hin [new Hnew]].
    destruct (chain_hashes_collect _ _ _ _ _ El Hin) as [old Hold].
    rewrite Hold, Hnew.
    pose proof (unwind_blocks_tree old bc) as T1.
    destruct (unwind_blocks bc old) as [[u|e] bc1]; [|discriminate].
    pose proof (apply_blocks_tree (rev new) bc1) as T2.
    destruct (apply_blocks bc1 (rev new)) as [[u'|e] bc2]; [|discriminate].
    intros H. injection H as <- <-. left. split; [reflexivity|eauto].
  - intros H. injection H as <- <-. right. split; [exact Ht|reflexivity].
  - discriminate.
Qed.

Lemma extend_best_chain_tip (bc : Blockchain) (h : string) (b : Block) :
  best_chain_tip (snd (extend_best_chain bc h b)) = Some h.
Proof.
  unfold extend_best_chain.
  pose proof (connect_block_tree (set_best_chain_tip bc (Some h)) b) as H.
  destruct (connect_block _ _) as [[u|e] bc1]; cbn [snd] in *; apply H.
Qed.

Lemma detect_fork_stored (bc bc1 : Blockchain) (b : Block) (h : string) (ht : Z)
    (prev : string) :
  Header.hash (header b) = Ok h ->
  Dict.mem String.eqb h (blocks bc) = false ->
  blocks bc1 = blocks bc ->
  _detect_fork (store_block bc1 h (set_height b ht) ht prev) (set_height b ht)
  = _detect_fork bc b.
Proof.
  intros Hh Hm E. unfold _detect_fork. cbn [set_height header store_block blocks].
  destruct (String.eqb _ zero_hash); [reflexivity|].
  rewrite Hh. cbn [bind]. rewrite E, (dict_set_fresh _ _ _ Hm), existsb_app.
  cbn [existsb fst snd]. rewrite String.eqb_refl. cbn [negb andb orb].
  now rewrite orb_false_r.
Qed.

Lemma chain_height_stored (bc bc1 : Blockchain) (b : Block) (h tip : string)
    (ht : Z) (prev : string) (tip_block : Block) (best : Z) :
  Dict.mem String.eqb h (blocks bc) = false ->
  blocks bc1 = blocks bc -> best_chain_tip bc1 = Some tip ->
  Chain.get_block bc tip = Some tip_block -> _height tip_block = Some best ->
  h <> tip /\ Chain.get_chain_height (store_block bc1 h b ht prev) = best.
Proof.
  intros Hm E T Hg Hb.
  assert (Hne : h <> tip).
  { intros ->. unfold Chain.get_block in Hg. unfold Dict.mem in Hm.
    now rewrite Hg in Hm. }
  split; [exact Hne|].
  unfold Chain.get_chain_height, Chain.get_chain_tip, Chain.get_block.
  cbn [store_block best_chain_tip blocks]. rewrite T, E.
  rewrite dict_get_set_other by congruence.
  unfold Chain.get_block in Hg. now rewrite Hg, Hb.
Qed.

(** C1, as the code has it.  The fork choice compares heights.  When
    [add_block] accepts a block whose parent is not the best tip and has
    another child already, the best tip becomes the new block exactly when
    the height of the new block exceeds the height of the best tip and the
    two branches have a common ancestor in the block tree; otherwise the
    best tip stays.  The work of the branches is not looked at. *)
Theorem C1_fork_choice_by_height
    (orc : list byte -> list byte -> list byte -> result bool)
    (bc : Blockchain) (b : Block) (now : Z) (h tip : string)
    (tip_block : Block) (best : Z) (bc' : Blockchain) :
  Header.hash (header b) = Ok h ->
  best_chain_tip bc = Some tip ->
  Chain.get_block bc tip = Some tip_block ->
  _height tip_block = Some best ->
  previous_block_hash (header b) <> tip ->
  _detect_fork bc b = Ok true ->
  add_block orc bc b now = (Ok true, bc') ->
  h <> tip
  /\ (best_chain_tip bc' = Some h
      <-> best < expected_height_of bc (previous_block_hash (header b))
          /\ exists a, _find_common_ancestor bc' tip h = Ok (Some a))
  /\ (best_chain_tip bc' = Some h \/ best_chain_tip bc' = Some tip).
Proof.
  intros Hh Ht Hg Hb Hp Hf Hadd.
  unfold add_block in Hadd. rewrite Hh in Hadd.
  destruct (Dict.mem String.eqb h (blocks bc)) eqn:Hm; [discriminate|].
  pose proof (validate_block_state orc b bc now) as Hs.
  destruct (validate_block orc b bc now) as [[v|e] bc1]; [|discriminate].
  cbn [snd] in Hs.
  assert (E1 : blocks bc1 = blocks bc) by (rewrite Hs; reflexivity).
  assert (T1 : best_chain_tip bc1 = Some tip) by (rewrite Hs; exact Ht).
  rewrite (expected_height_of_ext bc1 bc) in Hadd by (rewrite ?E1, ?T1; congruence).
  set (prev := previous_block_hash (header b)) in *.
  set (height := expected_height_of bc prev) in *.
  rewrite (detect_fork_stored bc bc1 b h height prev Hh Hm E1), Hf in Hadd.
  destruct (chain_height_stored bc bc1 (set_height b height) h tip height prev
              tip_block best Hm E1 T1 Hg Hb) as [Hne Hbest].
  set (bc2 := store_block bc1 h (set_height b height) height prev) in *.
  assert (T2 : best_chain_tip bc2 = Some tip) by exact T1.
  rewrite T2 in Hadd.
  destruct (String.eqb prev tip) eqn:Ep; [apply String.eqb_eq in Ep; contradiction|].
  rewrite Hbest in Hadd.
  split; [exact Hne|].
  destruct (Z.ltb_spec best height) as [Hlt|Hge].
  - pose proof (reorganize_blocks bc2 h) as Hblocks.
    destruct (_reorganize_chain bc2 h) as [[r|e] bc3] eqn:Er; [|discriminate].
    injection Hadd as <-. cbn [snd] in Hblocks.
    rewrite (find_common_ancestor_ext bc3 bc2 tip h Hblocks).
    destruct (reorganize_tip bc2 tip h r bc3 T2 Er) as [[H1 H2]|[H1 H2]].
    + split; [|left; exact H1]. split; [intros _; split; assumption|intros _; exact H1].
    + split; [|right; exact H1]. rewrite H1, H2. split.
      * intros H. injection H as H. congruence.
      * intros [_ [a Ha]]. discriminate Ha.
  - injection Hadd as <-. rewrite T2. split; [|right; reflexivity]. split.
    + intros H. injection H as H. congruence.
    + intros [Hlt _]. lia.
Qed.

(** The theorem at [rival_9], offered when the best tip is [side_2]: its
    parent [blk_8] has the child [blk_9], its height 9 exceeds 2, the
    genesis block is the common ancestor, and it becomes the best tip. *)
Lemma C1_fork_choice_by_height_witness :
  best_chain_tip low_tip_state = Some (hash_of side_2)
  /\ best_chain_tip (snd (add_block no_crypto low_tip_state rival_9 clock))
     = Some (hash_of rival_9).
Proof.
  split; [vm_compute; reflexivity|].
  destruct (C1_fork_choice_by_height no_crypto low_tip_state rival_9 clock
              (hash_of rival_9) (hash_of side_2) (set_height side_2 2) 2
              (snd (add_block no_crypto low_tip_state rival_9 clock)))
    as (_ & Hswitch & _).
  - vm_compute; reflexivity.
  - vm_compute; reflexivity.
  - vm_compute; reflexivity.
  - reflexivity.
  - vm_compute; discriminate.
  - vm_compute; reflexivity.
  - vm_compute; reflexivity.
  - apply Hswitch. split; [vm_compute; reflexivity|].
    exists (hash_of (snd (hd (EmptyString, no_block) (blocks dev_genesis_chain)))).
    vm_compute; reflexivity.
Defined.

(** C1, the claim as stated fails: [blk_a10] and [blk_b10] are both
    accepted at height 10 on top of [blk_9]; [blk_b10] came second, on a
    side branch, and its chain has more cumulative work than the chain of
    [blk_a10], yet [blk_a10] stays the best tip. *)
Lemma C1_counterexample :
  fst (add_blocks dev_genesis_chain (main_chain ++ [blk_a10; blk_b10]))
  = repeat (Ok true) 11
  /\ chain_tips two_tips_state = [hash_of blk_a10; hash_of blk_b10]
  /\ best_chain_tip two_tips_state = Some (hash_of blk_a10)
  /\ cumulative_work two_tips_state (hash_of blk_a10) = 4295073793
  /\ cumulative_work two_tips_state (hash_of blk_b10) = 4382747996
  /\ cumulative_work two_tips_state (hash_of blk_a10)
     < cumulative_work two_tips_state (hash_of blk_b10).
Proof. vm_compute. repeat split; reflexivity. Qed.

(* ================================================================== *)
(** ** Further properties: boundary values and the varint code *)

(** X2 at the block [blk_stale_bits], offered on the chain of nine blocks. *)
Lemma rejected_block_keeps_all_but_bits_witness :
  let bc := snd (add_blocks dev_genesis_chain main_chain) in
  let bc1 := snd (validate_block no_crypto blk_stale_bits bc clock) in
  add_block no_crypto bc blk_stale_bits clock = (Ok false, bc1)
  /\ bc1 = set_difficulty_bits bc (_difficulty_bits bc1).
Proof.
  cbv zeta.
  apply (rejected_block_keeps_all_but_bits no_crypto
           (snd (add_blocks dev_genesis_chain main_chain)) blk_stale_bits clock
           (hash_of blk_stale_bits) ValidationError).
  - vm_compute; reflexivity.
  - vm_compute; reflexivity.
  - vm_compute; reflexivity.
Defined.

(** X3 at the two sides of the boundary: an output of a coinbase of height
    0 is refused at height 99 and passes at height 100. *)
Lemma validate_coinbase_maturity_rule_witness :
  let e := UTXOEntry.mk 5000000000 miner_a 0 true in
  Rules.validate_coinbase_maturity genesis_coinbase_txid 0 e 99 = Raise ValueError
  /\ Rules.validate_coinbase_maturity genesis_coinbase_txid 0 e 100 = Ok true.
Proof.
  cbv zeta. split.
  - apply (proj1 (validate_coinbase_maturity_rule genesis_coinbase_txid 0
                    (UTXOEntry.mk 5000000000 miner_a 0 true) 99 eq_refl)). reflexivity.
  - apply (proj2 (validate_coinbase_maturity_rule genesis_coinbase_txid 0
                    (UTXOEntry.mk 5000000000 miner_a 0 true) 100 eq_refl)).
    discriminate.
Defined.

(** X4.  The block reward is 50 * 10^8 satoshis halved once per 210000
    blocks (rounding down), which is zero from the 33rd halving on; at the
    heights 0, 209999, 210000 and 6930000 it is 5000000000, 5000000000,
    2500000000 and 0. *)
Theorem block_reward_schedule :
  (forall height : Z, 0 <= height ->
     get_block_reward height = Ok (5000000000 / 2 ^ (height / 210000)))
  /\ (forall height : Z, 6930000 <= height -> get_block_reward height = Ok 0)
  /\ get_block_reward 0 = Ok 5000000000
  /\ get_block_reward 209999 = Ok 5000000000
  /\ get_block_reward 210000 = Ok 2500000000
  /\ get_block_reward 6930000 = Ok 0.
Proof.
  assert (General : forall height : Z, 0 <= height ->
            get_block_reward height = Ok (5000000000 / 2 ^ (height / 210000))).
  { intros height H. unfold get_block_reward, HALVING_INTERVAL, INITIAL_REWARD.
    destruct (Z.ltb_spec height 0); [lia|].
    assert (Hh : 0 <= height / 210000) by (apply Z.div_pos; lia).
    destruct (Z.leb_spec 64 (height / 210000)) as [H64|H64].
    - f_equal. symmetry. apply Z.div_small. split; [lia|].
      apply Z.lt_le_trans with (2 ^ 64); [reflexivity|].
      apply Z.pow_le_mono_r; lia.
    - now rewrite Z.shiftr_div_pow2. }
  split; [exact General|]. split; [|repeat split; reflexivity].
  intros height H. rewrite General by lia. f_equal.
  assert (Hh : 33 <= height / 210000) by (apply Z.div_le_lower_bound; lia).
  apply Z.div_small. split; [lia|].
  apply Z.lt_le_trans with (2 ^ 33); [reflexivity|].
  apply Z.pow_le_mono_r; lia.
Qed.

(** X5.  The difficulty is recomputed at the positive multiples of the
    interval only: not at height 0, at the height of one interval, and
    not one block later. *)
Theorem should_adjust_boundaries (interval : Z) :
  1 < interval ->
  should_adjust 0 interval = false
  /\ should_adjust interval interval = true
  /\ should_adjust (interval + 1) interval = false
  /\ (forall height, should_adjust height interval = true
                     <-> 0 < height /\ height mod interval = 0).
Proof.
  intros H. unfold should_adjust. repeat split.
  - destruct (Z.leb_spec interval 0); [lia|]. rewrite Z.mod_same by lia. reflexivity.
  - destruct (Z.leb_spec (interval + 1) 0); [lia|].
    replace (interval + 1) with (1 + 1 * interval) by lia.
    rewrite Z.mod_add, Z.mod_small by lia. reflexivity.
  - destruct (Z.leb_spec height 0); [discriminate|lia].
  - destruct (Z.leb_spec height 0); [discriminate|]. now apply Z.eqb_eq.
  - intros [H1 H2]. destruct (Z.leb_spec height 0); [lia|]. now apply Z.eqb_eq.
Qed.

Lemma should_adjust_boundaries_witness :
  should_adjust 0 10 = false
  /\ should_adjust 10 10 = true
  /\ should_adjust 11 10 = false
  /\ (forall height, should_adjust height 10 = true <-> 0 < height /\ height mod 10 = 0).
Proof. apply (should_adjust_boundaries 10). reflexivity. Defined.

(** X6.  A count below 2^64 is written as a varint of 1, 3, 5 or 9 bytes,
    by its size, and read back with the number of bytes written. *)
Theorem varint_round_trip (n : Z) :
  0 <= n < 2 ^ 64 ->
  exists enc,
    encode_varint n = Ok enc
    /\ decode_varint enc 0 = Ok (n, List.length enc)
    /\ Z.of_nat (List.length enc)
       = (if n <? 0xfd then 1 else if n <=? 0xffff then 3
          else if n <=? 0xffffffff then 5 else 9).
Proof.
  intros H.
  destruct (encode_varint_reads n) as (enc & E & _ & D); [apply fits_spec; exact H|].
  exists enc. split; [exact E|]. split.
  - apply (D enc 0%nat []). cbn. now rewrite app_nil_r.
  - revert E. unfold encode_varint, int_to_little_endian.
    destruct (Z.ltb_spec n 0); [lia|].
    destruct (n <? 253); [intros E; injection E as <-; reflexivity|].
    destruct (n <=? 65535);
      [destruct (_ || _); [discriminate|]; cbn [bind]; intros E; injection E as <-; reflexivity|].
    destruct (n <=? 4294967295);
      [destruct (_ || _); [discriminate|]; cbn [bind]; intros E; injection E as <-; reflexivity|].
    destruct (_ || _); [discriminate|]; cbn [bind]; intros E; injection E as <-; reflexivity.
Qed.

Lemma varint_round_trip_witness :
  exists enc,
    encode_varint 0xfd = Ok enc
    /\ decode_varint enc 0 = Ok (0xfd, List.length enc)
    /\ Z.of_nat (List.length enc) = 3.
Proof. apply (varint_round_trip 0xfd). split; [discriminate|reflexivity]. Defined.

(* ================================================================== *)
(** ** Compact encodings: the converse *)

(** The number of bytes [target_to_compact_bits] allots to a positive
    target. *)
Lemma byte_length_bounds (t : Z) :
  0 < t ->
  let m := (bit_length t + 7) / 8 in
  1 <= m /\ 256 ^ (m - 1) <= t < 256 ^ m.
Proof.
  intros Ht m.
  assert (Hl : 0 <= Z.log2 t) by apply Z.log2_nonneg.
  assert (Hm : m = Z.log2 t / 8 + 1).
  { subst m. unfold bit_length. destruct (Z.eqb_spec t 0); [lia|].
    rewrite Z.abs_eq by lia.
    replace (Z.log2 t + 1 + 7) with (Z.log2 t + 1 * 8) by lia.
    now rewrite Z.div_add by lia. }
  assert (Hq : 0 <= Z.log2 t / 8) by (apply Z.div_pos; lia).
  pose proof (Z.mul_div_le (Z.log2 t) 8 ltac:(lia)) as Hd1.
  pose proof (Z.mul_succ_div_gt (Z.log2 t) 8 ltac:(lia)) as Hd2.
  split; [lia|]. rewrite Hm. replace (Z.log2 t / 8 + 1 - 1) with (Z.log2 t / 8) by lia.
  change 256 with (2 ^ 8). rewrite <- !Z.pow_mul_r by lia.
  destruct (Z.log2_spec t Ht) as [Hlo Hhi]. split.
  - apply Z.le_trans with (2 ^ Z.log2 t); [apply Z.pow_le_mono_r; lia|exact Hlo].
  - apply Z.lt_le_trans with (2 ^ Z.succ (Z.log2 t)); [exact Hhi|].
    apply Z.pow_le_mono_r; lia.
Qed.

Lemma compact_fields (e c : Z) :
  0 <= e < 256 -> 0 <= c < 2 ^ 23 ->
  let bits := e * 2 ^ 24 + c in
  Z.shiftr bits 24 = e /\ Z.land bits 0x7FFFFF = c /\ Z.land bits 0x800000 = 0.
Proof.
  intros He Hc bits. subst bits.
  assert (H1 : Z.shiftr (e * 2 ^ 24 + c) 24 = e).
  { rewrite Z.shiftr_div_pow2 by lia. rewrite Z.div_add_l by lia.
    rewrite Z.div_small by lia. lia. }
  assert (H2 : Z.land (e * 2 ^ 24 + c) 0x7FFFFF = c).
  { change 8388607 with (Z.ones 23). rewrite Z.land_ones by lia.
    replace (e * 2 ^ 24 + c) with (c + (2 * e) * 2 ^ 23) by lia.
    rewrite Z.mod_add by lia. apply Z.mod_small; lia. }
  split; [exact H1|]. split; [exact H2|].
  apply Z.bits_inj'. intros n Hn. rewrite Z.land_spec, Z.bits_0.
  change 8388608 with (2 ^ 23).
  destruct (Z.eq_dec n 23) as [->|Hne].
  - rewrite Z.pow2_bits_true, andb_true_r by lia.
    assert (Hb : Z.testbit (e * 2 ^ 24 + c) 23
                 = Z.testbit (Z.shiftr (e * 2 ^ 24 + c) 23) 0)
      by (rewrite Z.shiftr_spec by lia; reflexivity).
    rewrite Hb, Z.shiftr_div_pow2 by lia.
    replace (e * 2 ^ 24 + c) with (c + (2 * e) * 2 ^ 23) by lia.
    rewrite Z.div_add, Z.div_small by lia. rewrite Z.bit0_odd, Z.add_0_l.
    rewrite Z.odd_mul. reflexivity.
  - rewrite Z.pow2_bits_false by lia. apply andb_false_r.
Qed.

Lemma canonical_bits_intro (e c : Z) :
  1 <= e < 256 -> 2 ^ 15 <= c < 2 ^ 23 ->
  (e < 3 -> c mod 256 ^ (3 - e) = 0) ->
  canonical_bits (e * 2 ^ 24 + c) = true.
Proof.
  intros He Hc Hlow. unfold canonical_bits.
  destruct (compact_fields e c) as (-> & -> & ->); [lia|lia|].
  repeat (apply andb_true_intro; split); try (apply Z.ltb_lt; lia);
    try (apply Z.leb_le; lia); try reflexivity.
  destruct (Z.leb_spec 3 e); [reflexivity|]. cbn [orb]. apply Z.eqb_eq. apply Hlow. lia.
Qed.

(** What the encoder returns on a positive target is canonical. *)
Lemma target_to_compact_bits_canonical (t bits : Z) :
  0 < t < 2 ^ 23 * 256 ^ 252 ->
  target_to_compact_bits t = Ok bits -> canonical_bits bits = true.
Proof.
  intros [Ht Hmax].
  destruct (byte_length_bounds t Ht) as [Hm [Hlo Hhi]].
  set (m := (bit_length t + 7) / 8) in *.
  assert (Hm255 : m <= 255).
  { destruct (Z_le_gt_dec m 255) as [|Hgt]; [assumption|exfalso].
    assert (Hle : 256 ^ 255 <= 256 ^ (m - 1)) by (apply Z.pow_le_mono_r; lia).
    assert (Hlt : 2 ^ 23 * 256 ^ 252 < 256 ^ 255) by reflexivity.
    apply (Z.lt_irrefl t). eapply Z.lt_le_trans; [exact Hmax|].
    eapply Z.le_trans; [apply Z.lt_le_incl; exact Hlt|].
    eapply Z.le_trans; [exact Hle|exact Hlo]. }
  rewrite (target_to_compact_bits_eq t m Hm (conj Hlo Hhi)).
  intros E. injection E as <-. unfold compact_of.
  destruct (Z.leb_spec 3 m) as [H3|H3].
  - assert (Hp : 0 < 256 ^ (m - 3)) by (apply Z.pow_pos_nonneg; lia).
    assert (Hc : 2 ^ 16 <= t / 256 ^ (m - 3) < 2 ^ 24).
    { replace (256 ^ (m - 1)) with (2 ^ 16 * 256 ^ (m - 3)) in Hlo
        by (change (2 ^ 16) with (256 ^ 2); rewrite <- Z.pow_add_r by lia; f_equal; lia).
      replace (256 ^ m) with (2 ^ 24 * 256 ^ (m - 3)) in Hhi
        by (change (2 ^ 24) with (256 ^ 3); rewrite <- Z.pow_add_r by lia; f_equal; lia).
      split; [apply Z.div_le_lower_bound; lia|apply Z.div_lt_upper_bound; lia]. }
    set (c := t / 256 ^ (m - 3)) in *.
    destruct (Z_lt_le_dec c (2 ^ 23)) as [Hs|Hs].
    + clear Hmax. rewrite sign_bit_clear by lia. cbn [Z.eqb].
      rewrite compact_join by lia. apply canonical_bits_intro; lia.
    + assert (Hm254 : m <= 254).
      { destruct (Z.eq_dec m 255) as [E|]; [exfalso|lia].
        assert (c < 2 ^ 23); [|lia]. subst c. rewrite E.
        apply Z.div_lt_upper_bound; [reflexivity|].
        rewrite Z.mul_comm. exact Hmax. }
      clear Hmax.
      destruct (Z.eqb_spec (Z.land c 8388608) 0) as [E|_];
        [exfalso; revert E; apply sign_bit_set; lia|].
      rewrite Z.shiftr_div_pow2 by lia.
      assert (Hq : 2 ^ 15 <= c / 2 ^ 8 < 2 ^ 16)
        by (split; [apply Z.div_le_lower_bound; lia|apply Z.div_lt_upper_bound; lia]).
      rewrite compact_join by lia. apply canonical_bits_intro; lia.
  - clear Hmax. assert (Hcases : m = 1 \/ m = 2) by lia.
    destruct Hcases as [-> | ->].
    + change (256 ^ (1 - 1)) with 1 in Hlo. change (256 ^ 1) with 256 in Hhi.
      change (256 ^ (3 - 1)) with 65536.
      destruct (Z_lt_le_dec t 128) as [Hs|Hs].
      * rewrite sign_bit_clear by lia. cbn [Z.eqb].
        rewrite compact_join by lia. apply canonical_bits_intro; try lia.
        intros _. change (256 ^ (3 - 1)) with 65536.
        rewrite Z.mul_comm. apply Z.mod_mul. lia.
      * destruct (Z.eqb_spec (Z.land (65536 * t) 8388608) 0) as [E|_];
          [exfalso; revert E; apply sign_bit_set; lia|].
        rewrite Z.shiftr_div_pow2 by lia.
        replace (65536 * t / 2 ^ 8) with (256 * t)
          by (apply Z.div_unique_exact; lia).
        rewrite compact_join by lia. apply canonical_bits_intro; try lia.
        intros _. change (256 ^ (3 - (1 + 1))) with 256.
        rewrite Z.mul_comm. apply Z.mod_mul. lia.
    + change (256 ^ (2 - 1)) with 256 in Hlo. change (256 ^ 2) with 65536 in Hhi.
      change (256 ^ (3 - 2)) with 256.
      destruct (Z_lt_le_dec t 32768) as [Hs|Hs].
      * rewrite sign_bit_clear by lia. cbn [Z.eqb].
        rewrite compact_join by lia. apply canonical_bits_intro; try lia.
        intros _. change (256 ^ (3 - 2)) with 256.
        rewrite Z.mul_comm. apply Z.mod_mul. lia.
      * destruct (Z.eqb_spec (Z.land (256 * t) 8388608) 0) as [E|_];
          [exfalso; revert E; apply sign_bit_set; lia|].
        rewrite Z.shiftr_div_pow2 by lia.
        replace (256 * t / 2 ^ 8) with t
          by (apply Z.div_unique_exact; lia).
        rewrite compact_join by lia. apply canonical_bits_intro; lia.
Qed.

(** What the decoder returns is not negative and stays below [2 ^ 2039]. *)
Lemma compact_bits_to_target_bound (bits t : Z) :
  compact_bits_to_target bits = Ok t -> 0 <= t < 2 ^ 23 * 256 ^ 252.
Proof.
  unfold compact_bits_to_target.
  assert (Hone : 1 <= 256 ^ 252) by (apply Z.lt_pred_le, Z.pow_pos_nonneg; lia).
  assert (Hmono : forall k, 0 <= k <= 252 -> 2 ^ (8 * k) <= 256 ^ 252).
  { intros k Hk. rewrite Z.pow_mul_r by lia. change (2 ^ 8) with 256.
    apply Z.pow_le_mono_r; lia. }
  set (P := 256 ^ 252) in *. clearbody P.
  destruct (bits <=? 0); [discriminate|].
  set (e := Z.land (Z.shiftr bits 24) 255).
  set (c := Z.land bits 8388607).
  assert (He : 0 <= e < 256).
  { subst e. change 255 with (Z.ones 8). rewrite Z.land_ones by lia.
    apply Z.mod_pos_bound. lia. }
  assert (Hc : 0 <= c < 2 ^ 23).
  { subst c. change 8388607 with (Z.ones 23). rewrite Z.land_ones by lia.
    apply Z.mod_pos_bound. lia. }
  set (s := if Z.land bits 8388608 =? 0 then c else - c).
  assert (Hs : s <= c) by (subst s; destruct (_ =? _); lia).
  clearbody s c e.
  destruct (Z.leb_spec e 3) as [H3|H3].
  - rewrite Z.shiftr_div_pow2 by lia.
    assert (Hp : 0 < 2 ^ (8 * (3 - e))) by (apply Z.pow_pos_nonneg; lia).
    destruct (Z.ltb_spec (s / 2 ^ (8 * (3 - e))) 0) as [Hn|Hn];
      intros E; injection E as <-; [lia|]. split; [exact Hn|].
    apply Z.le_lt_trans with c; [|nia].
    apply Z.le_trans with (c / 2 ^ (8 * (3 - e)));
      [apply Z.div_le_mono; lia|apply Z.div_le_upper_bound; nia].
  - rewrite Z.shiftl_mul_pow2 by lia.
    assert (Hp : 0 < 2 ^ (8 * (e - 3))) by (apply Z.pow_pos_nonneg; lia).
    destruct (Z.ltb_spec (s * 2 ^ (8 * (e - 3))) 0) as [Hn|Hn];
      intros E; injection E as <-; [lia|]. split; [exact Hn|].
    assert (Hq : 2 ^ (8 * (e - 3)) <= P) by (apply Hmono; lia).
    apply Z.le_lt_trans with (c * 2 ^ (8 * (e - 3)));
      [apply Z.mul_le_mono_nonneg_r; lia|].
    apply Z.lt_le_trans with (2 ^ 23 * 2 ^ (8 * (e - 3)));
      [apply Z.mul_lt_mono_pos_r; lia|apply Z.mul_le_mono_nonneg_l; lia].
Qed.

(** X7.  Only canonical encodings survive the round trip: when decoding
    and encoding again returns [bits], then [bits] is canonical. *)
Theorem compact_round_trip_only_canonical (bits : Z) :
  (target <- compact_bits_to_target bits ;; target_to_compact_bits target) = Ok bits ->
  canonical_bits bits = true.
Proof.
  destruct (compact_bits_to_target bits) as [t|e] eqn:E; [|discriminate].
  cbn [bind]. intros H.
  pose proof (compact_bits_to_target_bound bits t E) as [H0 Hmax].
  destruct (Z.eq_dec t 0) as [->|Hne].
  - cbn in H. injection H as <-. discriminate E.
  - apply (target_to_compact_bits_canonical t bits); [|exact H].
    split; [|exact Hmax]. apply Z.le_neq. split; [exact H0|congruence].
Qed.

Lemma compact_round_trip_only_canonical_witness :
  canonical_bits 0x1f0fffff = true.
Proof. apply (compact_round_trip_only_canonical 0x1f0fffff). reflexivity. Defined.

(* ================================================================== *)
(** ** Merkle inclusion proofs *)

Lemma byte_of_Z_to_Z (b : byte) : byte_of_Z (byte_to_Z b) = b.
Proof.
  unfold byte_of_Z, byte_to_Z.
  pose proof (Byte.to_N_bounded b) as H.
  rewrite Z.mod_small by lia. rewrite N2Z.id, Byte.of_to_N. reflexivity.
Qed.

Lemma hex_digit_value (v : Z) :
  0 <= v < 16 ->
  is_ascii_space (hex_digit v) = false /\ hex_value (hex_digit v) = Some v.
Proof.
  intros H.
  assert (C : v = 0 \/ v = 1 \/ v = 2 \/ v = 3 \/ v = 4 \/ v = 5 \/ v = 6 \/ v = 7 \/
              v = 8 \/ v = 9 \/ v = 10 \/ v = 11 \/ v = 12 \/ v = 13 \/ v = 14 \/ v = 15)
    by lia.
  repeat (destruct C as [->|C]; [split; reflexivity|]). subst v. split; reflexivity.
Qed.

(** What [bytes.hex()] prints, [bytes.fromhex] reads back. *)
Lemma bytes_fromhex_to_hex (data : list byte) :
  bytes_fromhex (bytes_to_hex data) = Ok data.
Proof.
  induction data as [|b t IH]; [reflexivity|].
  cbn [bytes_to_hex bytes_fromhex].
  assert (Hb : 0 <= byte_to_Z b < 256).
  { unfold byte_to_Z. pose proof (Byte.to_N_bounded b). lia. }
  assert (Hh : 0 <= byte_to_Z b / 16 < 16)
    by (split; [apply Z.div_pos; lia|apply Z.div_lt_upper_bound; lia]).
  assert (Hl : 0 <= byte_to_Z b mod 16 < 16) by (apply Z.mod_pos_bound; lia).
  destruct (hex_digit_value _ Hh) as [-> ->].
  destruct (hex_digit_value _ Hl) as [_ ->].
  rewrite IH. cbn [bind]. rewrite <- Z.div_mod by lia.
  now rewrite byte_of_Z_to_Z.
Qed.

Lemma mapM_nth {A B : Type} (f : A -> result B) (l : list A) (ys : list B) :
  mapM f l = Ok ys ->
  List.length ys = List.length l
  /\ forall i a, nth_error l i = Some a ->
       exists b, f a = Ok b /\ nth_error ys i = Some b.
Proof.
  revert ys; induction l as [|x t IH]; intros ys H; cbn [mapM] in H.
  - injection H as <-. split; [reflexivity|]. intros [|i] a Hi; discriminate Hi.
  - destruct (f x) as [y|] eqn:Ey; [|discriminate]. cbn [bind] in H.
    destruct (mapM f t) as [ys'|]; [|discriminate]. cbn [bind] in H.
    injection H as <-. destruct (IH ys' eq_refl) as [Hlen Hnth].
    split; [cbn; now rewrite Hlen|].
    intros [|i] a Hi; cbn in Hi |- *.
    + injection Hi as <-. eauto.
    + apply Hnth. exact Hi.
Qed.

Lemma hash_pairs_length (l : list (list byte)) :
  forall n, (List.length l <= n)%nat ->
            (2 * List.length (Blk.hash_pairs l) <= List.length l + 1)%nat
            /\ (l <> [] -> Blk.hash_pairs l <> []).
Proof.
  intros n; revert l; induction n as [|n IH]; intros l H.
  - destruct l; [split; [cbn; lia|congruence]|cbn in H; lia].
  - destruct l as [|a [|b t]]; cbn [Blk.hash_pairs List.length];
      [split; [lia|congruence]|split; [lia|discriminate]|].
    destruct (IH t) as [H1 _]; [cbn in H; lia|]. split; [lia|discriminate].
Qed.

Lemma padded_cons2 (a b : list byte) (t : list (list byte)) :
  t <> [] -> MerkleTree.padded (a :: b :: t) = a :: b :: MerkleTree.padded t.
Proof.
  intros Ht. unfold MerkleTree.padded.
  change (Nat.odd (List.length (a :: b :: t))) with (Nat.odd (List.length t)).
  destruct (Nat.odd (List.length t)); [|reflexivity].
  cbn [app]. do 3 f_equal. destruct t; [congruence|reflexivity].
Qed.

(** One level up: the sibling that [get_proof] reads, and the parent at
    half the index. *)
Lemma hash_pairs_sibling :
  forall (n : nat) (l : list (list byte)) (idx : nat) (x : list byte),
    (List.length l <= n)%nat ->
    nth_error l idx = Some x ->
    exists s,
      nth_error (MerkleTree.padded l)
                (if Nat.even idx then idx + 1 else idx - 1)%nat = Some s
      /\ nth_error (Blk.hash_pairs l) (idx / 2)
         = Some (if Nat.even idx then double_sha256 (x ++ s)
                 else double_sha256 (s ++ x)).
Proof.
  induction n as [|n IH]; intros l idx x Hlen Hx.
  - destruct l; [destruct idx; discriminate Hx|cbn in Hlen; lia].
  - destruct l as [|a [|b t]].
    + destruct idx; discriminate Hx.
    + destruct idx as [|idx]; [|destruct idx; discriminate Hx].
      injection Hx as <-. exists a. split; reflexivity.
    + destruct idx as [|[|k]].
      * injection Hx as <-. exists b. split; [|reflexivity].
        unfold MerkleTree.padded. destruct (Nat.odd _); reflexivity.
      * injection Hx as <-. exists a. split; [|reflexivity].
        unfold MerkleTree.padded. destruct (Nat.odd _); reflexivity.
      * cbn [nth_error] in Hx.
        assert (Ht : t <> []) by (intros ->; destruct k; discriminate Hx).
        destruct (IH t k x) as (s & Hs & Hp); [cbn in Hlen; lia|exact Hx|].
        exists s. rewrite (padded_cons2 a b t Ht).
        change (Nat.even (S (S k))) with (Nat.even k).
        replace (S (S k) / 2)%nat with (S (k / 2))
          by (change (S (S k)) with (1 * 2 + k)%nat; rewrite Nat.div_add_l by lia; lia).
        cbn [Blk.hash_pairs nth_error]. split; [|exact Hp].
        destruct (Nat.even k) eqn:Ek.
        -- replace (S (S k) + 1)%nat with (S (S (k + 1))) by lia. exact Hs.
        -- destruct k as [|k']; [discriminate Ek|].
           replace (S (S (S k')) - 1)%nat with (S (S (S k' - 1))) by lia. exact Hs.
Qed.

Lemma proof_loop_step (layer next : list (list byte)) (rest : list (list (list byte)))
    (idx : nat) :
  MerkleTree.proof_loop (layer :: next :: rest) idx
  = match nth_error (MerkleTree.padded layer)
                    (if Nat.even idx then idx + 1 else idx - 1)%nat with
    | None => Raise IndexError
    | Some s =>
        steps <- MerkleTree.proof_loop (next :: rest) (idx / 2)%nat ;;
        Ok ((if Nat.even idx then "right"%string else "left"%string, bytes_to_hex s)
              :: steps)
    end.
Proof.
  change (MerkleTree.proof_loop (layer :: next :: rest) idx)
    with (let '(sibling_index, direction) :=
            if Nat.even idx then ((idx + 1)%nat, "right"%string)
            else ((idx - 1)%nat, "left"%string) in
          match nth_error (MerkleTree.padded layer) sibling_index with
          | None => Raise IndexError
          | Some sibling_hash =>
              steps <- MerkleTree.proof_loop (next :: rest) (idx / 2)%nat ;;
              Ok ((direction, bytes_to_hex sibling_hash) :: steps)
          end).
  destruct (Nat.even idx); reflexivity.
Qed.

(** The loop of [build_tree] ends with one node, and every node of the
    first layer is linked to it by the steps [get_proof] collects. *)
Lemma build_layers_spec :
  forall (fuel : nat) (l : list (list byte)),
    l <> [] -> (List.length l <= S fuel)%nat ->
    exists layers r,
      MerkleTree.build_layers fuel l = Ok (layers, [r])
      /\ forall idx x, nth_error l idx = Some x ->
           exists proof,
             MerkleTree.proof_loop (l :: layers) idx = Ok proof
             /\ MerkleTree.verify_loop x proof = Ok r.
Proof.
  induction fuel as [|n IH]; intros l Hne Hlen.
  - destruct l as [|a [|b t]]; [congruence| |cbn in Hlen; lia].
    exists [], a. split; [reflexivity|].
    intros [|idx] x Hx; [|destruct idx; discriminate Hx].
    injection Hx as <-. exists []. split; reflexivity.
  - destruct l as [|a [|b t]]; [congruence| |].
    + exists [], a. split; [reflexivity|].
      intros [|idx] x Hx; [|destruct idx; discriminate Hx].
      injection Hx as <-. exists []. split; reflexivity.
    + set (l := a :: b :: t) in *.
      destruct (hash_pairs_length l (List.length l) (le_n _)) as [Hhalf Hnext].
      destruct (IH (Blk.hash_pairs l)) as (layers & r & Hb & Hlink);
        [apply Hnext; discriminate|cbn [List.length] in *; lia|].
      exists (Blk.hash_pairs l :: layers), r.
      split; [cbn [MerkleTree.build_layers]; fold l; rewrite Hb; reflexivity|].
      intros idx x Hx.
      destruct (hash_pairs_sibling (List.length l) l idx x (le_n _) Hx) as (s & Hs & Hp).
      destruct (Hlink _ _ Hp) as (steps & Hsteps & Hver).
      destruct (Nat.even idx) eqn:Ev.
      * exists (("right"%string, bytes_to_hex s) :: steps). split.
        -- rewrite proof_loop_step, Ev, Hs, Hsteps. reflexivity.
        -- cbn [MerkleTree.verify_loop]. rewrite bytes_fromhex_to_hex. cbn [bind].
           exact Hver.
      * exists (("left"%string, bytes_to_hex s) :: steps). split.
        -- rewrite proof_loop_step, Ev, Hs, Hsteps. reflexivity.
        -- cbn [MerkleTree.verify_loop]. rewrite bytes_fromhex_to_hex. cbn [bind].
           exact Hver.
Qed.

(** X8.  A tree is built from every list of hex leaves, and for every
    leaf the proof [get_proof] returns is accepted by [verify_proof]
    against the root of the tree. *)
Theorem merkle_proof_verifies (hash_list : list string) (ls : list (list byte))
    (index : nat) (leaf_hash : string) :
  mapM bytes_fromhex hash_list = Ok ls ->
  nth_error hash_list index = Some leaf_hash ->
  exists tree proof root,
    (m <- MerkleTree.new hash_list ;; MerkleTree.build_tree m) = Ok tree
    /\ MerkleTree.get_proof tree (Z.of_nat index) = Ok proof
    /\ MerkleTree.get_root tree = Some root
    /\ MerkleTree.verify_proof leaf_hash proof root = Ok true.
Proof.
  intros Hls Hleaf. unfold MerkleTree.new. rewrite Hls. cbn [bind].
  destruct (mapM_nth _ _ _ Hls) as [Hlen Hnth].
  destruct (Hnth _ _ Hleaf) as (x & Hx & Hxi).
  assert (Hin : (index < List.length ls)%nat) by (apply nth_error_Some; congruence).
  assert (Hrange : (Z.of_nat index <? 0) || (Z.of_nat (List.length ls) <=? Z.of_nat index)
                   = false).
  { apply orb_false_intro; [apply Z.ltb_ge; lia|apply Z.leb_gt; lia]. }
  unfold MerkleTree.build_tree. cbn [MerkleTree.leaves].
  destruct ls as [|a [|b t]]; [cbn in Hin; lia| |].
  - destruct index as [|index]; [|cbn in Hin; lia]. cbn in Hxi. injection Hxi as <-.
    exists {| MerkleTree.leaves := [a]; MerkleTree._tree := [[a]];
              MerkleTree._root := Some a |}, [], (bytes_to_hex a).
    split; [reflexivity|]. split.
    + unfold MerkleTree.get_proof. cbn [MerkleTree._tree MerkleTree.leaves].
      rewrite Hrange. reflexivity.
    + split; [reflexivity|]. unfold MerkleTree.verify_proof. rewrite Hx. cbn [bind].
      cbn [MerkleTree.verify_loop bind]. now rewrite String.eqb_refl.
  - set (l := a :: b :: t) in *.
    destruct (build_layers_spec (List.length l) l) as (layers & r & Hb & Hlink);
      [discriminate|lia|].
    destruct (Hlink _ _ Hxi) as (proof & Hproof & Hver).
    rewrite Hb. cbn [bind].
    exists {| MerkleTree.leaves := l; MerkleTree._tree := l :: layers;
              MerkleTree._root := Some r |}, proof, (bytes_to_hex r).
    split; [reflexivity|]. split.
    + unfold MerkleTree.get_proof. cbn [MerkleTree._tree MerkleTree.leaves].
      rewrite Hrange, Nat2Z.id. exact Hproof.
    + split; [reflexivity|]. unfold MerkleTree.verify_proof. rewrite Hx. cbn [bind].
      rewrite Hver. cbn [bind]. now rewrite String.eqb_refl.
Qed.

Lemma merkle_proof_verifies_witness :
  exists tree proof root,
    (m <- MerkleTree.new ["aa"; "bb"; "cc"; "dd"; "ee"]%string ;; MerkleTree.build_tree m)
    = Ok tree
    /\ MerkleTree.get_proof tree 4 = Ok proof
    /\ MerkleTree.get_root tree = Some root
    /\ MerkleTree.verify_proof "ee" proof root = Ok true.
Proof.
  apply (merkle_proof_verifies ["aa"; "bb"; "cc"; "dd"; "ee"]%string
           [[xaa]; [xbb]; [xcc]; [xdd]; [xee]] 4 "ee"%string); reflexivity.
Defined.

(* ================================================================== *)
(** ** The UTXO set as a map from outpoints *)

Lemma uint_text_has_no_colon (d : Decimal.uint) :
  has_colon (DecimalString.NilEmpty.string_of_uint d) = false.
Proof. induction d; cbn; auto. Qed.

Lemma str_of_int_has_no_colon (n : Z) : has_colon (str_of_int n) = false.
Proof.
  unfold str_of_int, DecimalString.NilZero.string_of_int,
    DecimalString.NilZero.string_of_uint.
  destruct (Z.to_int n) as [d|d]; destruct d; cbn;
    try reflexivity; apply uint_text_has_no_colon.
Qed.

Lemma str_of_int_injective (n m : Z) : str_of_int n = str_of_int m -> n = m.
Proof.
  unfold str_of_int. intros H.
  assert (Hnn : forall z, Z.to_int z <> Decimal.Pos Decimal.Nil
                          /\ Z.to_int z <> Decimal.Neg Decimal.Nil).
  { intros [|p|p]; cbn; split; try discriminate;
      intros E; injection E as E; revert E; apply DecimalPos.Unsigned.to_uint_nonnil. }
  apply DecimalZ.to_int_inj.
  assert (E : Some (Z.to_int n) = Some (Z.to_int m)).
  { rewrite <- (DecimalString.NilZero.isi (Z.to_int n)) by apply Hnn.
    rewrite <- (DecimalString.NilZero.isi (Z.to_int m)) by apply Hnn.
    now rewrite H. }
  now injection E.
Qed.

Lemma rsplit_without_colon (s : string) :
  has_colon s = false -> rsplit_colon_pair s = None.
Proof.
  induction s as [|c rest IH]; [reflexivity|]. cbn. intros H.
  apply orb_false_elim in H. destruct H as [Hc Hr]. now rewrite (IH Hr), Hc.
Qed.

Lemma rsplit_at_last_colon (before after : string) :
  has_colon after = false ->
  rsplit_colon_pair (before ++ ":" ++ after) = Some (before, after).
Proof.
  intros H. induction before as [|c rest IH]; cbn.
  - now rewrite (rsplit_without_colon after H).
  - cbn in IH. now rewrite IH.
Qed.

Lemma make_key_injective (txid txid' : string) (index index' : Z) :
  UTXO._make_key txid index = UTXO._make_key txid' index' ->
  txid = txid' /\ index = index'.
Proof.
  unfold UTXO._make_key. intros H.
  pose proof (rsplit_at_last_colon txid (str_of_int index)
                (str_of_int_has_no_colon index)) as H1.
  pose proof (rsplit_at_last_colon txid' (str_of_int index')
                (str_of_int_has_no_colon index')) as H2.
  rewrite H, H2 in H1. injection H1 as -> Hs.
  split; [reflexivity|]. symmetry. now apply str_of_int_injective.
Qed.

Lemma dict_get_set_same {V : Type} (k : string) (v : V) (d : list (string * V)) :
  Dict.get String.eqb k (Dict.set String.eqb k v d) = Some v.
Proof.
  induction d as [|[k0 v0] t IH]; cbn.
  - now rewrite String.eqb_refl.
  - destruct (String.eqb k k0) eqn:E; cbn; [now rewrite String.eqb_refl|].
    now rewrite E.
Qed.

Lemma dict_get_remove_other {V : Type} (k k' : string) (d : list (string * V)) :
  k <> k' ->
  Dict.get String.eqb k (Dict.remove String.eqb k' d) = Dict.get String.eqb k d.
Proof.
  intros Hne. induction d as [|[k0 v0] t IH]; cbn; [reflexivity|].
  destruct (String.eqb k' k0) eqn:E; cbn.
  - apply String.eqb_eq in E. subst k0.
    apply String.eqb_neq in Hne. now rewrite Hne.
  - now rewrite IH.
Qed.

Lemma dict_get_in {V : Type} (k : string) (v : V) (d : list (string * V)) :
  Dict.get String.eqb k d = Some v -> In k (map fst d).
Proof.
  induction d as [|[k0 v0] t IH]; cbn; [discriminate|].
  destruct (String.eqb k k0) eqn:E; [apply String.eqb_eq in E; auto|auto].
Qed.

Lemma dict_get_remove_same {V : Type} (k : string) (d : list (string * V)) :
  distinct_keys d -> Dict.get String.eqb k (Dict.remove String.eqb k d) = None.
Proof.
  unfold distinct_keys. induction d as [|[k0 v0] t IH]; cbn; [reflexivity|].
  intros H. inversion H as [|? ? Hn Ht]; subst.
  destruct (String.eqb k k0) eqn:E; cbn.
  - apply String.eqb_eq in E. subst k0.
    destruct (Dict.get String.eqb k t) eqn:G; [|reflexivity].
    exfalso. apply Hn. eapply dict_get_in; eassumption.
  - rewrite E. auto.
Qed.

Lemma dict_set_distinct {V : Type} (k : string) (v : V) (d : list (string * V)) :
  distinct_keys d -> distinct_keys (Dict.set String.eqb k v d).
Proof.
  unfold distinct_keys.
  assert (Hkeys : forall d', map fst (Dict.set String.eqb k v d') = map fst d'
                             \/ map fst (Dict.set String.eqb k v d') = map fst d' ++ [k]
                                /\ ~ In k (map fst d')).
  { induction d' as [|[k0 v0] t IH]; cbn.
    - right. split; [reflexivity|tauto].
    - destruct (String.eqb k k0) eqn:E; cbn.
      + apply String.eqb_eq in E. subst k0. now left.
      + apply String.eqb_neq in E. destruct IH as [->|[-> Hn]]; [now left|right].
        split; [reflexivity|]. intros [H|H]; [congruence|auto]. }
  intros H. destruct (Hkeys d) as [->|[-> Hn]]; [exact H|]. now apply nodup_snoc.
Qed.

(** X9.  Outpoints and keys correspond one to one: the key of an outpoint
    splits at its last colon into the transaction id and the decimal
    index, whatever the id holds, so no two outpoints share a key.  On a
    set without a repeated key, [add_utxo] then [get_utxo] returns the new
    entry and leaves every other outpoint as it was; [remove_utxo] raises
    [KeyError] exactly for an outpoint that is not in the set, and
    otherwise returns the entry [get_utxo] shows and a set that lacks this
    outpoint and keeps all others. *)
Theorem utxo_set_is_a_map_from_outpoints (u : UTXOSet) (txid : string) (index : Z) :
  distinct_keys u ->
  rsplit_colon (UTXO._make_key txid index) = [txid; str_of_int index]
  /\ (forall txid' index',
        UTXO._make_key txid index = UTXO._make_key txid' index' ->
        txid = txid' /\ index = index')
  /\ (forall output height is_coinbase,
        let u' := UTXO.add_utxo u txid index output height is_coinbase in
        distinct_keys u'
        /\ UTXO.get_utxo u' txid index
           = Some (UTXOEntry.mk (value output) (pubkey_script output) height is_coinbase)
        /\ forall txid' index', (txid', index') <> (txid, index) ->
             UTXO.get_utxo u' txid' index' = UTXO.get_utxo u txid' index')
  /\ (UTXO.remove_utxo u txid index = Raise KeyError
      <-> UTXO.get_utxo u txid index = None)
  /\ (forall e u', UTXO.remove_utxo u txid index = Ok (e, u') ->
        UTXO.get_utxo u txid index = Some e
        /\ distinct_keys u'
        /\ UTXO.get_utxo u' txid index = None
        /\ forall txid' index', (txid', index') <> (txid, index) ->
             UTXO.get_utxo u' txid' index' = UTXO.get_utxo u txid' index').
Proof.
  intros Hu.
  assert (Hother : forall txid' index', (txid', index') <> (txid, index) ->
                     UTXO._make_key txid' index' <> UTXO._make_key txid index).
  { intros t i Hne E. apply make_key_injective in E. destruct E; subst. now apply Hne. }
  split.
  { unfold rsplit_colon, UTXO._make_key.
    now rewrite (rsplit_at_last_colon txid _ (str_of_int_has_no_colon index)). }
  split; [intros t i; apply make_key_injective|].
  split.
  { intros output height is_coinbase u'. subst u'. unfold UTXO.add_utxo, UTXO.get_utxo.
    split; [now apply dict_set_distinct|]. split; [apply dict_get_set_same|].
    intros t i Hne. apply dict_get_set_other. now apply Hother. }
  unfold UTXO.remove_utxo, UTXO.get_utxo. split.
  { destruct (Dict.get String.eqb (UTXO._make_key txid index) u);
      split; intros H; try reflexivity; discriminate H. }
  intros e u' H.
  destruct (Dict.get String.eqb (UTXO._make_key txid index) u) as [e0|] eqn:G;
    [|discriminate H].
  injection H as <- <-. split; [reflexivity|].
  split; [now apply dict_remove_nodup|].
  split; [now apply dict_get_remove_same|].
  intros t i Hne. apply dict_get_remove_other. now apply Hother.
Qed.

(** The theorem at the UTXO set of the development chain and the coinbase
    output of its genesis block. *)
Lemma utxo_set_is_a_map_from_outpoints_witness :
  distinct_keys (utxo_set dev_genesis_chain)
  /\ rsplit_colon (UTXO._make_key genesis_coinbase_txid 0)
     = [genesis_coinbase_txid; "0"%string]
  /\ UTXO.remove_utxo (utxo_set dev_genesis_chain) genesis_coinbase_txid 1
     = Raise KeyError.
Proof.
  assert (H : distinct_keys (utxo_set dev_genesis_chain)).
  { vm_compute. constructor; [intros []|constructor]. }
  split; [exact H|].
  destruct (utxo_set_is_a_map_from_outpoints (utxo_set dev_genesis_chain)
              genesis_coinbase_txid 0 H) as (H1 & _).
  split; [exact H1|].
  destruct (utxo_set_is_a_map_from_outpoints (utxo_set dev_genesis_chain)
              genesis_coinbase_txid 1 H) as (_ & _ & _ & H4 & _).
  apply H4. vm_compute. reflexivity.
Defined.


(* ================================================================== *)
(** ** Integers and hexadecimal text as bytes *)

Lemma byte_to_Z_range (b : byte) : 0 <= byte_to_Z b < 256.
Proof. unfold byte_to_Z. pose proof (Byte.to_N_bounded b). lia. Qed.

Lemma little_endian_to_int_range (data : list byte) :
  0 <= little_endian_to_int data < 256 ^ Z.of_nat (List.length data).
Proof.
  induction data as [|b t IH]; [cbn; lia|].
  cbn [little_endian_to_int List.length]. rewrite Nat2Z.inj_succ, Z.pow_succ_r by lia.
  pose proof (byte_to_Z_range b). lia.
Qed.

Lemma le_bytes_of_little_endian (data : list byte) :
  le_bytes (List.length data) (little_endian_to_int data) = data.
Proof.
  induction data as [|b t IH]; [reflexivity|].
  cbn [little_endian_to_int List.length le_bytes].
  pose proof (byte_to_Z_range b) as Hb. f_equal.
  - rewrite <- (byte_of_Z_to_Z b) at 2. unfold byte_of_Z.
    rewrite (Z.mul_comm 256), Z.mod_add by lia. reflexivity.
  - replace ((byte_to_Z b + 256 * little_endian_to_int t) / 256)
      with (little_endian_to_int t); [exact IH|].
    rewrite (Z.mul_comm 256), Z.div_add by lia.
    rewrite Z.div_small by lia. lia.
Qed.

(** X10.  [int_to_little_endian] and [int_to_big_endian] succeed exactly
    on the values from 0 up to [256 ^ length], with [length] bytes that
    [little_endian_to_int] and [big_endian_to_int] read back; outside that
    range they raise [OverflowError]; and every byte string is the
    encoding, at its own length, of the integer read from it. *)
Theorem endian_round_trips :
  (forall (value : Z) (length : nat),
     0 <= value < 256 ^ Z.of_nat length ->
     exists bs,
       int_to_little_endian value length = Ok bs
       /\ int_to_big_endian value length = Ok (rev bs)
       /\ List.length bs = length
       /\ little_endian_to_int bs = value
       /\ big_endian_to_int (rev bs) = value)
  /\ (forall (value : Z) (length : nat),
        ~ 0 <= value < 256 ^ Z.of_nat length ->
        int_to_little_endian value length = Raise OverflowError
        /\ int_to_big_endian value length = Raise OverflowError)
  /\ (forall data : list byte,
        int_to_little_endian (little_endian_to_int data) (List.length data) = Ok data
        /\ int_to_big_endian (big_endian_to_int data) (List.length data) = Ok data).
Proof.
  split; [|split].
  - intros value length H. exists (le_bytes length value).
    assert (F : fits (Z.of_nat length) value = true) by (apply fits_spec; exact H).
    unfold int_to_big_endian, big_endian_to_int.
    rewrite (int_to_little_endian_ok _ _ F), rev_involutive, le_bytes_length,
      (little_endian_round_trip _ _ F).
    repeat split; reflexivity.
  - intros value length H. unfold int_to_big_endian, int_to_little_endian.
    destruct (Z.ltb_spec value 0); [split; reflexivity|].
    destruct (Z.leb_spec (256 ^ Z.of_nat length) value); [split; reflexivity|lia].
  - intros data. split.
    + pose proof (little_endian_to_int_range data) as H.
      rewrite int_to_little_endian_ok by (apply fits_spec; exact H).
      now rewrite le_bytes_of_little_endian.
    + unfold int_to_big_endian, big_endian_to_int.
      pose proof (little_endian_to_int_range (rev data)) as H.
      rewrite length_rev in H.
      rewrite int_to_little_endian_ok by (apply fits_spec; exact H).
      cbn [bind]. rewrite <- (length_rev data), le_bytes_of_little_endian.
      now rewrite rev_involutive.
Qed.

Lemma bytes_to_hex_lower (data : list byte) :
  lower_hex (bytes_to_hex data) = true
  /\ String.length (bytes_to_hex data) = (2 * List.length data)%nat.
Proof.
  assert (D : forall v, 0 <= v < 16 -> is_lower_digit (hex_digit v) = true).
  { intros v H.
    assert (C : v = 0 \/ v = 1 \/ v = 2 \/ v = 3 \/ v = 4 \/ v = 5 \/ v = 6 \/ v = 7 \/
                v = 8 \/ v = 9 \/ v = 10 \/ v = 11 \/ v = 12 \/ v = 13 \/ v = 14 \/ v = 15)
      by lia.
    repeat (destruct C as [->|C]; [reflexivity|]). subst v. reflexivity. }
  induction data as [|b t [IH1 IH2]]; [split; reflexivity|].
  pose proof (byte_to_Z_range b) as Hb.
  cbn [bytes_to_hex lower_hex String.length List.length]. split; [|lia].
  rewrite !D, IH1; [reflexivity| |].
  - apply Z.mod_pos_bound. lia.
  - split; [apply Z.div_pos; lia|apply Z.div_lt_upper_bound; lia].
Qed.

(** X11.  [bytes_to_hex] prints two lowercase digits per byte and
    [hex_to_bytes] reads them back; a text of lowercase digit pairs is
    what [bytes_to_hex] prints for the bytes [hex_to_bytes] reads from
    it. *)
Theorem hex_round_trips :
  (forall data : list byte,
     hex_to_bytes (bytes_to_hex data) = Ok data
     /\ lower_hex (bytes_to_hex data) = true
     /\ String.length (bytes_to_hex data) = (2 * List.length data)%nat)
  /\ (forall text : string,
        lower_hex text = true ->
        exists data, hex_to_bytes text = Ok data /\ bytes_to_hex data = text).
Proof.
  split.
  - intros data. destruct (bytes_to_hex_lower data) as [H1 H2].
    split; [|split; assumption].
    rewrite (hex_to_bytes_lower _ H1). f_equal.
    unfold unhex. now rewrite bytes_fromhex_to_hex.
  - intros text H. exists (unhex text). split; [now apply hex_to_bytes_lower|].
    now destruct (unhex_spec text H) as (_ & E & _).
Qed.


(* ================================================================== *)
(** ** Base58 round trips *)

Lemma str_append_assoc (a b c : string) : ((a ++ b) ++ c = a ++ (b ++ c))%string.
Proof. induction a as [|x a IH]; cbn; [reflexivity|now rewrite IH]. Qed.

Lemma str_length_append (a b : string) :
  String.length (a ++ b) = (String.length a + String.length b)%nat.
Proof. induction a as [|x a IH]; cbn; [reflexivity|now rewrite IH]. Qed.

Lemma base58_index_char (d : nat) :
  (d < 58)%nat -> base58_index (base58_char (Z.of_nat d)) = Some d.
Proof.
  intros H.
  do 58 (destruct d as [|d]; [reflexivity|]). lia.
Qed.

Lemma base58_char_not_one (d : Z) : 0 < d < 58 -> Ascii.eqb (base58_char d) "1" = false.
Proof.
  intros H. destruct (Ascii.eqb (base58_char d) "1") eqn:E; [|reflexivity].
  apply Ascii.eqb_eq in E.
  pose proof (base58_index_char (Z.to_nat d) ltac:(lia)) as Hi.
  rewrite Z2Nat.id in Hi by lia. rewrite E in Hi.
  change (base58_index "1") with (Some 0%nat) in Hi. injection Hi as Hi. lia.
Qed.

Lemma base58_value_app (a b : string) (v : Z) :
  base58_value (a ++ b) v = (w <- base58_value a v ;; base58_value b w).
Proof.
  revert v; induction a as [|c a IH]; intros v; cbn [String.append base58_value bind];
    [reflexivity|].
  destruct (base58_index c); [apply IH|reflexivity].
Qed.

Lemma base58_value_ones (n : nat) (s : string) :
  base58_value (str_repeat "1" n ++ s) 0 = base58_value s 0.
Proof. induction n as [|n IH]; cbn; [reflexivity|exact IH]. Qed.

Lemma leading_ones_repeat (n : nat) (s : string) :
  leading_ones s = 0%nat -> leading_ones (str_repeat "1" n ++ s) = n.
Proof. intros H. induction n as [|n IH]; cbn; [exact H|now rewrite IH]. Qed.

(** The digits of a number: read back they give the number, and the
    first of them is not the digit zero. *)
Lemma base58_digits_spec :
  forall (fuel : nat) (num : Z) (acc : string),
    0 <= num < 58 ^ Z.of_nat fuel ->
    exists ds,
      base58_digits fuel num acc = Ok (ds ++ acc)%string
      /\ (forall v, base58_value ds v = Ok (v * 58 ^ Z.of_nat (String.length ds) + num))
      /\ (num = 0 -> ds = EmptyString)
      /\ (0 < num -> forall rest, leading_ones (ds ++ rest) = 0%nat).
Proof.
  induction fuel as [|n IH]; intros num acc H.
  - exists EmptyString. change (58 ^ Z.of_nat 0) with 1 in H.
    assert (num = 0) by lia. subst num. cbn.
    split; [reflexivity|]. split; [intros v; f_equal; lia|]. split; [reflexivity|lia].
  - cbn [base58_digits]. destruct (Z.ltb_spec 0 num) as [Hpos|Hz].
    + assert (Hq : 0 <= num / 58 < 58 ^ Z.of_nat n).
      { rewrite Nat2Z.inj_succ, Z.pow_succ_r in H by lia.
        split; [apply Z.div_pos; lia|apply Z.div_lt_upper_bound; lia]. }
      assert (Hd : 0 <= num mod 58 < 58) by (apply Z.mod_pos_bound; lia).
      destruct (IH (num / 58) (String (base58_char (num mod 58)) acc) Hq)
        as (ds & Hrun & Hval & Hzero & Hlead).
      exists (ds ++ String (base58_char (num mod 58)) EmptyString)%string.
      split; [rewrite Hrun; f_equal; now rewrite str_append_assoc|].
      split; [|split; [lia|]].
      * intros v. rewrite base58_value_app, Hval. cbn [bind base58_value].
        pose proof (base58_index_char (Z.to_nat (num mod 58)) ltac:(lia)) as Hi.
        rewrite Z2Nat.id in Hi by lia. rewrite Hi. f_equal.
        rewrite str_length_append. cbn [String.length].
        rewrite Nat2Z.inj_add, Z.pow_add_r by lia. change (58 ^ Z.of_nat 1) with 58.
        rewrite Z2Nat.id by lia. pose proof (Z.div_mod num 58). lia.
      * intros _ rest. rewrite str_append_assoc.
        destruct (Z.eq_dec (num / 58) 0) as [E|E].
        -- rewrite (Hzero E). cbn.
           rewrite base58_char_not_one; [reflexivity|].
           pose proof (Z.div_mod num 58). lia.
        -- apply Hlead. lia.
    + assert (num = 0) by lia. subst num. exists EmptyString. cbn.
      split; [reflexivity|]. split; [intros v; f_equal; lia|]. split; [reflexivity|lia].
Qed.

Lemma little_endian_to_int_app (a b : list byte) :
  little_endian_to_int (a ++ b)
  = little_endian_to_int a + 256 ^ Z.of_nat (List.length a) * little_endian_to_int b.
Proof.
  induction a as [|x a IH];
    [cbn [app List.length little_endian_to_int]; change (Z.of_nat 0) with 0;
     rewrite Z.pow_0_r; lia|].
  cbn [app List.length little_endian_to_int]. rewrite IH, Nat2Z.inj_succ, Z.pow_succ_r by lia.
  lia.
Qed.

Lemma little_endian_to_int_zeros (n : nat) : little_endian_to_int (repeat x00 n) = 0.
Proof. induction n as [|n IH]; [reflexivity|]. cbn [repeat little_endian_to_int].
  rewrite IH. reflexivity. Qed.

Lemma leading_zero_bytes_split (data : list byte) :
  exists rest,
    data = repeat x00 (leading_zero_bytes data) ++ rest
    /\ (rest = [] \/ exists b t, rest = b :: t /\ b <> x00).
Proof.
  induction data as [|b t (rest & IH1 & IH2)]; [exists []; split; [reflexivity|now left]|].
  cbn [leading_zero_bytes]. destruct (Byte.eqb b x00) eqn:E.
  - apply Byte.byte_dec_bl in E. subst b. exists rest. cbn [repeat app].
    split; [now rewrite <- IH1|exact IH2].
  - exists (b :: t). split; [reflexivity|]. right. exists b, t. split; [reflexivity|].
    intros ->. discriminate E.
Qed.

(** Reading a byte string without leading zero byte gives a number that
    needs all its bytes, and that is written back as the same string. *)
Lemma big_endian_minimal (b : byte) (t : list byte) :
  b <> x00 ->
  let num := big_endian_to_int (b :: t) in
  0 < num
  /\ int_to_big_endian num (Z.to_nat ((bit_length num + 7) / 8)) = Ok (b :: t).
Proof.
  intros Hb num.
  assert (Hlen : Z.of_nat (List.length (b :: t)) = Z.of_nat (List.length t) + 1)
    by (cbn [List.length]; lia).
  assert (Hval : num = little_endian_to_int (rev t)
                       + 256 ^ Z.of_nat (List.length t) * byte_to_Z b).
  { subst num. unfold big_endian_to_int. cbn [rev].
    rewrite little_endian_to_int_app, length_rev. cbn [little_endian_to_int]. lia. }
  pose proof (little_endian_to_int_range (rev t)) as Hr. rewrite length_rev in Hr.
  pose proof (byte_to_Z_range b) as Hbr.
  assert (Hb1 : 1 <= byte_to_Z b).
  { destruct (Z.eq_dec (byte_to_Z b) 0) as [E|]; [|lia]. exfalso. apply Hb.
    rewrite <- (byte_of_Z_to_Z b), E. reflexivity. }
  assert (Hp : 0 < 256 ^ Z.of_nat (List.length t)) by (apply Z.pow_pos_nonneg; lia).
  assert (Hbounds : 256 ^ (Z.of_nat (List.length t) + 1 - 1) <= num
                    < 256 ^ (Z.of_nat (List.length t) + 1)).
  { replace (Z.of_nat (List.length t) + 1 - 1) with (Z.of_nat (List.length t)) by lia.
    rewrite Z.pow_add_r by lia. change (256 ^ 1) with 256. nia. }
  split; [nia|].
  rewrite (byte_length_spec num (Z.of_nat (List.length t) + 1)) by (lia || exact Hbounds).
  replace (Z.to_nat (Z.of_nat (List.length t) + 1)) with (List.length (rev (b :: t)))
    by (rewrite length_rev; cbn [List.length]; lia).
  unfold int_to_big_endian.
  change num with (little_endian_to_int (rev (b :: t))).
  pose proof (little_endian_to_int_range (rev (b :: t))) as Hr'.
  rewrite int_to_little_endian_ok by (apply fits_spec; exact Hr').
  cbn [bind]. now rewrite le_bytes_of_little_endian, rev_involutive.
Qed.


Lemma str_append_empty (s : string) : (s ++ EmptyString)%string = s.
Proof. induction s as [|c s IH]; cbn; [reflexivity|now rewrite IH]. Qed.

Lemma big_endian_leading_zeros (n : nat) (rest : list byte) :
  big_endian_to_int (repeat x00 n ++ rest) = big_endian_to_int rest.
Proof.
  unfold big_endian_to_int.
  rewrite rev_app_distr, rev_repeat, little_endian_to_int_app, little_endian_to_int_zeros.
  lia.
Qed.

(** Encoding ends on every byte string with a text that decodes to the
    byte string and opens with one [1] for each leading zero byte. *)
Lemma base58_encoding (data : list byte) :
  exists text,
    base58_encode data = Ok text /\ base58_decode text = Ok data
    /\ leading_ones text = leading_zero_bytes data.
Proof.
  destruct (leading_zero_bytes_split data) as (rest & Hd & Hrest).
  set (z := leading_zero_bytes data) in *.
  set (num := big_endian_to_int data).
  assert (Hnum : num = big_endian_to_int rest)
    by (subst num; rewrite Hd; apply big_endian_leading_zeros).
  assert (Hrange : 0 <= num < 58 ^ Z.of_nat (2 * List.length data)).
  { subst num. unfold big_endian_to_int.
    pose proof (little_endian_to_int_range (rev data)) as H. rewrite length_rev in H.
    split; [lia|]. eapply Z.lt_le_trans; [apply H|].
    rewrite Nat2Z.inj_mul, Z.pow_mul_r by lia. change (58 ^ Z.of_nat 2) with 3364.
    apply Z.pow_le_mono_l. lia. }
  destruct (base58_digits_spec _ num EmptyString Hrange) as (ds & Hrun & Hval & Hzero & Hlead).
  rewrite str_append_empty in Hrun.
  assert (Hones : leading_ones ds = 0%nat).
  { destruct (Z.eq_dec num 0) as [E|E]; [now rewrite (Hzero E)|].
    rewrite <- (str_append_empty ds). apply Hlead. lia. }
  exists (str_repeat "1" z ++ ds)%string. split.
  { unfold base58_encode. fold z. fold num. now rewrite Hrun. }
  split; [|exact (leading_ones_repeat z ds Hones)].
  unfold base58_decode. rewrite (leading_ones_repeat z ds Hones), base58_value_ones, Hval.
  cbn [bind]. rewrite Z.mul_0_l, Z.add_0_l.
  destruct Hrest as [->|(b & t & -> & Hb)].
  - assert (num = 0) by (rewrite Hnum; reflexivity).
    destruct (Z.eqb_spec num 0); [|contradiction]. cbn [bind]. f_equal. symmetry. exact Hd.
  - destruct (big_endian_minimal b t Hb) as [Hpos Hback]. rewrite <- Hnum in Hpos, Hback.
    destruct (Z.eqb_spec num 0); [lia|]. rewrite Hback. cbn [bind]. f_equal. symmetry. exact Hd.
Qed.

(** X12.  [base58_encode] ends on every byte string, and [base58_decode]
    gives the byte string back, leading zero bytes included: the text
    opens with one [1] for each of them.  So no two byte strings have the
    same encoding. *)
Theorem base58_round_trip :
  (forall data : list byte,
     exists text,
       base58_encode data = Ok text /\ base58_decode text = Ok data
       /\ leading_ones text = leading_zero_bytes data)
  /\ (forall (a b : list byte) (text : string),
        base58_encode a = Ok text -> base58_encode b = Ok text -> a = b).
Proof.
  split; [exact base58_encoding|].
  intros a b text Ha Hb.
  destruct (base58_encoding a) as (ta & Ea & Da & _).
  destruct (base58_encoding b) as (tb & Eb & Db & _).
  assert (ta = text) by congruence. assert (tb = text) by congruence. subst ta tb.
  congruence.
Qed.

Lemma sha256_length (data : list byte) : List.length (SHA256.sha256 data) = 32%nat.
Proof.
  unfold SHA256.sha256.
  assert (H : forall n h p, List.length h = 8%nat ->
                            List.length (SHA256.chunks n h p) = 8%nat).
  { induction n as [|n IH]; intros h p Hh; cbn [SHA256.chunks]; [exact Hh|].
    apply IH. reflexivity. }
  specialize (H (List.length (SHA256.pad data) / 64)%nat SHA256.H0 (SHA256.pad data) eq_refl).
  destruct (SHA256.chunks _ _ _) as [|a [|b [|c [|d [|e [|f [|g [|h [|i t]]]]]]]]];
    try discriminate H. reflexivity.
Qed.

Lemma bytes_eqb_refl (a : list byte) : bytes_eqb a a = true.
Proof.
  induction a as [|x a IH]; [reflexivity|]. cbn. rewrite IH.
  now rewrite (Byte.byte_dec_lb eq_refl).
Qed.

Lemma bytes_eqb_eq (a b : list byte) : bytes_eqb a b = true -> a = b.
Proof.
  revert b; induction a as [|x a IH]; intros [|y b] H; try discriminate H; [reflexivity|].
  cbn in H. apply andb_prop in H. destruct H as [H1 H2].
  apply Byte.byte_dec_bl in H1. subst y. f_equal. now apply IH.
Qed.

(** X13.  A payload under a one-byte version is encoded by
    [base58check_encode] and returned, with the version, by
    [base58check_decode].  What the decoder accepts decodes to five bytes
    at least that end in the first four bytes of the double SHA-256 of the
    bytes before them; every other text is refused. *)
Theorem base58check_round_trip :
  (forall (version payload : list byte),
     List.length version = 1%nat ->
     exists text,
       base58check_encode version payload = Ok text
       /\ base58check_decode text = Ok (version, payload))
  /\ (forall (text : string) (version payload : list byte),
        base58check_decode text = Ok (version, payload) ->
        exists raw,
          base58_decode text = Ok raw
          /\ raw = version ++ payload ++ firstn 4 (double_sha256 (version ++ payload))
          /\ (5 <= List.length raw)%nat
          /\ (List.length version <= 1)%nat).
Proof.
  split.
  - intros version payload Hv. unfold base58check_encode.
    set (data := version ++ payload).
    set (checksum := firstn 4 (double_sha256 data)).
    assert (Hc : List.length checksum = 4%nat).
    { subst checksum. rewrite length_firstn. unfold double_sha256.
      rewrite sha256_length. reflexivity. }
    destruct (base58_encoding (data ++ checksum)) as (text & He & Hdec & _).
    exists text. split; [exact He|]. unfold base58check_decode. rewrite Hdec. cbn [bind].
    assert (Hl : List.length (data ++ checksum) = (List.length data + 4)%nat)
      by (rewrite length_app, Hc; reflexivity).
    assert (Hd1 : (1 <= List.length data)%nat)
      by (subst data; rewrite length_app, Hv; lia).
    rewrite Hl. destruct (Nat.ltb_spec (List.length data + 4) 5); [lia|].
    replace (List.length data + 4 - 4)%nat with (List.length data + 0)%nat by lia.
    rewrite firstn_app_2, skipn_app, Nat.add_0_r, skipn_all, Nat.sub_diag. cbn [firstn skipn app].
    rewrite app_nil_r. fold checksum. rewrite bytes_eqb_refl. cbn [negb].
    subst data. destruct version as [|v [|v' vs]]; try discriminate Hv. reflexivity.
  - intros text version payload Hdec. unfold base58check_decode in Hdec.
    destruct (base58_decode text) as [raw|]; [|discriminate]. cbn [bind] in Hdec.
    exists raw. split; [reflexivity|].
    destruct (Nat.ltb_spec (List.length raw) 5) as [|Hlen]; [discriminate|].
    destruct (bytes_eqb _ _) eqn:E; [|discriminate]. cbn [negb] in Hdec.
    apply bytes_eqb_eq in E. injection Hdec as <- <-.
    remember (firstn (List.length raw - 4) raw) as pwv eqn:Hp.
    assert (Hsplit : match pwv with [] => [] | a :: _ => [a] end
                     ++ match pwv with [] => [] | _ :: l => l end = pwv)
      by (destruct pwv; reflexivity).
    rewrite app_assoc, !Hsplit, <- E. subst pwv. rewrite firstn_skipn.
    split; [reflexivity|]. split; [exact Hlen|]. destruct (firstn _ raw); cbn; lia.
Qed.

Lemma base58check_round_trip_witness :
  exists text,
    base58check_encode [x00] (repeat x11 20) = Ok text
    /\ base58check_decode text = Ok ([x00], repeat x11 20).
Proof. apply (proj1 base58check_round_trip [x00] (repeat x11 20)). reflexivity. Defined.


(** ** Block rules: transaction ids and timestamps *)

Lemma duplicate_txids_spec (txs : list Transaction) (ids : list string) :
  mapM Tx.txid txs = Ok ids ->
  forall seen, exists dups,
    Rules.duplicate_txids txs seen = Ok dups
    /\ (dups = [] <-> NoDup ids /\ forall x, In x ids -> ~ In x seen).
Proof.
  revert ids. induction txs as [|tx t IH]; intros ids H seen; cbn in H.
  - injection H as <-. exists []. split; [reflexivity|].
    split; [intros _; split; [constructor|intros x []]|reflexivity].
  - destruct (Tx.txid tx) as [id|] eqn:E; [|discriminate]. cbn [bind] in H.
    destruct (mapM Tx.txid t) as [ids'|] eqn:E'; [|discriminate]. cbn [bind] in H.
    injection H as <-.
    destruct (IH ids' eq_refl (id :: seen)) as (rest & Hr & Hiff).
    cbn [Rules.duplicate_txids]. rewrite E. cbn [bind]. rewrite Hr. cbn [bind].
    destruct (existsb (String.eqb id) seen) eqn:Ex.
    + exists (id :: rest). split; [reflexivity|]. split; [discriminate|].
      intros [_ Hd]. exfalso. apply (Hd id); [now left|].
      apply existsb_exists in Ex. destruct Ex as (y & Hy & Heq).
      apply String.eqb_eq in Heq. now subst.
    + exists rest. split; [reflexivity|].
      assert (Hns : ~ In id seen).
      { intros Hin. assert (existsb (String.eqb id) seen = true) as C
          by (apply existsb_exists; exists id; split; [exact Hin|apply String.eqb_refl]).
        congruence. }
      rewrite Hiff. split.
      * intros [Hnd Hd]. split.
        -- constructor; [|exact Hnd]. intros Hin. apply (Hd id Hin). now left.
        -- intros x [<-|Hin]; [exact Hns|]. intros Hs. apply (Hd x Hin). now right.
      * intros [Hnd Hd]. inversion Hnd as [|? ? Hni Hnd']; subst. split; [exact Hnd'|].
        intros x Hin [<-|Hs]; [now apply Hni|]. apply (Hd x); [now right|exact Hs].
Qed.

(** X14.  Over transactions whose ids can be computed,
    [validate_no_duplicate_txids] returns [True] when the ids are pairwise
    different and raises [ValueError] when two of them are equal. *)
Theorem no_duplicate_txids_iff_distinct (txs : list Transaction) (ids : list string) :
  mapM Tx.txid txs = Ok ids ->
  (NoDup ids -> Rules.validate_no_duplicate_txids txs = Ok true)
  /\ (~ NoDup ids -> Rules.validate_no_duplicate_txids txs = Raise ValueError).
Proof.
  intros H. destruct (duplicate_txids_spec txs ids H []) as (dups & Hd & Hiff).
  unfold Rules.validate_no_duplicate_txids. rewrite Hd. cbn [bind]. split.
  - intros Hnd. destruct Hiff as [_ Hb]. rewrite Hb; [reflexivity|].
    split; [exact Hnd|intros x _ []].
  - intros Hnd. destruct dups as [|d ds]; [|reflexivity].
    exfalso. apply Hnd. now apply (proj1 Hiff).
Qed.

Lemma no_duplicate_txids_iff_distinct_witness :
  Rules.validate_no_duplicate_txids [spend_genesis 1; spend_genesis 2] = Ok true
  /\ Rules.validate_no_duplicate_txids [spend_genesis 1; spend_genesis 1] = Raise ValueError.
Proof.
  split.
  - pose (txs := [spend_genesis 1; spend_genesis 2]).
    pose (ids := match mapM Tx.txid txs with Ok l => l | Raise _ => [] end).
    assert (H : mapM Tx.txid txs = Ok ids) by (vm_compute; reflexivity).
    apply (proj1 (no_duplicate_txids_iff_distinct txs ids H)).
    vm_compute. constructor; [intros [E|[]]; discriminate E|].
    constructor; [intros []|constructor].
  - pose (txs := [spend_genesis 1; spend_genesis 1]).
    pose (ids := match mapM Tx.txid txs with Ok l => l | Raise _ => [] end).
    assert (H : mapM Tx.txid txs = Ok ids) by (vm_compute; reflexivity).
    apply (proj2 (no_duplicate_txids_iff_distinct txs ids H)).
    vm_compute. intros Hn. inversion Hn as [|? ? Hni _]. apply Hni. now left.
Defined.

Lemma insert_sorted_length (x : Z) (l : list Z) :
  List.length (insert_sorted x l) = S (List.length l).
Proof.
  induction l as [|y t IH]; [reflexivity|]. cbn. destruct (x <? y); cbn; [reflexivity|].
  now rewrite IH.
Qed.

Lemma insert_sorted_earlier (t x : Z) (l : list Z) :
  earlier_than t (insert_sorted x l) = earlier_than t (x :: l).
Proof.
  unfold earlier_than. induction l as [|y l IH]; [reflexivity|].
  cbn [insert_sorted]. destruct (x <? y); [reflexivity|].
  cbn [filter] in *. destruct (y <? t), (x <? t); cbn [List.length] in *; lia.
Qed.

Lemma insert_sorted_in (x y : Z) (l : list Z) :
  In y (insert_sorted x l) <-> y = x \/ In y l.
Proof.
  induction l as [|z l IH]; cbn; [intuition|].
  destruct (x <? z); cbn; [intuition|]. rewrite IH. intuition.
Qed.

Lemma insert_sorted_sorted (x : Z) (l : list Z) :
  Sorted.StronglySorted Z.le l -> Sorted.StronglySorted Z.le (insert_sorted x l).
Proof.
  induction 1 as [|y l Hs IH Hall]; cbn.
  - constructor; constructor.
  - destruct (Z.ltb_spec x y).
    + constructor; [now constructor|]. constructor; [lia|].
      eapply Forall_impl; [|exact Hall]. cbn. intros; lia.
    + constructor; [exact IH|]. apply Forall_forall. intros z Hz.
      apply insert_sorted_in in Hz. destruct Hz as [->|Hz]; [exact H|].
      now apply (proj1 (Forall_forall _ _) Hall).
Qed.

Lemma sorted_acc_spec (t : Z) (l acc : list Z) :
  Sorted.StronglySorted Z.le acc ->
  let s := fold_left (fun acc x => insert_sorted x acc) l acc in
  Sorted.StronglySorted Z.le s
  /\ List.length s = (List.length l + List.length acc)%nat
  /\ earlier_than t s = (earlier_than t l + earlier_than t acc)%nat
  /\ (forall y, In y s <-> In y l \/ In y acc).
Proof.
  revert acc. induction l as [|x l IH]; intros acc Hacc; cbn [fold_left].
  - cbn. repeat split; try assumption; intuition.
  - destruct (IH (insert_sorted x acc) (insert_sorted_sorted x acc Hacc))
      as (H1 & H2 & H3 & H4).
    cbn zeta in *. split; [exact H1|]. split; [|split].
    + rewrite H2, insert_sorted_length. cbn. lia.
    + rewrite H3, insert_sorted_earlier. unfold earlier_than. cbn [filter].
      destruct (x <? t); cbn [List.length]; lia.
    + intros y. rewrite H4, insert_sorted_in. cbn. intuition.
Qed.

Lemma sorted_nth_earlier (t : Z) (s : list Z) :
  Sorted.StronglySorted Z.le s ->
  forall k, (k < List.length s)%nat ->
    (nth k s 0 < t <-> (k < earlier_than t s)%nat).
Proof.
  unfold earlier_than.
  induction 1 as [|a s Hs IH Hall]; intros k Hk; [cbn in Hk; lia|].
  cbn [filter]. destruct (Z.ltb_spec a t) as [Hlt|Hge].
  - destruct k as [|k]; cbn [nth List.length]; [split; [lia|intros _; exact Hlt]|].
    cbn in Hk. rewrite (IH k) by lia. lia.
  - assert (E : filter (fun x => x <? t) s = []).
    { clear - Hall Hge. induction Hall as [|b s Hab _ IHs]; [reflexivity|].
      cbn. destruct (Z.ltb_spec b t); [lia|exact IHs]. }
    rewrite E. cbn [List.length]. split; [|lia]. intros Hn. exfalso.
    destruct k as [|k]; cbn [nth] in Hn; [lia|].
    cbn in Hk. assert (In (nth k s 0) s) by (apply nth_In; lia).
    pose proof (proj1 (Forall_forall _ _) Hall _ H). lia.
Qed.

Lemma calculate_median_time_spec (timestamps : list Z) :
  timestamps <> [] ->
  exists m,
    Rules.calculate_median_time timestamps = Ok m
    /\ In m timestamps
    /\ forall t, m < t <-> (List.length timestamps <= 2 * earlier_than t timestamps)%nat.
Proof.
  intros Hne.
  assert (Hs : forall t,
    let s := sorted timestamps in
    Sorted.StronglySorted Z.le s
    /\ List.length s = List.length timestamps
    /\ earlier_than t s = earlier_than t timestamps
    /\ (forall y, In y s <-> In y timestamps)).
  { intros t. destruct (sorted_acc_spec t timestamps [] (Sorted.SSorted_nil _))
      as (H1 & H2 & H3 & H4). cbn zeta in *. fold (sorted timestamps) in *.
    split; [exact H1|]. split; [now rewrite H2, Nat.add_0_r|].
    split; [now rewrite H3, Nat.add_0_r|]. intros y. rewrite H4. cbn. intuition. }
  set (n := List.length timestamps).
  assert (Hn : (0 < n)%nat) by (subst n; destruct timestamps; [congruence|cbn; lia]).
  set (k := ((n - 1) / 2)%nat).
  assert (Hk : (k < n)%nat).
  { subst k. apply Nat.le_lt_trans with (n - 1)%nat; [apply Nat.Div0.div_le_upper_bound; lia|lia]. }
  assert (E : Rules.calculate_median_time timestamps = Ok (nth k (sorted timestamps) 0)).
  { unfold Rules.calculate_median_time. destruct timestamps as [|a l]; [congruence|].
    destruct (Hs 0) as (_ & Hl & _). cbn zeta in Hl. rewrite Hl. fold n.
    assert (Hdm := Nat.div_mod_eq n 2). assert (Hr := Nat.mod_upper_bound n 2).
    assert (Hk2 := Nat.div_mod_eq (n - 1) 2). assert (Hr2 := Nat.mod_upper_bound (n - 1) 2).
    fold k in Hk2.
    destruct (Nat.eqb_spec (n mod 2) 1) as [Ho|Ho]; do 2 f_equal; lia. }
  exists (nth k (sorted timestamps) 0). split; [exact E|].
  destruct (Hs 0) as (_ & Hl & _ & Hin). cbn zeta in *. split.
  - apply Hin, nth_In. lia.
  - intros t. destruct (Hs t) as (Hsorted & _ & Hc & _). cbn zeta in *.
    rewrite (sorted_nth_earlier t _ Hsorted k) by lia. rewrite Hc. fold n.
    assert (Hk2 := Nat.div_mod_eq (n - 1) 2). assert (Hr2 := Nat.mod_upper_bound (n - 1) 2).
    fold k in Hk2. lia.
Qed.

(** X15.  [calculate_median_time] raises [ValueError] on the empty list;
    on any other list it returns one of the timestamps, the one that a
    time [t] exceeds exactly when at least half of the timestamps are
    earlier than [t].  So [validate_timestamp] refuses a block exactly
    when eleven or more previous timestamps are known and fewer than six
    of the last eleven are earlier than the block's, or when the block's
    timestamp is more than two hours after the current time; with fewer
    than eleven previous timestamps only the second test applies. *)
Theorem median_time_past_rule :
  Rules.calculate_median_time [] = Raise ValueError
  /\ (forall timestamps : list Z,
        timestamps <> [] ->
        exists m,
          Rules.calculate_median_time timestamps = Ok m
          /\ In m timestamps
          /\ forall t, m < t
               <-> (List.length timestamps <= 2 * earlier_than t timestamps)%nat)
  /\ (forall (block_timestamp : Z) (previous_timestamps : list Z) (current_time : Z),
        Rules.validate_timestamp block_timestamp previous_timestamps current_time
        = if ((11 <=? List.length previous_timestamps)%nat
              && (earlier_than block_timestamp
                    (skipn (List.length previous_timestamps - 11) previous_timestamps)
                  <? 6)%nat)
             || (current_time + 7200 <? block_timestamp)
          then Raise ValueError else Ok true).
Proof.
  split; [reflexivity|]. split; [exact calculate_median_time_spec|].
  intros ts prev now. unfold Rules.validate_timestamp, MEDIAN_TIME_PAST_BLOCKS.
  change MAX_FUTURE_BLOCK_TIME with 7200.
  destruct (Nat.leb_spec 11 (List.length prev)) as [Hl|Hl]; cbn [andb orb bind];
    [|destruct (now + 7200 <? ts); reflexivity].
  set (recent := skipn (List.length prev - 11) prev).
  assert (Hlen : List.length recent = 11%nat) by (subst recent; rewrite length_skipn; lia).
  assert (Hne : recent <> []) by (intros E; rewrite E in Hlen; discriminate).
  destruct (calculate_median_time_spec recent Hne) as (m & Hm & _ & Hiff).
  rewrite Hm. cbn [bind]. specialize (Hiff ts). rewrite Hlen in Hiff.
  destruct (Z.leb_spec ts m), (Nat.ltb_spec (earlier_than ts recent) 6);
    cbn [bind orb]; try lia; destruct (now + 7200 <? ts); reflexivity.
Qed.


(** ** What the compact encoding loses, and the next difficulty *)

Lemma decode_fields (e c : Z) :
  0 <= e < 256 -> 0 < c < 2 ^ 23 ->
  compact_bits_to_target (e * 2 ^ 24 + c)
  = Ok (if e <=? 3 then c / 2 ^ (8 * (3 - e)) else c * 2 ^ (8 * (e - 3))).
Proof.
  intros He Hc. unfold compact_bits_to_target.
  destruct (compact_fields e c He ltac:(lia)) as (H1 & H2 & H3). cbn zeta in *.
  destruct (Z.leb_spec (e * 2 ^ 24 + c) 0) as [Hn|_]; [lia|].
  change 0x7FFFFF with 8388607 in *. change 0x800000 with 8388608 in *.
  rewrite H1, H2, H3. cbn [Z.eqb].
  replace (Z.land e 255) with e
    by (change 255 with (Z.ones 8); rewrite Z.land_ones by lia;
        symmetry; apply Z.mod_small; lia).
  destruct (Z.leb_spec e 3) as [H|H].
  - rewrite Z.shiftr_div_pow2 by lia.
    assert (0 < 2 ^ (8 * (3 - e))) by (apply Z.pow_pos_nonneg; lia).
    destruct (Z.ltb_spec (c / 2 ^ (8 * (3 - e))) 0) as [Hlt|_]; [|reflexivity].
    assert (0 <= c / 2 ^ (8 * (3 - e))) by (apply Z.div_pos; lia). lia.
  - rewrite Z.shiftl_mul_pow2 by lia.
    assert (0 < 2 ^ (8 * (e - 3))) by (apply Z.pow_pos_nonneg; lia).
    destruct (Z.ltb_spec (c * 2 ^ (8 * (e - 3))) 0) as [Hlt|_]; [|reflexivity].
    assert (0 <= c * 2 ^ (8 * (e - 3))) by (apply Z.mul_nonneg_nonneg; lia). lia.
Qed.

Lemma pow2_8 (k : Z) : 0 <= k -> 2 ^ (8 * k) = 256 ^ k.
Proof. intros H. rewrite Z.pow_mul_r by lia. reflexivity. Qed.

Lemma round_to_multiple (t p : Z) : 0 < p -> t / p * p = t - t mod p.
Proof. intros H. pose proof (Z.div_mod t p ltac:(lia)). lia. Qed.

(** Encoding a target and decoding the result clears the bytes of the
    target below its three (or two) leading ones. *)
Lemma encode_then_decode (t : Z) :
  0 < t < 2 ^ 23 * 256 ^ 252 ->
  exists bits k,
    target_to_compact_bits t = Ok bits
    /\ compact_bits_to_target bits = Ok (t - t mod 256 ^ k)
    /\ 0 <= k
    /\ (k = 0 \/ (2 ^ 23 <= t /\ 2 ^ 15 * 256 ^ k <= t)).
Proof.
  intros [Ht Hmax].
  destruct (byte_length_bounds t Ht) as [Hm [Hlo Hhi]].
  set (m := (bit_length t + 7) / 8) in *.
  assert (Hm255 : m <= 255).
  { destruct (Z_le_gt_dec m 255) as [|Hgt]; [assumption|exfalso].
    assert (Hle : 256 ^ 255 <= 256 ^ (m - 1)) by (apply Z.pow_le_mono_r; lia).
    assert (Hlt : 2 ^ 23 * 256 ^ 252 < 256 ^ 255) by reflexivity.
    apply (Z.lt_irrefl t). eapply Z.lt_le_trans; [exact Hmax|].
    eapply Z.le_trans; [apply Z.lt_le_incl; exact Hlt|].
    eapply Z.le_trans; [exact Hle|exact Hlo]. }
  rewrite (target_to_compact_bits_eq t m Hm (conj Hlo Hhi)).
  unfold compact_of.
  destruct (Z.leb_spec 3 m) as [H3|H3].
  - assert (Hp : 0 < 256 ^ (m - 3)) by (apply Z.pow_pos_nonneg; lia).
    assert (Hlo' : 2 ^ 16 * 256 ^ (m - 3) <= t).
    { replace (256 ^ (m - 1)) with (2 ^ 16 * 256 ^ (m - 3)) in Hlo
        by (change (2 ^ 16) with (256 ^ 2); rewrite <- Z.pow_add_r by lia; f_equal; lia).
      exact Hlo. }
    assert (Hhi' : t < 2 ^ 24 * 256 ^ (m - 3)).
    { replace (256 ^ m) with (2 ^ 24 * 256 ^ (m - 3)) in Hhi
        by (change (2 ^ 24) with (256 ^ 3); rewrite <- Z.pow_add_r by lia; f_equal; lia).
      exact Hhi. }
    assert (Hc : 2 ^ 16 <= t / 256 ^ (m - 3) < 2 ^ 24)
      by (split; [apply Z.div_le_lower_bound; lia|apply Z.div_lt_upper_bound; lia]).
    assert (Hround := round_to_multiple t _ Hp).
    assert (Hmod := Z.mod_pos_bound t _ Hp).
    set (c := t / 256 ^ (m - 3)) in *.
    destruct (Z_lt_le_dec c (2 ^ 23)) as [Hs|Hs].
    + clear Hmax. rewrite sign_bit_clear by lia. cbn [Z.eqb].
      rewrite compact_join by lia.
      exists (m * 2 ^ 24 + c), (m - 3). split; [reflexivity|].
      rewrite decode_fields by lia. split; [|split; [lia|]].
      * destruct (Z.leb_spec m 3) as [E|E].
        -- replace m with 3 in * by lia. change (2 ^ (8 * (3 - 3))) with 1.
           change (256 ^ (3 - 3)) with 1 in *. rewrite Z.div_1_r. f_equal. lia.
        -- rewrite pow2_8 by lia. f_equal. exact Hround.
      * destruct (Z.eq_dec m 3) as [E|E]; [left; lia|right].
        split; [|lia].
        assert (256 <= 256 ^ (m - 3)).
        { change 256 with (256 ^ 1) at 1. apply Z.pow_le_mono_r; lia. }
        nia.
    + assert (Hm254 : m <= 254).
      { destruct (Z.eq_dec m 255) as [E|]; [exfalso|lia].
        assert (c < 2 ^ 23); [|lia]. subst c. rewrite E.
        apply Z.div_lt_upper_bound; [reflexivity|].
        rewrite Z.mul_comm. exact Hmax. }
      clear Hmax.
      destruct (Z.eqb_spec (Z.land c 8388608) 0) as [E|_];
        [exfalso; revert E; apply sign_bit_set; lia|].
      rewrite Z.shiftr_div_pow2 by lia.
      assert (Hq : 2 ^ 15 <= c / 2 ^ 8 < 2 ^ 16)
        by (split; [apply Z.div_le_lower_bound; lia|apply Z.div_lt_upper_bound; lia]).
      rewrite compact_join by lia.
      exists ((m + 1) * 2 ^ 24 + c / 2 ^ 8), (m - 2). split; [reflexivity|].
      rewrite decode_fields by lia.
      assert (Hp2 : 256 ^ (m - 2) = 256 ^ (m - 3) * 256).
      { replace (m - 2) with (m - 3 + 1) by lia. rewrite Z.pow_add_r by lia. reflexivity. }
      split; [|split; [lia|right; split; [nia|]]].
      * destruct (Z.leb_spec (m + 1) 3) as [E|_]; [lia|].
        replace (m + 1 - 3) with (m - 2) by lia. rewrite pow2_8 by lia. f_equal.
        change (2 ^ 8) with 256. subst c. rewrite Z.div_div by lia.
        rewrite <- Hp2. apply round_to_multiple. rewrite Hp2. lia.
      * rewrite Hp2. nia.
  - clear Hmax. assert (Hcases : m = 1 \/ m = 2) by lia.
    destruct Hcases as [E | E]; rewrite E in *; clear E.
    + change (256 ^ (1 - 1)) with 1 in Hlo. change (256 ^ 1) with 256 in Hhi.
      change (256 ^ (3 - 1)) with 65536.
      destruct (Z_lt_le_dec t 128) as [Hs|Hs].
      * rewrite sign_bit_clear by lia. cbn [Z.eqb].
        rewrite compact_join by lia.
        exists (1 * 2 ^ 24 + 65536 * t), 0. split; [reflexivity|].
        rewrite decode_fields by lia. cbn [Z.leb Z.compare].
        change (2 ^ (8 * (3 - 1))) with 65536. change (256 ^ 0) with 1.
        rewrite Z.mod_1_r, Z.sub_0_r.
        replace (65536 * t / 65536) with t by (apply Z.div_unique_exact; lia).
        repeat split; lia.
      * destruct (Z.eqb_spec (Z.land (65536 * t) 8388608) 0) as [E|_];
          [exfalso; revert E; apply sign_bit_set; lia|].
        rewrite Z.shiftr_div_pow2 by lia.
        replace (65536 * t / 2 ^ 8) with (256 * t)
          by (apply Z.div_unique_exact; lia).
        rewrite compact_join by lia.
        exists ((1 + 1) * 2 ^ 24 + 256 * t), 0. split; [reflexivity|].
        rewrite decode_fields by lia. cbn [Z.leb Z.compare Z.add Pos.add Pos.succ Pos.compare Pos.compare_cont].
        change (2 ^ (8 * (3 - 2))) with 256. change (256 ^ 0) with 1.
        rewrite Z.mod_1_r, Z.sub_0_r.
        replace (256 * t / 256) with t by (apply Z.div_unique_exact; lia).
        repeat split; lia.
    + change (256 ^ (2 - 1)) with 256 in Hlo. change (256 ^ 2) with 65536 in Hhi.
      change (256 ^ (3 - 2)) with 256.
      destruct (Z_lt_le_dec t 32768) as [Hs|Hs].
      * rewrite sign_bit_clear by lia. cbn [Z.eqb].
        rewrite compact_join by lia.
        exists (2 * 2 ^ 24 + 256 * t), 0. split; [reflexivity|].
        rewrite decode_fields by lia. cbn [Z.leb Z.compare Pos.compare Pos.compare_cont].
        change (2 ^ (8 * (3 - 2))) with 256. change (256 ^ 0) with 1.
        rewrite Z.mod_1_r, Z.sub_0_r.
        replace (256 * t / 256) with t by (apply Z.div_unique_exact; lia).
        repeat split; lia.
      * destruct (Z.eqb_spec (Z.land (256 * t) 8388608) 0) as [E|_];
          [exfalso; revert E; apply sign_bit_set; lia|].
        rewrite Z.shiftr_div_pow2 by lia.
        replace (256 * t / 2 ^ 8) with t
          by (apply Z.div_unique_exact; lia).
        rewrite compact_join by lia.
        exists ((2 + 1) * 2 ^ 24 + t), 0. split; [reflexivity|].
        rewrite decode_fields by lia. cbn [Z.leb Z.compare Z.add Pos.add Pos.succ Pos.compare Pos.compare_cont].
        change (2 ^ (8 * (3 - 3))) with 1. change (256 ^ 0) with 1.
        rewrite Z.mod_1_r, Z.sub_0_r, Z.div_1_r.
        repeat split; lia.
Qed.

(** X16.  A target below [2 ^ 23 * 256 ^ 252] has a compact encoding,
    which is canonical and decodes to a target that is never larger than
    the one encoded, smaller by less than one part in [2 ^ 15], and the
    same when the target is below [2 ^ 23]. *)
Theorem compact_encoding_rounds_down (t : Z) :
  0 < t < 2 ^ 23 * 256 ^ 252 ->
  exists bits decoded,
    target_to_compact_bits t = Ok bits
    /\ canonical_bits bits = true
    /\ compact_bits_to_target bits = Ok decoded
    /\ 0 < decoded <= t
    /\ 2 ^ 15 * (t - decoded) < t
    /\ (t < 2 ^ 23 -> decoded = t).
Proof.
  intros Ht. destruct (encode_then_decode t Ht) as (bits & k & He & Hd & Hk & Hcase).
  exists bits, (t - t mod 256 ^ k). split; [exact He|].
  split; [exact (target_to_compact_bits_canonical t bits Ht He)|].
  split; [exact Hd|]. destruct Ht as [Ht _].
  destruct Hcase as [->|[H23 Hp]].
  - change (256 ^ 0) with 1. rewrite Z.mod_1_r. lia.
  - assert (Hpos : 0 < 256 ^ k) by (apply Z.pow_pos_nonneg; lia).
    pose proof (Z.mod_pos_bound t _ Hpos) as Hm.
    set (p := 256 ^ k) in *. clearbody p. lia.
Qed.

Lemma compact_encoding_rounds_down_witness :
  exists bits decoded,
    target_to_compact_bits 4886718345 = Ok bits
    /\ canonical_bits bits = true
    /\ compact_bits_to_target bits = Ok decoded
    /\ 0 < decoded <= 4886718345
    /\ 2 ^ 15 * (4886718345 - decoded) < 4886718345
    /\ (4886718345 < 2 ^ 23 -> decoded = 4886718345).
Proof.
  apply (compact_encoding_rounds_down 4886718345). split; reflexivity.
Defined.

Lemma next_difficulty_target (block_timestamps : list Z)
    (current_bits adjustment_interval target_timespan : Z)
    (max_target_bits : option Z) (old_target max_target : Z) :
  (2 <= List.length block_timestamps)%nat ->
  0 < target_timespan ->
  compact_bits_to_target current_bits = Ok old_target ->
  compact_bits_to_target
    (match max_target_bits with None => GENESIS_DIFFICULTY_BITS | Some b => b end)
  = Ok max_target ->
  exists new_target,
    calculate_next_difficulty block_timestamps current_bits adjustment_interval
      target_timespan max_target_bits
    = target_to_compact_bits new_target
    /\ 1 <= new_target <= Z.max 1 max_target
    /\ new_target <= Z.max 1 (4 * old_target)
    /\ Z.min max_target (old_target * (target_timespan / 4) / target_timespan)
       <= new_target.
Proof.
  intros Hlen HT Hold Hmax. unfold calculate_next_difficulty.
  destruct (Nat.ltb_spec (List.length block_timestamps) 2) as [|_]; [lia|].
  rewrite Hold. cbn [bind]. rewrite Hmax. cbn [bind].
  pose proof (proj1 (compact_bits_to_target_bound _ _ Hold)) as Hold0.
  clear Hold Hmax.
  change MAX_ADJUSTMENT_FACTOR with 4.
  set (taken := last block_timestamps 0 - hd 0 block_timestamps). clearbody taken.
  assert (Hq : 0 <= target_timespan / 4 <= target_timespan).
  { split; [apply Z.div_pos; lia|apply Z.div_le_upper_bound; lia]. }
  set (tt := if taken <? target_timespan / 4 then target_timespan / 4
             else if target_timespan * 4 <? taken then target_timespan * 4 else taken).
  assert (Htt : target_timespan / 4 <= tt <= target_timespan * 4).
  { subst tt. destruct (Z.ltb_spec taken (target_timespan / 4)); [lia|].
    destruct (Z.ltb_spec (target_timespan * 4) taken); lia. }
  clearbody tt.
  set (new0 := old_target * tt / target_timespan).
  assert (Hup : new0 <= 4 * old_target).
  { subst new0. apply Z.div_le_upper_bound; [lia|]. nia. }
  assert (Hlow : old_target * (target_timespan / 4) / target_timespan <= new0).
  { subst new0. apply Z.div_le_mono; [lia|]. nia. }
  clearbody new0.
  eexists. split; [reflexivity|].
  destruct (Z.ltb_spec max_target new0);
    match goal with |- context [if ?x <? 1 then _ else _] =>
      destruct (Z.ltb_spec x 1) end; lia.
Qed.

(** X17.  With two timestamps or more and a positive time span,
    [calculate_next_difficulty] returns the compact encoding of a new
    target that is at least 1, at most the maximum target (when that is
    positive), at most four times the old target, and not below the old
    target scaled by a quarter of the time span unless the maximum cuts
    it; the bits returned decode to a target that is no larger. *)
Theorem next_difficulty_is_clamped (block_timestamps : list Z)
    (current_bits adjustment_interval target_timespan : Z)
    (max_target_bits : option Z) (old_target max_target : Z) :
  (2 <= List.length block_timestamps)%nat ->
  0 < target_timespan ->
  compact_bits_to_target current_bits = Ok old_target ->
  compact_bits_to_target
    (match max_target_bits with None => GENESIS_DIFFICULTY_BITS | Some b => b end)
  = Ok max_target ->
  exists new_target new_bits decoded,
    calculate_next_difficulty block_timestamps current_bits adjustment_interval
      target_timespan max_target_bits = Ok new_bits
    /\ target_to_compact_bits new_target = Ok new_bits
    /\ compact_bits_to_target new_bits = Ok decoded
    /\ 0 < decoded <= new_target
    /\ 1 <= new_target <= Z.max 1 max_target
    /\ new_target <= Z.max 1 (4 * old_target)
    /\ Z.min max_target (old_target * (target_timespan / 4) / target_timespan)
       <= new_target.
Proof.
  intros Hlen HT Hold Hmax.
  destruct (next_difficulty_target block_timestamps current_bits adjustment_interval
              target_timespan max_target_bits old_target max_target Hlen HT Hold Hmax)
    as (new_target & E & Hr & Hup & Hlow).
  assert (Hin : 0 < new_target < 2 ^ 23 * 256 ^ 252).
  { pose proof (proj2 (compact_bits_to_target_bound _ _ Hmax)) as Hb.
    assert (H1 : 1 < 2 ^ 23 * 256 ^ 252) by reflexivity.
    set (B := 2 ^ 23 * 256 ^ 252) in *. clearbody B. lia. }
  destruct (encode_then_decode new_target Hin) as (bits & k & He & Hd & Hk & Hcase).
  exists new_target, bits, (new_target - new_target mod 256 ^ k).
  rewrite E. split; [exact He|]. split; [exact He|]. split; [exact Hd|].
  split; [|repeat split; lia]. clear Hin.
  destruct Hcase as [->|[H23 Hp]].
  - change (256 ^ 0) with 1. rewrite Z.mod_1_r. lia.
  - assert (Hpos : 0 < 256 ^ k) by (apply Z.pow_pos_nonneg; lia).
    pose proof (Z.mod_pos_bound new_target _ Hpos) as Hm.
    set (p := 256 ^ k) in *. clearbody p. lia.
Qed.

Lemma next_difficulty_is_clamped_witness :
  exists new_target new_bits decoded,
    calculate_next_difficulty [0; 302400] GENESIS_DIFFICULTY_BITS 2016 1209600 None
    = Ok new_bits
    /\ target_to_compact_bits new_target = Ok new_bits
    /\ compact_bits_to_target new_bits = Ok decoded
    /\ 0 < decoded <= new_target
    /\ 1 <= new_target <= Z.max 1 (65535 * 2 ^ 208)
    /\ new_target <= Z.max 1 (4 * (65535 * 2 ^ 208))
    /\ Z.min (65535 * 2 ^ 208) (65535 * 2 ^ 208 * (1209600 / 4) / 1209600)
       <= new_target.
Proof.
  apply (next_difficulty_is_clamped [0; 302400] GENESIS_DIFFICULTY_BITS 2016 1209600
           None (65535 * 2 ^ 208) (65535 * 2 ^ 208)).
  - cbn. lia.
  - lia.
  - vm_compute. reflexivity.
  - vm_compute. reflexivity.
Defined.

(** In development mode the maximum target is still the one of
    [GENESIS_DIFFICULTY_BITS], far below a quarter of the target of
    [DEV_GENESIS_DIFFICULTY_BITS]. *)
Lemma dev_next_difficulty (block_timestamps : list Z) (adjustment_interval : Z) :
  (2 <= List.length block_timestamps)%nat ->
  calculate_next_difficulty block_timestamps DEV_GENESIS_DIFFICULTY_BITS
    adjustment_interval (DEV_DIFFICULTY_ADJUSTMENT_INTERVAL * DEV_TARGET_BLOCK_TIME) None
  = Ok GENESIS_DIFFICULTY_BITS.
Proof.
  intros Hlen.
  pose (old := 1048575 * 2 ^ 224). pose (maxt := 65535 * 2 ^ 208).
  destruct (next_difficulty_target block_timestamps DEV_GENESIS_DIFFICULTY_BITS
              adjustment_interval (DEV_DIFFICULTY_ADJUSTMENT_INTERVAL * DEV_TARGET_BLOCK_TIME)
              None old maxt Hlen)
    as (new_target & E & Hr & _ & Hlow);
    [reflexivity|vm_compute; reflexivity|vm_compute; reflexivity|].
  rewrite E.
  assert (Hq : Z.min maxt
                 (old * (DEV_DIFFICULTY_ADJUSTMENT_INTERVAL * DEV_TARGET_BLOCK_TIME / 4)
                  / (DEV_DIFFICULTY_ADJUSTMENT_INTERVAL * DEV_TARGET_BLOCK_TIME)) = maxt)
    by (vm_compute; reflexivity).
  rewrite Hq in Hlow.
  assert (Hm : Z.max 1 maxt = maxt) by (vm_compute; reflexivity).
  rewrite Hm in Hr.
  assert (new_target = maxt) as -> by (clearbody maxt; lia).
  vm_compute. reflexivity.
Qed.

(** X18.  A development-mode block chain still at its genesis difficulty
    answers [GENESIS_DIFFICULTY_BITS], the main-net value, at every
    adjustment height, whatever the timestamps of its blocks are, and
    keeps it as its current difficulty. *)
Theorem dev_mode_retarget_is_the_mainnet_limit (bc : Blockchain) (height : Z) :
  _difficulty_bits bc = DEV_GENESIS_DIFFICULTY_BITS ->
  _adjustment_interval bc = DEV_DIFFICULTY_ADJUSTMENT_INTERVAL ->
  _target_timespan bc = DEV_DIFFICULTY_ADJUSTMENT_INTERVAL * DEV_TARGET_BLOCK_TIME ->
  should_adjust height DEV_DIFFICULTY_ADJUSTMENT_INTERVAL = true ->
  (2 <= List.length (Chain.get_chain bc None))%nat ->
  Chain._get_next_difficulty bc height
  = (Ok GENESIS_DIFFICULTY_BITS, set_difficulty_bits bc GENESIS_DIFFICULTY_BITS).
Proof.
  intros Hb Hi Ht Hadj Hlen. unfold Chain._get_next_difficulty.
  rewrite Hb, Hi, Ht, Hadj. cbn [negb].
  assert (Hh : (height =? 0) = false).
  { unfold should_adjust in Hadj. destruct (Z.leb_spec height 0); [discriminate|].
    apply Z.eqb_neq. lia. }
  rewrite Hh.
  destruct (Nat.ltb_spec (List.length (Chain.get_chain bc None)) 2) as [|_]; [lia|].
  set (ts := map _ _).
  assert (Hts : (2 <= List.length ts)%nat).
  { subst ts. rewrite length_map, length_skipn.
    change DEV_DIFFICULTY_ADJUSTMENT_INTERVAL with 10. lia. }
  destruct (Nat.ltb_spec (List.length ts) 2) as [|_]; [lia|].
  now rewrite (dev_next_difficulty ts _ Hts).
Qed.

Lemma dev_mode_retarget_is_the_mainnet_limit_witness :
  Chain._get_next_difficulty (snd (add_blocks dev_genesis_chain main_chain)) 10
  = (Ok GENESIS_DIFFICULTY_BITS,
     set_difficulty_bits (snd (add_blocks dev_genesis_chain main_chain))
       GENESIS_DIFFICULTY_BITS).
Proof.
  apply (dev_mode_retarget_is_the_mainnet_limit
           (snd (add_blocks dev_genesis_chain main_chain)) 10);
    vm_compute; try reflexivity.
  repeat constructor.
Defined.


(** ** The money supply *)

Lemma get_block_reward_eq (height : Z) :
  0 <= height ->
  get_block_reward height = Ok (INITIAL_REWARD / 2 ^ (height / HALVING_INTERVAL)).
Proof.
  intros H. unfold get_block_reward, HALVING_INTERVAL, INITIAL_REWARD.
  destruct (Z.ltb_spec height 0); [lia|].
  assert (Hh : 0 <= height / 210000) by (apply Z.div_pos; lia).
  destruct (Z.leb_spec 64 (height / 210000)) as [H64|H64].
  - f_equal. symmetry. apply Z.div_small. split; [lia|].
    apply Z.lt_le_trans with (2 ^ 64); [reflexivity|].
    apply Z.pow_le_mono_r; lia.
  - now rewrite Z.shiftr_div_pow2.
Qed.

Lemma rewards_below_closed (n : nat) :
  rewards_below n
  = HALVING_INTERVAL * halvings_sum (Z.to_nat (Z.of_nat n / HALVING_INTERVAL))
    + (Z.of_nat n mod HALVING_INTERVAL)
      * (INITIAL_REWARD / 2 ^ (Z.of_nat n / HALVING_INTERVAL)).
Proof.
  induction n as [|n IH]; [reflexivity|].
  cbn [rewards_below]. rewrite IH, get_block_reward_eq by lia. clear IH.
  unfold HALVING_INTERVAL.
  pose proof (Z.div_mod (Z.of_nat n) 210000 ltac:(lia)) as Hdm.
  pose proof (Z.mod_pos_bound (Z.of_nat n) 210000 ltac:(lia)) as Hr.
  assert (Hq : 0 <= Z.of_nat n / 210000) by (apply Z.div_pos; lia).
  set (q := Z.of_nat n / 210000) in *. set (r := Z.of_nat n mod 210000) in *.
  replace (Z.of_nat (S n)) with (210000 * q + (r + 1)) by lia.
  destruct (Z.eq_dec (r + 1) 210000) as [E|E].
  - replace (210000 * q + (r + 1)) with ((q + 1) * 210000) by lia.
    rewrite Z.div_mul, Z.mod_mul by lia.
    replace (Z.to_nat (q + 1)) with (S (Z.to_nat q)) by lia.
    cbn [halvings_sum]. rewrite Z2Nat.id by lia. lia.
  - assert (Hd : (210000 * q + (r + 1)) / 210000 = q)
      by (symmetry; apply (Z.div_unique _ _ q (r + 1)); lia).
    assert (Hm : (210000 * q + (r + 1)) mod 210000 = r + 1)
      by (symmetry; apply (Z.mod_unique _ _ q (r + 1)); lia).
    rewrite Hd, Hm. lia.
Qed.

Lemma halvings_sum_bound (q : nat) :
  halvings_sum q + INITIAL_REWARD / 2 ^ Z.of_nat q <= halvings_sum 33
  /\ ((33 <= q)%nat -> halvings_sum q = halvings_sum 33).
Proof.
  destruct (Nat.le_gt_cases 33 q) as [H|H].
  - assert (Hz : forall k, (33 <= k)%nat -> INITIAL_REWARD / 2 ^ Z.of_nat k = 0).
    { intros k Hk. apply Z.div_small. unfold INITIAL_REWARD. split; [lia|].
      apply Z.lt_le_trans with (2 ^ 33); [reflexivity|].
      apply Z.pow_le_mono_r; lia. }
    assert (E : halvings_sum q = halvings_sum 33).
    { induction H as [|q H IH]; [reflexivity|].
      change (halvings_sum (S q)) with (halvings_sum q + INITIAL_REWARD / 2 ^ Z.of_nat q).
      rewrite IH, (Hz q) by lia. apply Z.add_0_r. }
    rewrite E, (Hz q H). split; [lia|reflexivity].
  - split; [|lia].
    do 33 (destruct q as [|q]; [vm_compute; discriminate|]). lia.
Qed.

(** X19.  The rewards of the first [n] blocks never add up to more than
    2099999997690000 satoshis, which is below [MAX_MONEY]; from height
    6930000 on the rewards are zero and the sum is exactly that. *)
Theorem block_rewards_stay_below_max_money (n : nat) :
  0 <= rewards_below n <= 2099999997690000
  /\ 2099999997690000 < MAX_MONEY
  /\ (6930000 <= Z.of_nat n -> rewards_below n = 2099999997690000).
Proof.
  assert (H33 : HALVING_INTERVAL * halvings_sum 33 = 2099999997690000)
    by (vm_compute; reflexivity).
  rewrite rewards_below_closed. unfold HALVING_INTERVAL in *.
  pose proof (Z.mod_pos_bound (Z.of_nat n) 210000 ltac:(lia)) as Hr.
  assert (Hq : 0 <= Z.of_nat n / 210000) by (apply Z.div_pos; lia).
  destruct (halvings_sum_bound (Z.to_nat (Z.of_nat n / 210000))) as [Hb He].
  rewrite Z2Nat.id in Hb by lia.
  assert (Hg : forall q, 0 <= halvings_sum q).
  { induction q as [|q IH]; [reflexivity|]. cbn [halvings_sum].
    assert (0 <= INITIAL_REWARD / 2 ^ Z.of_nat q); [|lia].
    apply Z.div_pos; [unfold INITIAL_REWARD; lia|apply Z.pow_pos_nonneg; lia]. }
  assert (Hrw : 0 <= INITIAL_REWARD / 2 ^ (Z.of_nat n / 210000)).
  { apply Z.div_pos; [unfold INITIAL_REWARD; lia|apply Z.pow_pos_nonneg; lia]. }
  specialize (Hg (Z.to_nat (Z.of_nat n / 210000))).
  set (g := halvings_sum (Z.to_nat (Z.of_nat n / 210000))) in *.
  set (rw := INITIAL_REWARD / 2 ^ (Z.of_nat n / 210000)) in *.
  split; [split; [nia|nia]|]. split; [reflexivity|].
  intros Hn.
  assert (Hq33 : 33 <= Z.of_nat n / 210000) by (apply Z.div_le_lower_bound; lia).
  rewrite He in * by lia.
  assert (rw = 0); [|nia].
  subst rw. apply Z.div_small. unfold INITIAL_REWARD. split; [lia|].
  apply Z.lt_le_trans with (2 ^ 33); [reflexivity|].
  apply Z.pow_le_mono_r; lia.
Qed.


(** ** What a stored block has passed *)

Section Acceptance.
Variable orc : list byte -> list byte -> list byte -> result bool.

Lemma validate_block_body_checks (b : Block) (bc : Blockchain) (now : Z)
    (is_genesis : bool) (expected_height : Z) (u : unit) :
  validate_block_body orc b bc now is_genesis expected_height = Ok u ->
  Blk.calculate_merkle_root b = Ok (merkle_root (header b))
  /\ Rules.validate_block_size b = Ok true
  /\ Rules.validate_coinbase b expected_height = Ok true
  /\ Rules.validate_no_duplicate_txids (transactions b) = Ok true
  /\ (is_genesis = false ->
      Rules.validate_timestamp (timestamp (header b))
        (Chain.get_previous_timestamps bc (previous_block_hash (header b)) 11) now
      = Ok true).
Proof.
  unfold validate_block_body. intros H.
  destruct (Blk.calculate_merkle_root b) as [root|]; [|discriminate]. cbn [bind] in H.
  destruct (String.eqb_spec root (merkle_root (header b))) as [Er|]; [|discriminate].
  subst root.
  cbn [negb] in H. split; [reflexivity|].
  assert (Hts : is_genesis = false ->
                Rules.validate_timestamp (timestamp (header b))
                  (Chain.get_previous_timestamps bc (previous_block_hash (header b)) 11) now
                = Ok true
                /\ True).
  { intros ->. destruct (Rules.validate_timestamp _ _ _) as [[|]|]; try discriminate.
    split; reflexivity. }
  match type of H with
  | (bind ?c _) = _ => destruct c as [[|]|]; try discriminate
  end.
  cbn [bind negb] in H.
  destruct (Rules.validate_block_size b) as [[|]|]; try discriminate.
  cbn [bind negb] in H. split; [reflexivity|].
  destruct (Rules.validate_coinbase b expected_height) as [[|]|]; try discriminate.
  cbn [bind negb] in H. split; [reflexivity|].
  match type of H with
  | (bind ?c _) = _ => destruct c as [[]|]; try discriminate
  end.
  cbn [bind] in H.
  destruct (Rules.validate_no_duplicate_txids (transactions b)) as [[|]|]; try discriminate.
  split; [reflexivity|]. intros E. now destruct (Hts E).
Qed.

Lemma validate_block_checks (b : Block) (bc bc1 : Blockchain) (now : Z) :
  validate_block orc b bc now = (Ok true, bc1) ->
  let prev := previous_block_hash (header b) in
  Header.meets_difficulty_target (header b) = Ok true
  /\ Blk.calculate_merkle_root b = Ok (merkle_root (header b))
  /\ Rules.validate_block_size b = Ok true
  /\ Rules.validate_coinbase b (expected_height_of bc prev) = Ok true
  /\ Rules.validate_no_duplicate_txids (transactions b) = Ok true
  /\ (prev = zero_hash
      \/ (Dict.mem String.eqb prev (blocks bc) = true
          /\ Rules.validate_timestamp (timestamp (header b))
               (Chain.get_previous_timestamps bc prev 11) now = Ok true)).
Proof.
  intros H prev. unfold validate_block in H.
  destruct (Header.hash (header b)) as [h|]; [|discriminate].
  destruct (Header.meets_difficulty_target (header b)) as [[|]|]; try discriminate.
  fold prev in H.
  destruct (String.eqb_spec prev zero_hash) as [Eg|Eg]; cbn [negb andb] in H.
  - destruct (validate_block_body orc b bc now true _) as [u|] eqn:Eb; [|discriminate].
    destruct (validate_block_body_checks _ _ _ _ _ _ Eb) as (H1 & H2 & H3 & H4 & _).
    split; [reflexivity|]. repeat (split; [assumption|]). now left.
  - destruct (Dict.mem String.eqb prev (blocks bc)) eqn:Em; cbn [negb] in H;
      [|discriminate].
    destruct (validate_block_body orc b bc now false _) as [u|] eqn:Eb; [|discriminate].
    destruct (validate_block_body_checks _ _ _ _ _ _ Eb) as (H1 & H2 & H3 & H4 & H5).
    split; [reflexivity|]. repeat (split; [assumption|]). right.
    split; [reflexivity|]. now apply H5.
Qed.

Lemma expected_height_of_bits (bc : Blockchain) (bits : Z) (prev : string) :
  expected_height_of (set_difficulty_bits bc bits) prev = expected_height_of bc prev.
Proof. symmetry. apply expected_height_of_ext; reflexivity. Qed.

Lemma dict_set_fresh_neq {V : Type} (k : string) (v : V) (d : list (string * V)) :
  Dict.mem String.eqb k d = false -> Dict.set String.eqb k v d <> d.
Proof.
  intros Hm E. assert (Hg : Dict.get String.eqb k d = Some v)
    by (rewrite <- E; apply dict_get_set_same).
  unfold Dict.mem in Hm. rewrite Hg in Hm. discriminate.
Qed.

Lemma add_block_outcome (bc : Blockchain) (b : Block) (now : Z)
    (r : result bool) (bc' : Blockchain) :
  add_block orc bc b now = (r, bc') ->
  (r <> Ok true /\ blocks bc' = blocks bc)
  \/ exists h bc1,
       Header.hash (header b) = Ok h
       /\ Dict.mem String.eqb h (blocks bc) = false
       /\ validate_block orc b bc now = (Ok true, bc1)
       /\ blocks bc'
          = Dict.set String.eqb h
              (set_height b (expected_height_of bc (previous_block_hash (header b))))
              (blocks bc).
Proof.
  unfold add_block. intros H.
  destruct (Header.hash (header b)) as [h|e] eqn:Eh;
    [|injection H as <- <-; left; split; [discriminate|reflexivity]].
  destruct (Dict.mem String.eqb h (blocks bc)) eqn:Em;
    [injection H as <- <-; left; split; [discriminate|reflexivity]|].
  pose proof (validate_block_state orc b bc now) as Hs.
  pose proof (validate_block_verdict orc b bc now) as Hv.
  destruct (validate_block orc b bc now) as [[v|e] bc1]; cbn [snd] in *.
  2:{ injection H as <- <-. left. split; [discriminate|]. rewrite Hs. reflexivity. }
  assert (Ev : v = true) by exact (Hv v bc1 eq_refl). subst v. clear Hv.
  right. exists h, bc1. split; [reflexivity|]. split; [exact Em|].
  split; [reflexivity|].
  assert (Hx : expected_height_of bc1 (previous_block_hash (header b))
               = expected_height_of bc (previous_block_hash (header b)))
    by (rewrite Hs; apply expected_height_of_bits).
  rewrite Hx in H.
  set (ht := expected_height_of bc (previous_block_hash (header b))) in *.
  set (bc2 := store_block bc1 h (set_height b ht) ht (previous_block_hash (header b))) in *.
  assert (Hb2 : blocks bc2 = Dict.set String.eqb h (set_height b ht) (blocks bc))
    by (subst bc2; rewrite Hs; reflexivity).
  rewrite <- Hb2.
  assert (Hext : forall r' bc3, extend_best_chain bc2 h (set_height b ht) = (r', bc3) ->
                                blocks bc3 = blocks bc2).
  { intros r' bc3 E. pose proof (extend_best_chain_blocks bc2 h (set_height b ht)) as X.
    rewrite E in X. exact X. }
  destruct (_detect_fork bc2 (set_height b ht)) as [is_fork|e];
    [|injection H as <- <-; reflexivity].
  destruct (best_chain_tip bc2) as [tip|]; [|exact (Hext _ _ H)].
  destruct (String.eqb (previous_block_hash (header b)) tip); [exact (Hext _ _ H)|].
  destruct is_fork; [|exact (Hext _ _ H)].
  destruct (Chain.get_chain_height bc2 <? ht); [|injection H as <- <-; reflexivity].
  pose proof (reorganize_blocks bc2 h) as X.
  destruct (_reorganize_chain bc2 h) as [[u|e] bc3]; cbn [snd] in X;
    injection H as <- <-; exact X.
Qed.

(** X20.  When [add_block] returns [True], or changes the block store at
    all, the block was new, it is the one block added to the store, under
    its hash and with its height, and every other entry is as before; the
    block has a hash within its own target, the Merkle root of its
    transactions in its header, at most [MAX_BLOCK_SIZE] bytes, a coinbase
    that [validate_coinbase] accepts at that height, no two transactions
    with the same id, and, unless it names the zero hash as its parent, a
    stored parent and a timestamp that [validate_timestamp] accepts.
    Adding the same block once more returns [False] and changes nothing. *)
Theorem stored_block_has_passed_the_checks (bc : Blockchain) (b : Block) (now : Z)
    (r : result bool) (bc' : Blockchain) :
  add_block orc bc b now = (r, bc') ->
  r = Ok true \/ blocks bc' <> blocks bc ->
  let prev := previous_block_hash (header b) in
  let height := expected_height_of bc prev in
  exists h,
    Header.hash (header b) = Ok h
    /\ Chain.get_block bc h = None
    /\ Chain.get_block bc' h = Some (set_height b height)
    /\ (forall h', h' <> h -> Chain.get_block bc' h' = Chain.get_block bc h')
    /\ Header.meets_difficulty_target (header b) = Ok true
    /\ Blk.calculate_merkle_root b = Ok (merkle_root (header b))
    /\ Rules.validate_block_size b = Ok true
    /\ Rules.validate_coinbase b height = Ok true
    /\ Rules.validate_no_duplicate_txids (transactions b) = Ok true
    /\ (prev = zero_hash
        \/ (Dict.mem String.eqb prev (blocks bc) = true
            /\ Rules.validate_timestamp (timestamp (header b))
                 (Chain.get_previous_timestamps bc prev 11) now = Ok true))
    /\ forall now', add_block orc bc' b now' = (Ok false, bc').
Proof.
  intros H Hr prev height.
  destruct (add_block_outcome bc b now r bc' H) as [[Hn He]|(h & bc1 & Hh & Hm & Hv & Hb)];
    [destruct Hr; contradiction|].
  destruct (validate_block_checks b bc bc1 now Hv) as (C1 & C2 & C3 & C4 & C5 & C6).
  exists h. split; [exact Hh|]. unfold Chain.get_block.
  split; [unfold Dict.mem in Hm; destruct (Dict.get String.eqb h (blocks bc));
          [discriminate|reflexivity]|].
  rewrite Hb. split; [apply dict_get_set_same|].
  split; [intros h' Hne; now apply dict_get_set_other|].
  repeat (split; [assumption|]).
  intros now'. unfold add_block. rewrite Hh.
  unfold Dict.mem. rewrite Hb, dict_get_set_same. reflexivity.
Qed.

End Acceptance.

Lemma stored_block_has_passed_the_checks_witness :
  exists h,
    Header.hash (header blk_1) = Ok h
    /\ Chain.get_block dev_genesis_chain h = None
    /\ Chain.get_block (snd (add_block no_crypto dev_genesis_chain blk_1 clock)) h
       = Some (set_height blk_1
                 (expected_height_of dev_genesis_chain
                    (previous_block_hash (header blk_1))))
    /\ (forall h', h' <> h ->
          Chain.get_block (snd (add_block no_crypto dev_genesis_chain blk_1 clock)) h'
          = Chain.get_block dev_genesis_chain h')
    /\ Header.meets_difficulty_target (header blk_1) = Ok true
    /\ Blk.calculate_merkle_root blk_1 = Ok (merkle_root (header blk_1))
    /\ Rules.validate_block_size blk_1 = Ok true
    /\ Rules.validate_coinbase blk_1
         (expected_height_of dev_genesis_chain (previous_block_hash (header blk_1)))
       = Ok true
    /\ Rules.validate_no_duplicate_txids (transactions blk_1) = Ok true
    /\ (previous_block_hash (header blk_1) = zero_hash
        \/ (Dict.mem String.eqb (previous_block_hash (header blk_1))
              (blocks dev_genesis_chain) = true
            /\ Rules.validate_timestamp (timestamp (header blk_1))
                 (Chain.get_previous_timestamps dev_genesis_chain
                    (previous_block_hash (header blk_1)) 11) clock = Ok true))
    /\ forall now',
         add_block no_crypto (snd (add_block no_crypto dev_genesis_chain blk_1 clock))
           blk_1 now'
         = (Ok false, snd (add_block no_crypto dev_genesis_chain blk_1 clock)).
Proof.
  apply (stored_block_has_passed_the_checks no_crypto dev_genesis_chain blk_1 clock
           (fst (add_block no_crypto dev_genesis_chain blk_1 clock))
           (snd (add_block no_crypto dev_genesis_chain blk_1 clock))).
  - now destruct (add_block no_crypto dev_genesis_chain blk_1 clock).
  - left. vm_compute. reflexivity.
Defined.


(** ** The pool and its fee index *)

Lemma insert_desc_perm (x : Q * string) (l : list (Q * string)) :
  Permutation.Permutation (Pool.insert_desc x l) (x :: l).
Proof.
  induction l as [|y t IH]; cbn; [apply Permutation.Permutation_refl|].
  destruct (Qle_bool (fst x) (fst y)); [|apply Permutation.Permutation_refl].
  eapply Permutation.perm_trans; [apply Permutation.perm_skip, IH|apply Permutation.perm_swap].
Qed.

Lemma sort_desc_perm (l : list (Q * string)) :
  Permutation.Permutation (Pool.sort_desc l) l.
Proof.
  unfold Pool.sort_desc.
  assert (G : forall acc, Permutation.Permutation
                            (fold_left (fun acc x => Pool.insert_desc x acc) l acc)
                            (acc ++ l)).
  { induction l as [|x t IH]; intros acc; cbn [fold_left].
    - rewrite app_nil_r. apply Permutation.Permutation_refl.
    - eapply Permutation.perm_trans; [apply IH|].
      eapply Permutation.perm_trans;
        [apply Permutation.Permutation_app_tail, insert_desc_perm|].
      cbn. apply Permutation.Permutation_middle. }
  exact (G []).
Qed.

Lemma filter_perm {A : Type} (f : A -> bool) (l l' : list A) :
  Permutation.Permutation l l' -> Permutation.Permutation (filter f l) (filter f l').
Proof.
  induction 1 as [|x l l' _ IH|x y l|l l' l'' _ IH1 _ IH2]; cbn.
  - constructor.
  - destruct (f x); [now constructor|exact IH].
  - destruct (f x), (f y); try apply Permutation.Permutation_refl. apply Permutation.perm_swap.
  - eapply Permutation.perm_trans; eassumption.
Qed.

Lemma keys_after_remove {V : Type} (k : string) (d : list (string * V)) :
  NoDup (map fst d) ->
  map fst (Dict.remove String.eqb k d)
  = filter (fun x => negb (String.eqb x k)) (map fst d).
Proof.
  induction d as [|[k' v'] t IH]; intros Hn; [reflexivity|].
  cbn [map fst] in Hn. inversion Hn as [|? ? Hni Hn']; subst.
  cbn [Dict.remove map fst filter]. rewrite (String.eqb_sym k' k).
  destruct (String.eqb_spec k k') as [->|Hne]; cbn [negb].
  - symmetry. apply forallb_filter_id. apply forallb_forall. intros x Hx.
    destruct (String.eqb_spec x k') as [->|]; [contradiction|reflexivity].
  - cbn [map fst]. now rewrite IH.
Qed.

Lemma index_after_remove (txid : string) (l : list (Q * string)) :
  map snd (filter (fun e => negb (String.eqb (snd e) txid)) l)
  = filter (fun x => negb (String.eqb x txid)) (map snd l).
Proof.
  induction l as [|e t IH]; [reflexivity|]. cbn [filter map].
  destruct (negb (String.eqb (snd e) txid)); cbn [map]; now rewrite IH.
Qed.

Lemma pool_indexed_remove (m : Mempool) (txid : string) :
  pool_indexed m -> pool_indexed (snd (Pool.remove_transaction m txid)).
Proof.
  intros (H1 & H2 & H3). unfold Pool.remove_transaction.
  destruct (Dict.get String.eqb txid (mp_transactions m)); cbn [snd];
    [|repeat split; assumption].
  unfold pool_indexed. cbn [mp_transactions _fee_index].
  split; [now apply dict_remove_nodup|]. split.
  - rewrite keys_after_remove, index_after_remove by exact H1. now apply filter_perm.
  - apply Forall_forall. intros kv Hin. apply (proj1 (Forall_forall _ _) H3).
    exact (dict_remove_incl txid _ kv Hin).
Qed.

Lemma pool_indexed_clear (txs : list Transaction) :
  forall (m : Mempool) (n : Z),
    pool_indexed m -> pool_indexed (snd (Pool.clear_confirmed_loop m txs n)).
Proof.
  induction txs as [|tx t IH]; intros m n H; cbn [Pool.clear_confirmed_loop]; [exact H|].
  destruct (Tx.is_coinbase tx); [now apply IH|].
  destruct (Tx.txid tx) as [id|e]; [|exact H].
  pose proof (pool_indexed_remove m id H) as Hr.
  destruct (Pool.remove_transaction m id) as [[tx'|] m']; cbn [snd] in Hr; now apply IH.
Qed.

Lemma pool_indexed_add (m : Mempool) (tx : Transaction) (u : option UTXOSet)
      (accepted : bool) (m' : Mempool) :
  pool_indexed m -> Pool.add_transaction m tx u = Ok (accepted, m') -> pool_indexed m'.
Proof.
  intros (H1 & H2 & H3). unfold Pool.add_transaction.
  destruct (Tx.txid tx) as [id|e] eqn:Eid; cbn [bind]; [|discriminate].
  destruct (Dict.mem String.eqb id (mp_transactions m)) eqn:Hm;
    [intros H; injection H as _ <-; repeat split; assumption|].
  destruct (Tx.is_coinbase tx); [intros H; injection H as _ <-; repeat split; assumption|].
  destruct (Pool.is_double_spend m tx);
    [intros H; injection H as _ <-; repeat split; assumption|].
  intros H; injection H as _ <-. unfold pool_indexed; cbn [mp_transactions _fee_index].
  rewrite (dict_set_fresh id tx _ Hm), !map_app. cbn [map fst snd]. split; [|split].
  - apply nodup_snoc; [exact H1|apply dict_mem_in; exact Hm].
  - eapply Permutation.perm_trans; [apply Permutation.Permutation_map, sort_desc_perm|].
    rewrite map_app. cbn [map snd]. now apply Permutation.Permutation_app_tail.
  - apply Forall_app. split; [exact H3|]. constructor; [exact Eid|constructor].
Qed.

Lemma reachable_pool_indexed (m : Mempool) : reachable_pool m -> pool_indexed m.
Proof.
  induction 1 as [|m tx u a m' _ IH Ha|m txid _ IH|m b _ IH].
  - repeat split; constructor.
  - exact (pool_indexed_add m tx u a m' IH Ha).
  - now apply pool_indexed_remove.
  - unfold Pool.clear_confirmed. now apply pool_indexed_clear.
Qed.

Lemma lookup_other_keys {V : Type} (k : string) (v : V) (d : list (string * V))
      (keys : list string) :
  ~ In k keys ->
  flat_map (fun x => match Dict.get String.eqb x ((k, v) :: d) with
                     | Some y => [y] | None => [] end) keys
  = flat_map (fun x => match Dict.get String.eqb x d with
                       | Some y => [y] | None => [] end) keys.
Proof.
  induction keys as [|x t IH]; intros Hn; [reflexivity|].
  cbn [flat_map]. rewrite IH by (intros Hin; apply Hn; now right).
  f_equal. cbn [Dict.get]. destruct (String.eqb_spec x k) as [->|_]; [|reflexivity].
  exfalso; apply Hn; now left.
Qed.

Lemma lookup_all_keys {V : Type} (d : list (string * V)) :
  NoDup (map fst d) ->
  flat_map (fun x => match Dict.get String.eqb x d with
                     | Some y => [y] | None => [] end) (map fst d)
  = map snd d.
Proof.
  induction d as [|[k v] t IH]; intros Hn; [reflexivity|].
  cbn [map fst snd] in *. inversion Hn as [|? ? Hni Hn']; subst.
  cbn [flat_map]. rewrite lookup_other_keys by exact Hni. rewrite IH by exact Hn'.
  cbn [Dict.get]. now rewrite String.eqb_refl.
Qed.

Lemma lookup_known_length {V : Type} (d : list (string * V)) (keys : list string) :
  incl keys (map fst d) ->
  List.length (flat_map (fun x => match Dict.get String.eqb x d with
                                  | Some y => [y] | None => [] end) keys)
  = List.length keys.
Proof.
  induction keys as [|x t IH]; intros Hi; [reflexivity|].
  cbn [flat_map]. rewrite length_app, IH by (intros y Hy; apply Hi; now right).
  assert (Hx : In x (map fst d)) by (apply Hi; now left).
  destruct (Dict.get String.eqb x d) eqn:E; [reflexivity|].
  exfalso. clear - Hx E. induction d as [|[k v] d IH]; [destruct Hx|].
  cbn [Dict.get] in E. destruct (String.eqb_spec x k) as [|Hne]; [discriminate|].
  destruct Hx as [Hx|Hx]; [cbn in Hx; congruence|now apply IH].
Qed.

Lemma dict_get_entry {V : Type} (k : string) (v : V) (d : list (string * V)) :
  Dict.get String.eqb k d = Some v -> In (k, v) d.
Proof.
  induction d as [|[k' v'] t IH]; [discriminate|]. cbn [Dict.get].
  destruct (String.eqb_spec k k') as [->|_]; [intros E; injection E as ->; now left|].
  intros E. right. now apply IH.
Qed.

Lemma dict_entry_get {V : Type} (k : string) (v : V) (d : list (string * V)) :
  NoDup (map fst d) -> In (k, v) d -> Dict.get String.eqb k d = Some v.
Proof.
  induction d as [|[k' v'] t IH]; intros Hn Hin; [destruct Hin|].
  cbn [map fst] in Hn. inversion Hn as [|? ? Hni Hn']; subst. cbn [Dict.get].
  destruct Hin as [E|Hin].
  - injection E as -> ->. now rewrite String.eqb_refl.
  - destruct (String.eqb_spec k k') as [->|_]; [|now apply IH].
    exfalso. apply Hni. change k' with (fst (k', v)). now apply in_map.
Qed.

(** X21.  In a pool built by [add_transaction], [remove_transaction] and
    [clear_confirmed], [get_transactions()] returns the transactions of
    the pool, each exactly once; with a limit it returns that many, or all
    when there are fewer; a transaction found by [get_transaction] has the
    id it was asked by and is among those returned. *)
Theorem pool_lists_every_transaction_once (m : Mempool) :
  reachable_pool m ->
  Permutation.Permutation (Pool.get_transactions m None) (map snd (mp_transactions m))
  /\ (forall n : nat,
        List.length (Pool.get_transactions m (Some n))
        = Nat.min n (List.length (mp_transactions m)))
  /\ (forall txid tx, Pool.get_transaction m txid = Some tx ->
        Tx.txid tx = Ok txid /\ In tx (Pool.get_transactions m None))
  /\ (forall tx, In tx (Pool.get_transactions m None) ->
        exists txid, Pool.get_transaction m txid = Some tx)
  /\ Pool.size m = Z.of_nat (List.length (Pool.get_transactions m None)).
Proof.
  intros Hr. destruct (reachable_pool_indexed m Hr) as (Hn & Hp & Hid).
  assert (Hall : Permutation.Permutation (Pool.get_transactions m None)
                   (map snd (mp_transactions m))).
  { unfold Pool.get_transactions. rewrite <- (lookup_all_keys _ Hn).
    apply Permutation.Permutation_flat_map. exact Hp. }
  split; [exact Hall|]. split; [|split; [|split]].
  - intros n. unfold Pool.get_transactions. rewrite lookup_known_length.
    + rewrite length_firstn, (Permutation.Permutation_length Hp), length_map.
      reflexivity.
    + intros x Hx. apply (Permutation.Permutation_in _ Hp).
      rewrite <- (firstn_skipn n (map snd (_fee_index m))).
      apply in_or_app. now left.
  - intros txid tx Hg. unfold Pool.get_transaction in Hg.
    apply dict_get_entry in Hg. split.
    + exact (proj1 (Forall_forall _ _) Hid _ Hg).
    + apply (Permutation.Permutation_in _ (Permutation.Permutation_sym Hall)).
      change tx with (snd (txid, tx)). now apply in_map.
  - intros tx Hin. apply (Permutation.Permutation_in _ Hall) in Hin.
    apply in_map_iff in Hin. destruct Hin as ([k v] & E & Hin). cbn in E. subst v.
    exists k. now apply dict_entry_get.
  - unfold Pool.size. now rewrite (Permutation.Permutation_length Hall), length_map.
Qed.

Lemma pool_lists_every_transaction_once_witness :
  Permutation.Permutation (Pool.get_transactions pool_with_a_b None)
    (map snd (mp_transactions pool_with_a_b))
  /\ (forall n : nat,
        List.length (Pool.get_transactions pool_with_a_b (Some n))
        = Nat.min n (List.length (mp_transactions pool_with_a_b)))
  /\ (forall txid tx, Pool.get_transaction pool_with_a_b txid = Some tx ->
        Tx.txid tx = Ok txid /\ In tx (Pool.get_transactions pool_with_a_b None))
  /\ (forall tx, In tx (Pool.get_transactions pool_with_a_b None) ->
        exists txid, Pool.get_transaction pool_with_a_b txid = Some tx)
  /\ Pool.size pool_with_a_b
     = Z.of_nat (List.length (Pool.get_transactions pool_with_a_b None)).
Proof.
  apply (pool_lists_every_transaction_once pool_with_a_b).
  apply (reach_add pool_with_a pool_tx_b None true);
    [apply (reach_add Pool.empty pool_tx_a None true); [constructor|]|];
    vm_compute; reflexivity.
Defined.


(** ** Inclusion proofs against the Merkle root of a block *)

Lemma unhex_to_hex (data : list byte) : unhex (bytes_to_hex data) = data.
Proof. unfold unhex. now rewrite bytes_fromhex_to_hex. Qed.

Lemma hex_to_bytes_to_hex (data : list byte) :
  hex_to_bytes (bytes_to_hex data) = Ok data.
Proof.
  rewrite (hex_to_bytes_lower _ (proj1 (bytes_to_hex_lower data))).
  now rewrite unhex_to_hex.
Qed.

Lemma reverse_hash_to_hex (data : list byte) :
  reverse_hash (bytes_to_hex data) = bytes_to_hex (rev data).
Proof. unfold reverse_hash. now rewrite unhex_to_hex. Qed.

Lemma txid_is_hex (tx : Transaction) (id : string) :
  Tx.txid tx = Ok id -> exists data, id = bytes_to_hex data.
Proof.
  unfold Tx.txid. destruct (Tx.serialize tx) as [s|]; [|discriminate].
  cbn [bind]. intros E. injection E as <-. eexists. reflexivity.
Qed.

(** The leaves [Block.calculate_merkle_root] starts from are the leaves
    of the tree over the reversed ids. *)
Lemma block_leaves (txs : list Transaction) (ids : list string) :
  mapM Tx.txid txs = Ok ids ->
  mapM (fun tx => t <- Tx.txid tx ;; h <- hex_to_bytes t ;; Ok (rev h)) txs
  = Ok (map (fun id => rev (unhex id)) ids)
  /\ mapM bytes_fromhex (map reverse_hash ids) = Ok (map (fun id => rev (unhex id)) ids).
Proof.
  revert ids. induction txs as [|tx t IH]; intros ids H; cbn [mapM] in H.
  - injection H as <-. split; reflexivity.
  - destruct (Tx.txid tx) as [id|] eqn:E; [|discriminate]. cbn [bind] in H.
    destruct (mapM Tx.txid t) as [ids'|]; [|discriminate]. cbn [bind] in H.
    injection H as <-. destruct (IH ids' eq_refl) as [H1 H2].
    destruct (txid_is_hex tx id E) as (data & ->).
    cbn [mapM map]. rewrite E. cbn [bind].
    rewrite hex_to_bytes_to_hex. cbn [bind]. rewrite H1. cbn [bind].
    rewrite reverse_hash_to_hex, bytes_fromhex_to_hex. cbn [bind].
    rewrite H2. cbn [bind]. rewrite unhex_to_hex. split; reflexivity.
Qed.

Lemma build_layers_final :
  forall (fuel : nat) (l : list (list byte)) layers final,
    (List.length l <= S fuel)%nat ->
    MerkleTree.build_layers fuel l = Ok (layers, final) ->
    Blk.merkle_loop fuel l = final.
Proof.
  induction fuel as [|n IH]; intros l layers final Hlen H.
  - destruct l as [|a [|b t]]; cbn in Hlen; try lia;
      cbn in H; injection H as _ <-; reflexivity.
  - destruct l as [|a [|b t]]; try (cbn in H; injection H as _ <-; reflexivity).
    cbn [MerkleTree.build_layers] in H. cbn [Blk.merkle_loop].
    destruct (MerkleTree.build_layers n (Blk.hash_pairs (a :: b :: t)))
      as [[ls f]|] eqn:E; [|discriminate].
    cbn [bind] in H. injection H as _ <-.
    apply (IH _ ls f); [|exact E].
    pose proof (proj1 (hash_pairs_length (a :: b :: t) _ (Nat.le_refl _))). lia.
Qed.

(** The tree over a list of leaves: its root is the node the loop of the
    block ends with, and the proof of every leaf leads to it. *)
Lemma tree_over_leaves (ls : list (list byte)) (index : nat) (x : list byte) :
  nth_error ls index = Some x ->
  exists tree proof,
    MerkleTree.build_tree {| MerkleTree.leaves := ls; MerkleTree._tree := [];
                             MerkleTree._root := None |} = Ok tree
    /\ MerkleTree.get_proof tree (Z.of_nat index) = Ok proof
    /\ MerkleTree._root tree = Some (hd [] (Blk.merkle_loop (List.length ls) ls))
    /\ MerkleTree.verify_loop x proof = Ok (hd [] (Blk.merkle_loop (List.length ls) ls)).
Proof.
  intros Hxi.
  assert (Hin : (index < List.length ls)%nat) by (apply nth_error_Some; congruence).
  assert (Hrange : (Z.of_nat index <? 0) || (Z.of_nat (List.length ls) <=? Z.of_nat index)
                   = false).
  { apply orb_false_intro; [apply Z.ltb_ge; lia|apply Z.leb_gt; lia]. }
  unfold MerkleTree.build_tree. cbn [MerkleTree.leaves].
  destruct ls as [|a [|b t]]; [cbn in Hin; lia| |].
  - destruct index as [|index]; [|cbn in Hin; lia]. cbn in Hxi. injection Hxi as <-.
    exists {| MerkleTree.leaves := [a]; MerkleTree._tree := [[a]];
              MerkleTree._root := Some a |}, [].
    split; [reflexivity|]. split; [|split; reflexivity].
    unfold MerkleTree.get_proof. cbn [MerkleTree._tree MerkleTree.leaves].
    rewrite Hrange. reflexivity.
  - set (l := a :: b :: t) in *.
    destruct (build_layers_spec (List.length l) l) as (layers & r & Hb & Hlink);
      [discriminate|lia|].
    destruct (Hlink _ _ Hxi) as (proof & Hproof & Hver).
    rewrite (build_layers_final (List.length l) l layers [r] (Nat.le_succ_diag_r _) Hb).
    rewrite Hb. cbn [bind hd].
    exists {| MerkleTree.leaves := l; MerkleTree._tree := l :: layers;
              MerkleTree._root := Some r |}, proof.
    split; [reflexivity|]. split; [|split; [reflexivity|exact Hver]].
    unfold MerkleTree.get_proof. cbn [MerkleTree._tree MerkleTree.leaves].
    rewrite Hrange, Nat2Z.id. exact Hproof.
Qed.

(** X22.  The Merkle root of a block is the root of the [MerkleTree] over
    the transaction ids with their bytes reversed, with its bytes
    reversed; the proof that tree gives for a transaction verifies, from
    the reversed id, against the reversed root of the block. *)
Theorem inclusion_proof_against_block_root (b : Block) (ids : list string)
    (index : nat) (id : string) :
  mapM Tx.txid (transactions b) = Ok ids ->
  nth_error ids index = Some id ->
  exists root tree tree_root proof,
    Blk.calculate_merkle_root b = Ok root
    /\ (m <- MerkleTree.new (map reverse_hash ids) ;; MerkleTree.build_tree m) = Ok tree
    /\ MerkleTree.get_root tree = Some tree_root
    /\ root = reverse_hash tree_root
    /\ tree_root = reverse_hash root
    /\ MerkleTree.get_proof tree (Z.of_nat index) = Ok proof
    /\ MerkleTree.verify_proof (reverse_hash id) proof tree_root = Ok true.
Proof.
  intros Hids Hid. destruct (block_leaves _ _ Hids) as [Hb Ht].
  set (ls := map (fun id => rev (unhex id)) ids) in *.
  assert (Hx : nth_error ls index = Some (rev (unhex id)))
    by (subst ls; rewrite nth_error_map, Hid; reflexivity).
  destruct (tree_over_leaves ls index _ Hx) as (tree & proof & Hbuild & Hproof & Hroot & Hver).
  set (r := hd [] (Blk.merkle_loop (List.length ls) ls)) in *.
  exists (bytes_to_hex (rev r)), tree, (bytes_to_hex r), proof.
  split; [|split; [|split; [|split; [|split; [|split]]]]].
  - unfold Blk.calculate_merkle_root.
    destruct (transactions b) as [|tx [|tx' txs]] eqn:Etx.
    + cbn in Hids. injection Hids as <-. destruct index; discriminate.
    + cbn [mapM] in Hids. destruct (Tx.txid tx) as [i|] eqn:Ei; [|discriminate].
      cbn [bind mapM] in Hids. injection Hids as <-.
      destruct (txid_is_hex tx i Ei) as (data & ->).
      subst r ls. cbn [map List.length Blk.merkle_loop hd].
      now rewrite unhex_to_hex, rev_involutive.
    + rewrite Hb. cbn [bind]. reflexivity.
  - unfold MerkleTree.new. rewrite Ht. cbn [bind]. exact Hbuild.
  - unfold MerkleTree.get_root. now rewrite Hroot.
  - now rewrite reverse_hash_to_hex.
  - now rewrite reverse_hash_to_hex, rev_involutive.
  - exact Hproof.
  - unfold MerkleTree.verify_proof, reverse_hash.
    rewrite bytes_fromhex_to_hex. cbn [bind]. rewrite Hver. cbn [bind].
    now rewrite String.eqb_refl.
Qed.

Lemma inclusion_proof_against_block_root_witness :
  exists root tree tree_root proof,
    Blk.calculate_merkle_root blk_spend = Ok root
    /\ (m <- MerkleTree.new
               (map reverse_hash
                  (match mapM Tx.txid (transactions blk_spend) with
                   | Ok l => l | Raise _ => [] end)) ;;
        MerkleTree.build_tree m) = Ok tree
    /\ MerkleTree.get_root tree = Some tree_root
    /\ root = reverse_hash tree_root
    /\ tree_root = reverse_hash root
    /\ MerkleTree.get_proof tree (Z.of_nat 1) = Ok proof
    /\ MerkleTree.verify_proof (reverse_hash (txid_of (spend_genesis 5000000000)))
         proof tree_root = Ok true.
Proof.
  apply (inclusion_proof_against_block_root blk_spend
           (match mapM Tx.txid (transactions blk_spend) with
            | Ok l => l | Raise _ => [] end)
           1 (txid_of (spend_genesis 5000000000))); vm_compute; reflexivity.
Defined.


(** ** The coinbase of a height *)

(** What a coinbase built by [create_coinbase] is made of. *)
Lemma create_coinbase_parts (block_height : Z) (reward_address : string)
    (reward_amount extra_nonce : Z) (cb : Transaction) :
  Tx.create_coinbase block_height reward_address reward_amount extra_nonce = Ok cb ->
  exists height_bytes extra_nonce_bytes,
    little_endian_to_int height_bytes = block_height
    /\ little_endian_to_int extra_nonce_bytes = extra_nonce
    /\ (List.length height_bytes < 256)%nat
    /\ 0 <= block_height
    /\ cb = {| tx_version := 1;
               inputs := [ {| previous_txid := zero_hash;
                              previous_output_index := 0xffffffff;
                              signature_script :=
                                bytes_to_hex
                                  ([byte_of_Z (Z.of_nat (List.length height_bytes))]
                                   ++ height_bytes ++ extra_nonce_bytes);
                              sequence := 0xffffffff |} ];
               outputs := [ {| value := reward_amount;
                               pubkey_script := reward_address |} ];
               locktime := 0 |}.
Proof.
  unfold Tx.create_coinbase. intros H.
  set (hb := if block_height =? 0 then Ok [x00]
             else int_to_little_endian block_height
                    (Z.to_nat ((bit_length block_height + 7) / 8))) in H.
  assert (Hhb : forall bs, hb = Ok bs ->
                  little_endian_to_int bs = block_height /\ 0 <= block_height).
  { intros bs E. subst hb. destruct (Z.eqb_spec block_height 0) as [->|Hne].
    - injection E as <-. split; [reflexivity|lia].
    - unfold int_to_little_endian in E.
      destruct (Z.ltb_spec block_height 0); [discriminate|]. cbn [orb] in E.
      destruct (Z.leb_spec (256 ^ Z.of_nat (Z.to_nat ((bit_length block_height + 7) / 8)))
                  block_height); [discriminate|].
      injection E as <-. split; [|lia].
      apply little_endian_round_trip. apply fits_spec. lia. }
  destruct hb as [bs|]; [|discriminate]. cbn [bind] in H.
  destruct (Hhb bs eq_refl) as [Hh Hpos].
  unfold int_to_little_endian in H.
  destruct (Z.ltb_spec extra_nonce 0); [discriminate|]. cbn [orb] in H.
  destruct (Z.leb_spec (256 ^ Z.of_nat 8) extra_nonce); [discriminate|].
  cbn [bind] in H.
  destruct (Z.leb_spec 256 (Z.of_nat (List.length bs))); [discriminate|].
  cbn [bind] in H. injection H as <-.
  exists bs, (le_bytes 8 extra_nonce).
  split; [exact Hh|]. split; [apply little_endian_round_trip, fits_spec; lia|].
  split; [lia|]. split; [exact Hpos|reflexivity].
Qed.

Lemma bytes_to_hex_injective (a b : list byte) :
  bytes_to_hex a = bytes_to_hex b -> a = b.
Proof. intros E. rewrite <- (unhex_to_hex a), <- (unhex_to_hex b). now rewrite E. Qed.

Lemma app_same_length {A : Type} (a a' b b' : list A) :
  List.length a = List.length a' -> a ++ b = a' ++ b' -> a = a' /\ b = b'.
Proof.
  revert a'. induction a as [|x a IH]; intros [|x' a'] Hl E; cbn in *; try lia.
  - split; [reflexivity|exact E].
  - injection E as -> E. destruct (IH a' ltac:(lia) E) as [-> ->]. split; reflexivity.
Qed.

(** X23.  [create_coinbase] succeeds for a height from 0 up to
    [256 ^ 255] and an extra nonce of 8 bytes, with a transaction that
    [is_coinbase] accepts and that pays the reward to the address in one
    output; a negative height, or an extra nonce that is negative or
    does not fit 8 bytes, raises [OverflowError]; and two coinbases
    are equal only when they were built for the same height, address,
    amount and extra nonce. *)
Theorem coinbase_names_its_height :
  (forall (block_height : Z) (reward_address : string) (reward_amount extra_nonce : Z),
     0 <= block_height < 256 ^ 255 -> 0 <= extra_nonce < 2 ^ 64 ->
     exists cb,
       Tx.create_coinbase block_height reward_address reward_amount extra_nonce = Ok cb
       /\ Tx.is_coinbase cb = true
       /\ outputs cb = [ {| value := reward_amount; pubkey_script := reward_address |} ])
  /\ (forall (block_height : Z) (reward_address : string) (reward_amount extra_nonce : Z),
        block_height < 0 \/ ~ 0 <= extra_nonce < 2 ^ 64 ->
        Tx.create_coinbase block_height reward_address reward_amount extra_nonce
        = Raise OverflowError)
  /\ (forall (h h' : Z) (a a' : string) (r r' e e' : Z) (cb : Transaction),
        Tx.create_coinbase h a r e = Ok cb ->
        Tx.create_coinbase h' a' r' e' = Ok cb ->
        h = h' /\ a = a' /\ r = r' /\ e = e').
Proof.
  split; [|split].
  - intros h a r e Hh He. unfold Tx.create_coinbase.
    assert (Hhb : exists bs,
              (if h =? 0 then Ok [x00]
               else int_to_little_endian h (Z.to_nat ((bit_length h + 7) / 8))) = Ok bs
              /\ (List.length bs < 256)%nat).
    { destruct (Z.eqb_spec h 0) as [->|Hne]; [exists [x00]; split; [reflexivity|cbn; lia]|].
      destruct (byte_length_bounds h ltac:(lia)) as (Hm & Hlo & Hhi).
      set (m := (bit_length h + 7) / 8) in *.
      assert (Hm255 : m <= 255).
      { destruct (Z_le_gt_dec m 255) as [|Hgt]; [assumption|exfalso].
        assert (Hle : 256 ^ 255 <= 256 ^ (m - 1)) by (apply Z.pow_le_mono_r; lia).
        apply (Z.lt_irrefl h). eapply Z.lt_le_trans; [exact (proj2 Hh)|].
        eapply Z.le_trans; [exact Hle|exact Hlo]. }
      exists (le_bytes (Z.to_nat m) h). rewrite le_bytes_length. split; [|lia].
      apply int_to_little_endian_ok, fits_spec. rewrite Z2Nat.id by lia. lia. }
    destruct Hhb as (bs & -> & Hlen). cbn [bind].
    rewrite (int_to_little_endian_ok e 8) by (apply fits_spec; change (256 ^ Z.of_nat 8) with (2 ^ 64); lia).
    cbn [bind]. destruct (Z.leb_spec 256 (Z.of_nat (List.length bs))); [lia|].
    cbn [bind]. eexists. split; [reflexivity|]. split; reflexivity.
  - intros h a r e Hbad. unfold Tx.create_coinbase.
    destruct (Z.ltb_spec h 0) as [Hneg|Hpos].
    + destruct (Z.eqb_spec h 0); [lia|]. unfold int_to_little_endian at 1.
      destruct (Z.ltb_spec h 0); [reflexivity|lia].
    + destruct Hbad as [|Hbad]; [lia|].
      destruct (if h =? 0 then Ok [x00] else _) as [bs|ex] eqn:E.
      * cbn [bind]. unfold int_to_little_endian.
        change (256 ^ Z.of_nat 8) with (2 ^ 64).
        destruct (Z.ltb_spec e 0); [reflexivity|].
        destruct (Z.leb_spec (2 ^ 64) e); [reflexivity|lia].
      * destruct (Z.eqb_spec h 0); [discriminate|]. unfold int_to_little_endian in E.
        destruct ((h <? 0) || _); [now injection E as <-|discriminate].
  - intros h h' a a' r r' e e' cb H H'.
    destruct (create_coinbase_parts _ _ _ _ _ H) as (hb & eb & Hh & He & Hl & _ & ->).
    destruct (create_coinbase_parts _ _ _ _ _ H') as (hb' & eb' & Hh' & He' & Hl' & _ & E).
    pose proof (f_equal (fun t => map signature_script (inputs t)) E) as Es.
    pose proof (f_equal (fun t => map value (outputs t)) E) as Er.
    pose proof (f_equal (fun t => map pubkey_script (outputs t)) E) as Ea.
    cbv beta iota delta [map inputs outputs signature_script value pubkey_script]
      in Es, Er, Ea.
    clear E. injection Er as Er. injection Ea as Ea.
    assert (Es' := f_equal (hd EmptyString) Es). cbv beta iota delta [hd] in Es'.
    clear Es. apply bytes_to_hex_injective in Es'.
    change ([?x] ++ ?y) with (x :: y) in Es'.
    assert (Eb := f_equal (hd x00) Es'). assert (Et := f_equal (@tl byte) Es').
    cbn [hd tl app] in Eb, Et. clear Es'.
    assert (Hlen : List.length hb = List.length hb').
    { apply (f_equal byte_to_Z) in Eb. rewrite !byte_to_Z_of_Z in Eb.
      rewrite !Z.mod_small in Eb by lia. lia. }
    destruct (app_same_length _ _ _ _ Hlen Et) as [-> ->].
    repeat split; congruence.
Qed.


(** ** Hashes as texts and as numbers *)

Lemma int_hex_acc_to_hex (data : list byte) (acc : Z) :
  int_hex_acc acc (bytes_to_hex data)
  = Ok (acc * 256 ^ Z.of_nat (List.length data) + big_endian_to_int data).
Proof.
  revert acc. induction data as [|b t IH]; intros acc.
  - cbn. f_equal. lia.
  - cbn [bytes_to_hex int_hex_acc].
    pose proof (byte_to_Z_range b) as Hb.
    assert (Hhi : 0 <= byte_to_Z b / 16 < 16)
      by (split; [apply Z.div_pos; lia|apply Z.div_lt_upper_bound; lia]).
    assert (Hlo : 0 <= byte_to_Z b mod 16 < 16) by (apply Z.mod_pos_bound; lia).
    rewrite (proj2 (hex_digit_value _ Hhi)), (proj2 (hex_digit_value _ Hlo)), IH.
    f_equal. unfold big_endian_to_int. cbn [rev]. rewrite little_endian_to_int_app.
    cbn [little_endian_to_int]. rewrite length_rev.
    replace (Z.of_nat (List.length (b :: t))) with (Z.of_nat (List.length t) + 1)
      by (cbn [List.length]; lia).
    rewrite Z.pow_add_r by lia.
    pose proof (Z.div_mod (byte_to_Z b) 16 ltac:(lia)). lia.
Qed.

Lemma int_hex_to_hex (data : list byte) :
  data <> [] -> int_hex (bytes_to_hex data) = Ok (big_endian_to_int data).
Proof.
  intros Hne. destruct data as [|b t]; [congruence|].
  unfold int_hex. change (bytes_to_hex (b :: t))
    with (String (hex_digit (byte_to_Z b / 16))
            (String (hex_digit (byte_to_Z b mod 16)) (bytes_to_hex t))) at 1.
  cbv iota. rewrite int_hex_acc_to_hex. f_equal.
Qed.

Lemma double_sha256_length (data : list byte) :
  List.length (double_sha256 data) = 32%nat.
Proof. unfold double_sha256. apply sha256_length. Qed.

Lemma digest_is_hash_text (data : list byte) :
  hash_text (bytes_to_hex (rev (double_sha256 data))) = true.
Proof.
  unfold hash_text. destruct (bytes_to_hex_lower (rev (double_sha256 data))) as [H1 H2].
  rewrite H1, H2, length_rev, double_sha256_length. reflexivity.
Qed.

(** X24.  While the cache of the property is empty, a transaction id
    and a block hash are computed from the serialized bytes and are texts
    of 64 lowercase hexadecimal digits; for a header that can be
    serialized, [meets_difficulty_target] then never raises: it compares
    the double SHA-256 of the serialized header, read as a little-endian
    number below [2 ^ 256], with [get_target].  A cached id or hash, as
    [from_dict] leaves one, is returned as it is, whatever the fields are,
    and [meets_difficulty_target] compares the cached text with the
    target: for a cached text of 64 lowercase digits, the number the
    digits spell.  [get_target] is the target that
    [compact_bits_to_target] of the miner decodes from positive bits. *)
Theorem hashes_and_the_target_check :
  (forall (tx : Transaction) (id : string),
     Tx.txid_property None tx = Ok id -> hash_text id = true)
  /\ (forall (tx : Transaction) (cached : string),
        Tx.txid_property (Some cached) tx = Ok cached)
  /\ (forall (h : BlockHeader) (serialized : list byte),
        Header.serialize h = Ok serialized ->
        let digest := double_sha256 serialized in
        Header.hash_property None h = Ok (bytes_to_hex (rev digest))
        /\ hash_text (bytes_to_hex (rev digest)) = true
        /\ 0 <= little_endian_to_int digest < 2 ^ 256
        /\ Header.meets_difficulty_target_cached None h
           = Ok (little_endian_to_int digest <=? Header.get_target h))
  /\ (forall (h : BlockHeader) (cached : string),
        Header.hash_property (Some cached) h = Ok cached
        /\ (hash_text cached = true ->
            Header.meets_difficulty_target_cached (Some cached) h
            = Ok (big_endian_to_int (unhex cached) <=? Header.get_target h)))
  /\ (forall h : BlockHeader,
        compact_bits_to_target (difficulty_bits h)
        = if difficulty_bits h <=? 0 then Raise ValueError
          else Ok (Header.get_target h)).
Proof.
  split; [|split; [|split; [|split]]].
  - intros tx id. unfold Tx.txid_property, Tx.txid.
    destruct (Tx.serialize tx) as [s|]; [|discriminate].
    cbn [bind]. intros E. injection E as <-. apply digest_is_hash_text.
  - reflexivity.
  - intros h serialized Hs digest.
    assert (Hh : Header.hash_property None h = Ok (bytes_to_hex (rev digest)))
      by (unfold Header.hash_property, Header.hash; rewrite Hs; reflexivity).
    split; [exact Hh|]. split; [apply digest_is_hash_text|]. split.
    + pose proof (little_endian_to_int_range digest) as Hr.
      subst digest. rewrite double_sha256_length in Hr. exact Hr.
    + unfold Header.meets_difficulty_target_cached. rewrite Hh. cbn [bind].
      rewrite int_hex_to_hex.
      * cbn [bind]. unfold big_endian_to_int. now rewrite rev_involutive.
      * intros E. apply (f_equal (@List.length byte)) in E.
        subst digest. rewrite length_rev, double_sha256_length in E. discriminate.
  - intros h cached. split; [reflexivity|]. intros Ht.
    destruct (hash_text_spec cached Ht) as (_ & _ & Eh & Hl).
    unfold Header.meets_difficulty_target_cached, Header.hash_property. cbn [bind].
    rewrite <- Eh at 1. rewrite int_hex_to_hex; [reflexivity|].
    intros E. rewrite E in Hl. discriminate.
  - intros h. unfold compact_bits_to_target, Header.get_target.
    destruct (difficulty_bits h <=? 0); [reflexivity|].
    match goal with |- (if ?t <? 0 then _ else _) = _ =>
      destruct (Z.ltb_spec t 0); f_equal; lia end.
Qed.


(** ** Mining on the tip *)

Lemma template_parts (prev : string) (height bits : Z) (address : string)
    (reward extra_nonce time : Z) (template : Block) :
  create_block_template prev height bits [] address reward extra_nonce time = Ok template ->
  exists cb cb_txid,
    Tx.create_coinbase height address reward extra_nonce = Ok cb
    /\ Tx.txid cb = Ok cb_txid
    /\ template
       = {| header := {| version := 1; previous_block_hash := prev;
                         merkle_root := cb_txid; timestamp := time;
                         difficulty_bits := bits; nonce := 0 |};
            transactions := [cb];
            _height := Some height |}.
Proof.
  unfold create_block_template. intros H.
  destruct (Tx.create_coinbase height address reward extra_nonce) as [cb|] eqn:Ec;
    [|discriminate].
  cbn [bind] in H. unfold Blk.calculate_merkle_root in H. cbn [transactions] in H.
  destruct (Tx.txid cb) as [id|] eqn:Et; [|discriminate].
  cbn [bind] in H. injection H as <-. exists cb, id. repeat split; assumption.
Qed.

Lemma apply_coinbase_alone (u : UTXOSet) (height : Z) (cb : Transaction)
    (id : string) (out : TransactionOutput) :
  Tx.is_coinbase cb = true -> outputs cb = [out] -> Tx.txid cb = Ok id ->
  apply_txs u height [cb] = (Ok tt, UTXO.add_utxo u id 0 out height true).
Proof.
  intros Hic Hout Hid. cbn [apply_txs]. unfold apply_tx, add_outputs.
  rewrite Hic, Hout, Hid. reflexivity.
Qed.

Lemma clear_coinbase_alone (m : Mempool) (b : Block) (cb : Transaction) :
  transactions b = [cb] -> Tx.is_coinbase cb = true ->
  Pool.clear_confirmed m b = (Ok 0, m).
Proof.
  intros Htxs Hic. unfold Pool.clear_confirmed. rewrite Htxs.
  cbn [Pool.clear_confirmed_loop]. now rewrite Hic.
Qed.

Section Mining.
Variable orc : list byte -> list byte -> list byte -> result bool.

(** X25.  A block template without transactions, built on the best tip
    for the next height and the expected difficulty, with a reward within
    the subsidy, is accepted by [add_block] once a nonce is found for it
    and its timestamp and size are in order: the block is stored at that
    height, becomes the best tip, and leaves one more unspent output, the
    reward, marked as coinbase; the mempool is as before. *)
Theorem mined_template_becomes_the_tip
    (bc : Blockchain) (tip : string) (tip_block : Block) (h : Z)
    (bits : Z) (address : string) (reward extra_nonce time found_nonce now : Z)
    (template : Block) (block_hash : string) (subsidy : Z) :
  best_chain_tip bc = Some tip ->
  tip <> zero_hash ->
  Chain.get_block bc tip = Some tip_block ->
  _height tip_block = Some h ->
  create_block_template tip (h + 1) bits [] address reward extra_nonce time
  = Ok template ->
  Header.hash (header (with_nonce template found_nonce)) = Ok block_hash ->
  Chain.get_block bc block_hash = None ->
  Header.meets_difficulty_target (header (with_nonce template found_nonce)) = Ok true ->
  Rules.validate_timestamp time (Chain.get_previous_timestamps bc tip 11) now = Ok true ->
  Rules.validate_block_size (with_nonce template found_nonce) = Ok true ->
  get_block_reward (h + 1) = Ok subsidy ->
  reward <= subsidy ->
  fst (Chain._get_next_difficulty bc (h + 1)) = Ok bits ->
  exists cb cb_txid bc',
    transactions template = [cb]
    /\ Tx.txid cb = Ok cb_txid
    /\ add_block orc bc (with_nonce template found_nonce) now = (Ok true, bc')
    /\ best_chain_tip bc' = Some block_hash
    /\ Chain.get_block bc' block_hash
       = Some (set_height (with_nonce template found_nonce) (h + 1))
    /\ Chain.get_chain_height bc' = h + 1
    /\ UTXO.get_utxo (utxo_set bc') cb_txid 0
       = Some (UTXOEntry.mk reward address (h + 1) true)
    /\ (forall txid index, (txid, index) <> (cb_txid, 0) ->
          UTXO.get_utxo (utxo_set bc') txid index
          = UTXO.get_utxo (utxo_set bc) txid index)
    /\ mempool bc' = mempool bc.
Proof.
  intros Htip Hnz Hblock Hh Htemplate Hhash Hnew Hpow Hts Hsize Hsub Hrew Hbits.
  destruct (template_parts _ _ _ _ _ _ _ _ Htemplate) as (cb & id & Hcb & Hid & ->).
  destruct (create_coinbase_parts _ _ _ _ _ Hcb) as (hb & eb & _ & _ & _ & _ & Ecb).
  assert (Hic : Tx.is_coinbase cb = true) by (rewrite Ecb; reflexivity).
  assert (Hout : outputs cb = [ {| value := reward; pubkey_script := address |} ])
    by (rewrite Ecb; reflexivity).
  clear Ecb hb eb.
  exists cb, id.
  set (b := with_nonce _ found_nonce) in *.
  assert (Hprev : previous_block_hash (header b) = tip) by reflexivity.
  assert (Htxs : transactions b = [cb]) by reflexivity.
  assert (Hroot : merkle_root (header b) = id) by reflexivity.
  assert (Htime : timestamp (header b) = time) by reflexivity.
  assert (Hdb : difficulty_bits (header b) = bits) by reflexivity.
  assert (Hexp : forall x, expected_height_of (set_difficulty_bits bc x) tip = h + 1).
  { intros x. rewrite expected_height_of_bits. unfold expected_height_of.
    destruct (String.eqb_spec tip zero_hash) as [|_]; [contradiction|].
    rewrite Hblock. destruct tip_block as [hd0 txs0 ht0]. cbn in Hh. now rewrite Hh. }
  assert (Hmem : Dict.mem String.eqb block_hash (blocks bc) = false)
    by (unfold Dict.mem; unfold Chain.get_block in Hnew; now rewrite Hnew).
  assert (Hpmem : Dict.mem String.eqb tip (blocks bc) = true)
    by (unfold Dict.mem; unfold Chain.get_block in Hblock; now rewrite Hblock).
  (* validation *)
  assert (Hbody : validate_block_body orc b bc now false (h + 1) = Ok tt).
  { unfold validate_block_body, Blk.calculate_merkle_root.
    rewrite Htxs, Hid, Hroot. cbn [bind]. rewrite String.eqb_refl. cbn [negb].
    rewrite Htime, Hprev, Hts. cbn [bind negb]. rewrite Hsize. cbn [bind negb].
    unfold Rules.validate_coinbase. rewrite Htxs, Hic. cbn [negb existsb].
    rewrite Hsub. cbn [bind]. rewrite Hout.
    unfold sum_values. cbn [map value fold_left].
    destruct (Z.ltb_spec (subsidy + 0) (0 + reward)) as [|_]; [lia|].
    cbn [bind negb].
    unfold validate_block_transactions, enumerate. rewrite Htxs.
    cbn [enumerate_from validate_block_transactions_loop]. rewrite Hic.
    cbn [Z.eqb andb bind].
    unfold Rules.validate_no_duplicate_txids. cbn [Rules.duplicate_txids].
    rewrite Hid. reflexivity. }
  pose proof (get_next_difficulty_state bc (h + 1)) as Hst.
  destruct (Chain._get_next_difficulty bc (h + 1)) as [rb bc1] eqn:End.
  cbn [fst snd] in Hbits, Hst. subst rb.
  assert (Hval : validate_block orc b bc now = (Ok true, bc1)).
  { unfold validate_block. rewrite Hhash, Hpow, Hprev.
    destruct (String.eqb_spec tip zero_hash) as [|_]; [contradiction|].
    cbn [negb andb]. rewrite Hpmem. cbn [negb].
    replace (expected_height_of bc tip) with (h + 1)
      by (rewrite <- (Hexp (_difficulty_bits bc)), set_difficulty_bits_same; reflexivity).
    rewrite Hbody, End, Hdb, Z.eqb_refl. reflexivity. }
  set (x := _difficulty_bits bc1) in *.
  set (b1 := set_height b (h + 1)).
  set (bc2 := store_block bc1 block_hash b1 (h + 1) tip).
  assert (Hadd : add_block orc bc b now = extend_best_chain bc2 block_hash b1).
  { unfold add_block. rewrite Hhash, Hmem, Hval, Hprev.
    replace (expected_height_of bc1 tip) with (h + 1) by (rewrite Hst; symmetry; apply Hexp).
    fold b1. fold bc2.
    assert (Hdf : exists f, _detect_fork bc2 b1 = Ok f).
    { unfold _detect_fork. change (header b1) with (header b). rewrite Hprev, Hhash.
      destruct (String.eqb tip zero_hash); eexists; reflexivity. }
    destruct Hdf as (f & ->).
    assert (Ht2 : best_chain_tip bc2 = Some tip) by (subst bc2; rewrite Hst; exact Htip).
    rewrite Ht2, String.eqb_refl. reflexivity. }
  unfold extend_best_chain, connect_block, _apply_block in Hadd.
  change (_height b1) with (Some (h + 1)) in Hadd.
  change (transactions b1) with [cb] in Hadd.
  rewrite (apply_coinbase_alone _ _ cb id _ Hic Hout Hid) in Hadd.
  rewrite (clear_coinbase_alone _ b1 cb eq_refl Hic) in Hadd.
  eexists. split; [reflexivity|]. split; [exact Hid|]. split; [exact Hadd|].
  assert (Hget : Chain.get_block
                   (set_mempool
                      (set_utxo_set (set_best_chain_tip bc2 (Some block_hash))
                         (UTXO.add_utxo (utxo_set (set_best_chain_tip bc2 (Some block_hash)))
                            id 0 {| value := reward; pubkey_script := address |}
                            (h + 1) true))
                      (mempool
                         (set_utxo_set (set_best_chain_tip bc2 (Some block_hash))
                            (UTXO.add_utxo
                               (utxo_set (set_best_chain_tip bc2 (Some block_hash)))
                               id 0 {| value := reward; pubkey_script := address |}
                               (h + 1) true))))
                   block_hash = Some b1).
  { unfold Chain.get_block. cbn [blocks set_mempool set_utxo_set set_best_chain_tip].
    subst bc2. cbn [blocks store_block]. apply dict_get_set_same. }
  split; [reflexivity|]. split; [exact Hget|]. split.
  { unfold Chain.get_chain_height, Chain.get_chain_tip.
    cbn [best_chain_tip set_mempool set_utxo_set set_best_chain_tip].
    rewrite Hget. reflexivity. }
  cbn [utxo_set mempool set_mempool set_utxo_set set_best_chain_tip].
  assert (Hu : utxo_set bc2 = utxo_set bc) by (subst bc2; rewrite Hst; reflexivity).
  assert (Hm : mempool bc2 = mempool bc) by (subst bc2; rewrite Hst; reflexivity).
  rewrite Hu, Hm. split; [|split; [|reflexivity]].
  - unfold UTXO.get_utxo, UTXO.add_utxo. apply dict_get_set_same.
  - intros txid index Hne. unfold UTXO.get_utxo, UTXO.add_utxo.
    apply dict_get_set_other. intros E. apply make_key_injective in E.
    destruct E as [-> ->]. now apply Hne.
Qed.

End Mining.

Lemma mined_template_becomes_the_tip_witness :
  exists cb cb_txid bc',
    transactions blk_1 = [cb]
    /\ Tx.txid cb = Ok cb_txid
    /\ add_block no_crypto dev_genesis_chain blk_1 clock = (Ok true, bc')
    /\ best_chain_tip bc' = Some (hash_of blk_1)
    /\ Chain.get_block bc' (hash_of blk_1) = Some (set_height blk_1 (0 + 1))
    /\ Chain.get_chain_height bc' = 0 + 1
    /\ UTXO.get_utxo (utxo_set bc') cb_txid 0
       = Some (UTXOEntry.mk 5000000000 miner_a (0 + 1) true)
    /\ (forall txid index, (txid, index) <> (cb_txid, 0) ->
          UTXO.get_utxo (utxo_set bc') txid index
          = UTXO.get_utxo (utxo_set dev_genesis_chain) txid index)
    /\ mempool bc' = mempool dev_genesis_chain.
Proof.
  pose (tip := previous_block_hash (header blk_1)).
  pose (template := match create_block_template tip (0 + 1) 0x1f0fffff [] miner_a
                            5000000000 0 1231006506 with
                    | Ok t => t | Raise _ => no_block end).
  pose (tip_block := match Chain.get_block dev_genesis_chain tip with
                     | Some t => t | None => no_block end).
  apply (mined_template_becomes_the_tip no_crypto dev_genesis_chain tip tip_block 0
           0x1f0fffff miner_a 5000000000 0 1231006506 (nonce (header blk_1)) clock
           template (hash_of blk_1) 5000000000);
    try (vm_compute; reflexivity).
  - vm_compute. discriminate.
  - vm_compute. discriminate.
Defined.


(** ** The size of a block *)

Lemma sizes_of_serialized (txs : list Transaction) (bytes : list byte) :
  Tx.serialize_all Tx.serialize txs = Ok bytes ->
  exists sizes,
    mapM (fun tx => s <- Tx.serialize tx ;; Ok (Z.of_nat (List.length s))) txs = Ok sizes
    /\ forall acc, fold_left Z.add sizes acc = acc + Z.of_nat (List.length bytes).
Proof.
  revert bytes. induction txs as [|tx t IH]; intros bytes H; cbn [Tx.serialize_all] in H.
  - injection H as <-. exists []. split; [reflexivity|]. intros acc. cbn. lia.
  - destruct (Tx.serialize tx) as [s|] eqn:Es; [|discriminate]. cbn [bind] in H.
    destruct (Tx.serialize_all Tx.serialize t) as [r|]; [|discriminate].
    cbn [bind] in H. injection H as <-.
    destruct (IH r eq_refl) as (sizes & Hs & Hf).
    exists (Z.of_nat (List.length s) :: sizes). cbn [mapM]. rewrite Es. cbn [bind].
    rewrite Hs. cbn [bind].
    split; [reflexivity|]. intros acc. cbn [fold_left]. rewrite Hf, length_app. lia.
Qed.

Lemma int_to_little_endian_length (v : Z) (n : nat) (bs : list byte) :
  int_to_little_endian v n = Ok bs -> List.length bs = n.
Proof.
  unfold int_to_little_endian. destruct (_ || _); [discriminate|].
  intros E. injection E as <-. apply le_bytes_length.
Qed.

(** X26.  [get_size] counts 80 bytes for the header, whatever the header
    serializes to, and the bytes of the count and of the transactions as
    [serialize_block] writes them; when the two hashes of the header are
    texts of 64 digits the header has 80 bytes, [get_size] is the length
    of the serialized block, and [validate_block_size] accepts the block
    exactly when that length is at most [MAX_BLOCK_SIZE]. *)
Theorem block_size_is_the_serialized_length (b : Block) (data : list byte) :
  serialize_block b = Ok data ->
  exists header_bytes,
    Header.serialize (header b) = Ok header_bytes
    /\ Blk.get_size b
       = Ok (80 + (Z.of_nat (List.length data) - Z.of_nat (List.length header_bytes)))
    /\ (hash_text (previous_block_hash (header b)) = true ->
        hash_text (merkle_root (header b)) = true ->
        List.length header_bytes = 80%nat
        /\ Blk.get_size b = Ok (Z.of_nat (List.length data))
        /\ Rules.validate_block_size b
           = if MAX_BLOCK_SIZE <? Z.of_nat (List.length data)
             then Raise ValueError else Ok true).
Proof.
  unfold serialize_block. intros H.
  destruct (Header.serialize (header b)) as [hb|] eqn:Eh; [|discriminate].
  cbn [bind] in H.
  destruct (encode_varint (Z.of_nat (List.length (transactions b)))) as [n|] eqn:En;
    [|discriminate].
  cbn [bind] in H.
  destruct (Tx.serialize_all Tx.serialize (transactions b)) as [txs|] eqn:Et;
    [|discriminate].
  cbn [bind] in H. injection H as <-.
  destruct (sizes_of_serialized _ _ Et) as (sizes & Hs & Hf).
  assert (Hsize : Blk.get_size b
                  = Ok (80 + (Z.of_nat (List.length (hb ++ n ++ txs))
                              - Z.of_nat (List.length hb)))).
  { unfold Blk.get_size. rewrite En. cbn [bind]. rewrite Hs. cbn [bind].
    rewrite Hf, !length_app. f_equal. lia. }
  exists hb. split; [reflexivity|]. split; [exact Hsize|].
  intros Hp Hm.
  assert (Hlen : List.length hb = 80%nat).
  { unfold Header.serialize in Eh.
    destruct (hash_text_spec _ Hp) as (Ep & _ & _ & Lp).
    destruct (hash_text_spec _ Hm) as (Em & _ & _ & Lm).
    rewrite Ep, Em in Eh.
    destruct (int_to_little_endian (version (header b)) 4) as [v|] eqn:E1; [|discriminate].
    cbn [bind] in Eh.
    destruct (int_to_little_endian (timestamp (header b)) 4) as [t|] eqn:E2; [|discriminate].
    cbn [bind] in Eh.
    destruct (int_to_little_endian (difficulty_bits (header b)) 4) as [d|] eqn:E3;
      [|discriminate].
    cbn [bind] in Eh.
    destruct (int_to_little_endian (nonce (header b)) 4) as [nn|] eqn:E4; [|discriminate].
    cbn [bind] in Eh. injection Eh as <-.
    apply int_to_little_endian_length in E1, E2, E3, E4.
    rewrite !length_app, !length_rev, Lp, Lm, E1, E2, E3, E4. reflexivity. }
  split; [exact Hlen|].
  assert (Hsize' : Blk.get_size b = Ok (Z.of_nat (List.length (hb ++ n ++ txs))))
    by (rewrite Hsize, Hlen; f_equal; lia).
  split; [exact Hsize'|].
  unfold Rules.validate_block_size. rewrite Hsize'. reflexivity.
Qed.

Lemma block_size_is_the_serialized_length_witness :
  exists header_bytes,
    Header.serialize (header blk_spend) = Ok header_bytes
    /\ Blk.get_size blk_spend
       = Ok (80 + (Z.of_nat (List.length (match serialize_block blk_spend with
                                          | Ok d => d | Raise _ => [] end))
                   - Z.of_nat (List.length header_bytes)))
    /\ (hash_text (previous_block_hash (header blk_spend)) = true ->
        hash_text (merkle_root (header blk_spend)) = true ->
        List.length header_bytes = 80%nat
        /\ Blk.get_size blk_spend
           = Ok (Z.of_nat (List.length (match serialize_block blk_spend with
                                        | Ok d => d | Raise _ => [] end)))
        /\ Rules.validate_block_size blk_spend
           = if MAX_BLOCK_SIZE
                <? Z.of_nat (List.length (match serialize_block blk_spend with
                                          | Ok d => d | Raise _ => [] end))
             then Raise ValueError else Ok true).
Proof.
  apply (block_size_is_the_serialized_length blk_spend).
  vm_compute. reflexivity.
Defined.


(** ** The block store of a reachable chain *)

Lemma block_tree_ok_blocks (bc bc' : Blockchain) :
  blocks bc' = blocks bc -> block_tree_ok bc -> block_tree_ok bc'.
Proof.
  intros E H k b. unfold Chain.get_block. rewrite E. intros Hk.
  destruct (H k b Hk) as (H1 & h & H2 & H3 & H4 & H5).
  split; [exact H1|]. exists h. repeat (split; [assumption|]).
  intros Hne. destruct (H5 Hne) as (p & Hp & Hh). exists p. split; [exact Hp|exact Hh].
Qed.

Lemma block_tree_ok_new (development_mode : bool) (bc : Blockchain) :
  new_blockchain development_mode = Ok bc -> block_tree_ok bc.
Proof.
  unfold new_blockchain, _create_genesis_block. intros H.
  destruct (genesis_block _) as [g|] eqn:Eg; [|discriminate]. cbn [bind] in H.
  destruct (Header.hash (header g)) as [gh|] eqn:Eh; [|discriminate]. cbn [bind] in H.
  match type of H with
  | match _apply_block ?s g with _ => _ end = _ =>
      pose proof (apply_block_tree s g) as Ht;
      destruct (_apply_block s g) as [[u|e] bc2]; [|discriminate]
  end.
  injection H as <-. destruct Ht as (Hb & _). cbn [snd] in Hb.
  cbn [blocks empty_blockchain Dict.set] in Hb.
  assert (Hg : previous_block_hash (header g) = zero_hash /\ _height g = Some 0).
  { unfold genesis_block in Eg.
    destruct (get_block_reward 0) as [rw|]; [|discriminate]. cbn [bind] in Eg.
    destruct (Tx.create_coinbase _ _ _ _) as [cb|]; [|discriminate]. cbn [bind] in Eg.
    destruct (Tx.txid cb) as [id|]; [|discriminate]. cbn [bind] in Eg.
    destruct (compute_merkle_root [id]) as [root|]; [|discriminate]. cbn [bind] in Eg.
    injection Eg as <-. split; reflexivity. }
  destruct Hg as [Hprev Hheight].
  intros k b. unfold Chain.get_block. rewrite Hb. cbn [Dict.get].
  destruct (String.eqb_spec k gh) as [->|_]; [|discriminate].
  intros E. injection E as <-. split; [exact Eh|].
  exists 0. split; [exact Hheight|]. split; [lia|]. split; [reflexivity|].
  intros Hne. contradiction.
Qed.

Section Reachable.
Variable orc : list byte -> list byte -> list byte -> result bool.

Lemma block_tree_ok_add (bc : Blockchain) (b : Block) (now : Z) (r : result bool)
    (bc' : Blockchain) :
  block_tree_ok bc -> add_block orc bc b now = (r, bc') -> block_tree_ok bc'.
Proof.
  intros Hok Hadd.
  destruct (add_block_outcome orc bc b now r bc' Hadd)
    as [[_ He]|(hh & bc1 & Hh & Hm & Hv & Hb)];
    [exact (block_tree_ok_blocks bc bc' He Hok)|].
  destruct (validate_block_checks orc b bc bc1 now Hv) as (_ & _ & _ & _ & _ & Hparent).
  set (prev := previous_block_hash (header b)) in *.
  set (ht := expected_height_of bc prev) in *.
  assert (Hfresh : forall q p, Chain.get_block bc q = Some p -> q <> hh).
  { intros q p Hq ->. unfold Chain.get_block in Hq. unfold Dict.mem in Hm.
    rewrite Hq in Hm. discriminate. }
  assert (Hkeep : forall q p, Chain.get_block bc q = Some p ->
                              Chain.get_block bc' q = Some p).
  { intros q p Hq. unfold Chain.get_block in *. rewrite Hb.
    rewrite dict_get_set_other; [exact Hq|]. exact (Hfresh q p Hq). }
  intros k b0 Hk. unfold Chain.get_block in Hk. rewrite Hb in Hk.
  destruct (String.eqb_spec k hh) as [->|Hne].
  - rewrite dict_get_set_same in Hk. injection Hk as <-.
    change (header (set_height b ht)) with (header b). fold prev.
    split; [exact Hh|]. exists ht. split; [reflexivity|].
    destruct Hparent as [Hz|[Hpm _]].
    + assert (Hht : ht = 0).
      { subst ht. unfold expected_height_of. now rewrite Hz, String.eqb_refl. }
      split; [lia|]. split; [intros _; exact Hht|]. intros Hnz. contradiction.
    + unfold Dict.mem in Hpm.
      destruct (Dict.get String.eqb prev (blocks bc)) as [p|] eqn:Ep; [|discriminate].
      destruct (Hok prev p Ep) as (_ & hp & Hhp & Hpos & _).
      destruct (String.eqb_spec prev zero_hash) as [Hz|Hnz].
      * assert (Hht : ht = 0).
        { subst ht. unfold expected_height_of. now rewrite Hz, String.eqb_refl. }
        split; [lia|]. split; [intros _; exact Hht|]. intros Hc. contradiction.
      * assert (Hht : ht = hp + 1).
        { subst ht. unfold expected_height_of, Chain.get_block.
          destruct (String.eqb_spec prev zero_hash) as [|_]; [contradiction|].
          rewrite Ep. destruct p as [hd0 txs0 h0]. cbn in Hhp. now rewrite Hhp. }
        split; [lia|]. split; [intros Hc; contradiction|]. intros _.
        exists p. split; [exact (Hkeep prev p Ep)|].
        rewrite Hhp. f_equal. lia.
  - rewrite dict_get_set_other in Hk by exact Hne.
    destruct (Hok k b0 Hk) as (H1 & h & H2 & H3 & H4 & H5).
    split; [exact H1|]. exists h. repeat (split; [assumption|]).
    intros Hnz. destruct (H5 Hnz) as (p & Hp & Hhp). exists p.
    split; [exact (Hkeep _ p Hp)|exact Hhp].
Qed.

Lemma reachable_block_tree (bc : Blockchain) :
  reachable_chain orc bc -> block_tree_ok bc.
Proof.
  induction 1 as [dev bc Hnew|bc b now r bc' _ IH Hadd|bc _ IH].
  - exact (block_tree_ok_new dev bc Hnew).
  - exact (block_tree_ok_add bc b now r bc' IH Hadd).
  - apply (block_tree_ok_blocks bc); [|exact IH].
    unfold Chain.get_current_difficulty. rewrite get_next_difficulty_state. reflexivity.
Qed.

(** X27.  In a block chain built by the constructor, [add_block] and
    [get_current_difficulty], every stored block is stored under its own
    hash and has a height that is not negative: 0 when it names the zero
    hash as its parent, and otherwise one more than the height of its
    parent, which is stored as well. *)
Theorem stored_blocks_form_a_tree (bc : Blockchain) (k : string) (b : Block) :
  reachable_chain orc bc ->
  Chain.get_block bc k = Some b ->
  Header.hash (header b) = Ok k
  /\ exists h,
       _height b = Some h /\ 0 <= h
       /\ (previous_block_hash (header b) = zero_hash -> h = 0)
       /\ (previous_block_hash (header b) <> zero_hash ->
           exists p, Chain.get_block bc (previous_block_hash (header b)) = Some p
                     /\ _height p = Some (h - 1)).
Proof.
  intros Hr Hk. exact (reachable_block_tree bc Hr k b Hk).
Qed.

End Reachable.

Lemma stored_blocks_form_a_tree_witness :
  Header.hash (header (set_height blk_1 1)) = Ok (hash_of blk_1)
  /\ exists h,
       _height (set_height blk_1 1) = Some h /\ 0 <= h
       /\ (previous_block_hash (header (set_height blk_1 1)) = zero_hash -> h = 0)
       /\ (previous_block_hash (header (set_height blk_1 1)) <> zero_hash ->
           exists p,
             Chain.get_block (snd (add_block no_crypto dev_genesis_chain blk_1 clock))
               (previous_block_hash (header (set_height blk_1 1))) = Some p
             /\ _height p = Some (h - 1)).
Proof.
  apply (stored_blocks_form_a_tree no_crypto
           (snd (add_block no_crypto dev_genesis_chain blk_1 clock))
           (hash_of blk_1) (set_height blk_1 1)).
  - apply (reach_block no_crypto dev_genesis_chain blk_1 clock
             (fst (add_block no_crypto dev_genesis_chain blk_1 clock))).
    + apply (reach_new no_crypto true). vm_compute. reflexivity.
    + now destruct (add_block no_crypto dev_genesis_chain blk_1 clock).
  - vm_compute. reflexivity.
Defined.


(** ** The chain from the genesis block to a stored block *)

Lemma header_hash_is_text (hd0 : BlockHeader) (k : string) :
  Header.hash hd0 = Ok k -> str_true k = true /\ hash_text k = true.
Proof.
  unfold Header.hash. destruct (Header.serialize hd0) as [s|]; [|discriminate].
  cbn [bind]. intros E. injection E as <-.
  pose proof (digest_is_hash_text s) as Ht. split; [|exact Ht].
  unfold hash_text in Ht. apply andb_true_iff in Ht. destruct Ht as [_ Hl].
  destruct (bytes_to_hex _); [discriminate|reflexivity].
Qed.

(** A stored block at height [n] has [n + 1] stored ancestors, itself
    included, so the store holds more than [n] blocks. *)
Lemma ancestors_are_stored (bc : Blockchain) :
  block_tree_ok bc ->
  forall (n : nat) (k : string) (b : Block),
    Chain.get_block bc k = Some b -> _height b = Some (Z.of_nat n) ->
    exists ks,
      List.length ks = S n /\ NoDup ks /\ incl ks (map fst (blocks bc))
      /\ forall q, In q ks ->
           exists bq hq, Chain.get_block bc q = Some bq /\ _height bq = Some hq
                         /\ hq <= Z.of_nat n.
Proof.
  intros Hok. induction n as [|n IH]; intros k b Hk Hh.
  - exists [k]. split; [reflexivity|]. split; [repeat constructor; intros []|].
    split.
    + intros q [<-|[]]. exact (dict_get_in _ _ _ Hk).
    + intros q [<-|[]]. exists b, 0. repeat split; [exact Hk|exact Hh|lia].
  - destruct (Hok k b Hk) as (_ & h & Hh' & _ & Hz & Hp).
    assert (Eh : h = Z.of_nat (S n)) by congruence.
    assert (Hnz : previous_block_hash (header b) <> zero_hash)
      by (intros E; specialize (Hz E); lia).
    destruct (Hp Hnz) as (p & Hpk & Hph).
    replace (h - 1) with (Z.of_nat n) in Hph by lia.
    destruct (IH _ p Hpk Hph) as (ks & Hl & Hnd & Hin & Hle).
    exists (k :: ks). split; [cbn; now rewrite Hl|]. split; [|split].
    + constructor; [|exact Hnd]. intros Hc.
      destruct (Hle k Hc) as (bq & hq & Hq & Hhq & Hb).
      rewrite Hk in Hq. injection Hq as <-.
      assert (hq = Z.of_nat (S n)) by congruence. lia.
    + intros q [<-|Hq]; [exact (dict_get_in _ _ _ Hk)|now apply Hin].
    + intros q [<-|Hq].
      * exists b, (Z.of_nat (S n)). repeat split; [exact Hk|exact Hh|lia].
      * destruct (Hle q Hq) as (bq & hq & H1 & H2 & H3). exists bq, hq.
        repeat split; [exact H1|exact H2|lia].
Qed.

Lemma get_chain_loop_descends (bc : Blockchain) :
  block_tree_ok bc ->
  Chain.get_block bc zero_hash = None ->
  forall (n : nat) (cur : string) (b : Block) (visited : list string)
         (acc : list Block) (fuel : nat),
    Chain.get_block bc cur = Some b -> _height b = Some (Z.of_nat n) ->
    (forall v bv hv, In v visited -> Chain.get_block bc v = Some bv ->
                     _height bv = Some hv -> Z.of_nat n < hv) ->
    (n < fuel)%nat ->
    exists l,
      Chain.get_chain_loop fuel bc cur visited acc = rev l ++ acc
      /\ List.length l = S n /\ hd_error l = Some b
      /\ descends cur (Z.of_nat n) l.
Proof.
  intros Hok Hzero. induction n as [|n IH]; intros cur b visited acc fuel Hk Hh Hv Hf.
  - destruct fuel as [|f]; [lia|].
    destruct (Hok cur b Hk) as (Hhash & h & Hh' & _ & _ & Hp).
    assert (Eh : h = Z.of_nat 0) by congruence.
    destruct (header_hash_is_text _ _ Hhash) as [Hne _].
    assert (Hcz : cur <> zero_hash) by (intros ->; congruence).
    assert (Hnv : existsb (String.eqb cur) visited = false).
    { destruct (existsb _ visited) eqn:E; [|reflexivity].
      apply existsb_exists in E. destruct E as (v & Hin & Ev).
      apply String.eqb_eq in Ev. subst v. specialize (Hv cur b _ Hin Hk Hh). lia. }
    assert (Hprev : previous_block_hash (header b) = zero_hash).
    { destruct (String.eqb_spec (previous_block_hash (header b)) zero_hash) as [E|E];
        [exact E|].
      destruct (Hp E) as (p & Hpk & Hph).
      destruct (Hok _ p Hpk) as (_ & hp & Hhp & Hpos & _).
      assert (hp = h - 1) by congruence. lia. }
    exists [b]. split; [|split; [reflexivity|split; [reflexivity|]]].
    + cbn [Chain.get_chain_loop]. rewrite Hne.
      destruct (String.eqb_spec cur zero_hash) as [|_]; [contradiction|].
      cbn [negb orb]. rewrite Hnv, Hk, Hprev.
      destruct f as [|f]; cbn [Chain.get_chain_loop]; [reflexivity|].
      rewrite String.eqb_refl, orb_true_r. reflexivity.
    + cbn [descends]. split; [exact Hhash|]. split; [exact Hh|].
      split; [exact Hprev|reflexivity].
  - destruct fuel as [|f]; [lia|].
    destruct (Hok cur b Hk) as (Hhash & h & Hh' & _ & Hz & Hp).
    assert (Eh : h = Z.of_nat (S n)) by congruence.
    destruct (header_hash_is_text _ _ Hhash) as [Hne _].
    assert (Hcz : cur <> zero_hash) by (intros ->; congruence).
    assert (Hnv : existsb (String.eqb cur) visited = false).
    { destruct (existsb _ visited) eqn:E; [|reflexivity].
      apply existsb_exists in E. destruct E as (v & Hin & Ev).
      apply String.eqb_eq in Ev. subst v. specialize (Hv cur b _ Hin Hk Hh). lia. }
    assert (Hnz : previous_block_hash (header b) <> zero_hash)
      by (intros E; specialize (Hz E); lia).
    destruct (Hp Hnz) as (p & Hpk & Hph).
    replace (h - 1) with (Z.of_nat n) in Hph by lia.
    destruct (IH (previous_block_hash (header b)) p (cur :: visited) (b :: acc) f
                Hpk Hph) as (l & Hl & Hlen & Hhd & Hd); [|lia|].
    { intros v bv hv [<-|Hin] Hbv Hhv.
      - rewrite Hk in Hbv. injection Hbv as <-.
        assert (hv = Z.of_nat (S n)) by congruence. lia.
      - specialize (Hv v bv hv Hin Hbv Hhv). lia. }
    exists (b :: l). split; [|split; [cbn; now rewrite Hlen|split; [reflexivity|]]].
    + cbn [Chain.get_chain_loop]. rewrite Hne.
      destruct (String.eqb_spec cur zero_hash) as [|_]; [contradiction|].
      cbn [negb orb]. rewrite Hnv, Hk, Hl. cbn [rev]. now rewrite <- app_assoc.
    + cbn [descends]. split; [exact Hhash|]. split; [exact Hh|].
      replace (Z.of_nat (S n) - 1) with (Z.of_nat n) by lia. exact Hd.
Qed.

Section Chains.
Variable orc : list byte -> list byte -> list byte -> result bool.

(** X28.  In a reachable block chain where no block is stored under the
    zero hash, [get_chain(k)] for a stored block of height [h] returns
    [h + 1] blocks; read from the end they are the block itself, its
    parent, and so on, each the parent of the one before and one lower,
    down to a block at height 0 that names the zero hash as its parent.
    With the best tip for [k], [get_chain_height] is [h]. *)
Theorem chain_runs_from_genesis_to_tip (bc : Blockchain) (k : string) (b : Block)
    (h : Z) :
  reachable_chain orc bc ->
  Chain.get_block bc zero_hash = None ->
  Chain.get_block bc k = Some b ->
  _height b = Some h ->
  Z.of_nat (List.length (Chain.get_chain bc (Some k))) = h + 1
  /\ hd_error (rev (Chain.get_chain bc (Some k))) = Some b
  /\ descends k h (rev (Chain.get_chain bc (Some k)))
  /\ (best_chain_tip bc = Some k ->
      Chain.get_chain bc None = Chain.get_chain bc (Some k)
      /\ Chain.get_chain_height bc = h).
Proof.
  intros Hr Hzero Hk Hh.
  pose proof (reachable_block_tree orc bc Hr) as Hok.
  destruct (Hok k b Hk) as (_ & h' & Hh' & Hpos & _).
  assert (h' = h) by congruence. subst h'.
  set (n := Z.to_nat h).
  assert (Hn : h = Z.of_nat n) by (subst n; lia).
  rewrite Hn in Hh.
  destruct (ancestors_are_stored bc Hok n k b Hk Hh) as (ks & Hl & Hnd & Hin & _).
  assert (Hfuel : (n < S (List.length (blocks bc)))%nat).
  { pose proof (NoDup_incl_length Hnd Hin) as Hle. rewrite length_map in Hle. lia. }
  destruct (get_chain_loop_descends bc Hok Hzero n k b [] [] _ Hk Hh
              ltac:(intros v bv hv []) Hfuel) as (l & Hloop & Hlen & Hhd & Hd).
  assert (Hc : Chain.get_chain bc (Some k) = rev l).
  { unfold Chain.get_chain. rewrite Hloop. apply app_nil_r. }
  rewrite Hc, rev_involutive, length_rev, Hlen, Hn.
  split; [lia|]. split; [exact Hhd|]. split; [exact Hd|].
  intros Ht. split.
  - unfold Chain.get_chain. now rewrite Ht.
  - unfold Chain.get_chain_height, Chain.get_chain_tip. rewrite Ht, Hk, Hh. reflexivity.
Qed.

End Chains.

Lemma chain_runs_from_genesis_to_tip_witness :
  Z.of_nat (List.length
              (Chain.get_chain (snd (add_block no_crypto dev_genesis_chain blk_1 clock))
                 (Some (hash_of blk_1)))) = 1 + 1
  /\ hd_error (rev (Chain.get_chain
                      (snd (add_block no_crypto dev_genesis_chain blk_1 clock))
                      (Some (hash_of blk_1))))
     = Some (set_height blk_1 1)
  /\ descends (hash_of blk_1) 1
       (rev (Chain.get_chain (snd (add_block no_crypto dev_genesis_chain blk_1 clock))
               (Some (hash_of blk_1))))
  /\ (best_chain_tip (snd (add_block no_crypto dev_genesis_chain blk_1 clock))
      = Some (hash_of blk_1) ->
      Chain.get_chain (snd (add_block no_crypto dev_genesis_chain blk_1 clock)) None
      = Chain.get_chain (snd (add_block no_crypto dev_genesis_chain blk_1 clock))
          (Some (hash_of blk_1))
      /\ Chain.get_chain_height (snd (add_block no_crypto dev_genesis_chain blk_1 clock))
         = 1).
Proof.
  apply (chain_runs_from_genesis_to_tip no_crypto
           (snd (add_block no_crypto dev_genesis_chain blk_1 clock))
           (hash_of blk_1) (set_height blk_1 1) 1).
  - apply (reach_block no_crypto dev_genesis_chain blk_1 clock
             (fst (add_block no_crypto dev_genesis_chain blk_1 clock))).
    + apply (reach_new no_crypto true). vm_compute. reflexivity.
    + now destruct (add_block no_crypto dev_genesis_chain blk_1 clock).
  - vm_compute. reflexivity.
  - vm_compute. reflexivity.
  - reflexivity.
Defined.
